(** * ObjectStore: an in-memory model of a cloud drive

    A shallow embedding of [src/object-store.js] (classes [Entry], [File],
    [Folder] and [ObjectStore]) and the properties of its operations.

    Modelling decisions.
    - JavaScript objects are shared by reference: the [#objects] map, the
      [#parents] map and every folder's [#entries] array point to the same
      [Entry] objects.  The model keeps a heap ([list Entry], indexed by
      address) holding every entry the store ever constructed, and the maps
      and child arrays hold addresses.  Objects are never removed from the
      heap (garbage collection is not observable).
    - [new Date()] reads the wall clock.  The clock is an oracle
      [clock : nat -> Z] (milliseconds) together with the count [ticks] of the
      readings taken so far; [toISOString] is injective on instants, so
      records carry the instant itself.
    - The module-level counter [nextId] is a natural number (the source's
      double loses precision only beyond 2^53 allocations).
    - An operation is a function from states to results; a thrown error
      carries the state at the moment of the throw, so that mutations made
      before the throw stay visible.
    - Identifiers and names are [string]s: the store only compares them and
      tests them for emptiness.  Text content is a sequence of UTF-16 code
      units, because [File.size] measures its UTF-8 encoding. *)

From Stdlib Require Import ZArith NArith List Lia Ascii String.
From stdpp Require Import base tactics option numbers list strings gmap pretty.

Set Warnings "-register-all,-clear-no-such-hyp".

Local Open Scope string_scope.
Local Open Scope list_scope.

(** ** Platform: [TextEncoder]

    [TextEncoder.prototype.encode] is a platform API.  It converts the UTF-16
    code units of a JavaScript string to scalar values, replacing every lone
    surrogate by U+FFFD, and encodes the scalar values as UTF-8. *)

Definition is_lead (u : N) : bool := ((0xD800 <=? u) && (u <=? 0xDBFF))%N.
Definition is_trail (u : N) : bool := ((0xDC00 <=? u) && (u <=? 0xDFFF))%N.

Definition utf8_of_scalar (c : N) : list N :=
  (if c <? 0x80 then [c]
   else if c <? 0x800 then [0xC0 + c / 0x40; 0x80 + c mod 0x40]
   else if c <? 0x10000 then
     [0xE0 + c / 0x1000; 0x80 + (c / 0x40) mod 0x40; 0x80 + c mod 0x40]
   else
     [0xF0 + c / 0x40000; 0x80 + (c / 0x1000) mod 0x40;
      0x80 + (c / 0x40) mod 0x40; 0x80 + c mod 0x40])%N.

Fixpoint TextEncoder_encode (units : list N) : list N :=
  match units with
  | [] => []
  | u :: rest =>
      if is_lead u then
        match rest with
        | v :: rest' =>
            if is_trail v
            then utf8_of_scalar (0x10000 + (u - 0xD800) * 0x400 + (v - 0xDC00))%N
                   ++ TextEncoder_encode rest'
            else utf8_of_scalar 0xFFFD%N ++ TextEncoder_encode rest
        | [] => utf8_of_scalar 0xFFFD%N
        end
      else if is_trail u then utf8_of_scalar 0xFFFD%N ++ TextEncoder_encode rest
      else utf8_of_scalar u ++ TextEncoder_encode rest
  end.

(** The code units of an ASCII literal, for examples. *)
Definition units_of_string (s : string) : list N :=
  map N_of_ascii (list_ascii_of_string s).

(** ** Values returned to callers

    Records are plain JavaScript objects: ordered key/value pairs. *)

Inductive JValue :=
  | JUndefined
  | JString (s : string)
  | JNumber (n : Z)
  | JDate (t : Z)                      (* [toISOString()] of the instant [t] *)
  | JArray (items : list JValue)
  | JObject (fields : list (string * JValue)).

Abbreviation JRecord := (list (string * JValue)).

(** Property read [o[k]]. *)
Fixpoint jget (k : string) (o : JRecord) : option JValue :=
  match o with
  | [] => None
  | (k', v) :: o' => if decide (k' = k) then Some v else jget k o'
  end.

(** Property write [o[k] = v]: an existing key keeps its position. *)
Fixpoint jset (k : string) (v : JValue) (o : JRecord) : JRecord :=
  match o with
  | [] => [(k, v)]
  | (k', v') :: o' =>
      if decide (k' = k) then (k', v) :: o' else (k', v') :: jset k v o'
  end.


(** ** Entries *)

Abbreviation addr := nat.

Inductive Content :=
  | CUndefined
  | CText (units : list N)
  | CBuffer (bytes : list Byte.byte).

(** JavaScript truthiness of the values the store tests. *)
Definition truthy_string (s : string) : bool := negb (bool_decide (s = EmptyString)).

Definition truthy_opt (o : option string) : bool :=
  match o with Some s => truthy_string s | None => false end.

Definition truthy_content (c : Content) : bool :=
  match c with
  | CUndefined => false
  | CText [] => false
  | CText (_ :: _) => true
  | CBuffer _ => true               (* every object is truthy *)
  end.

(** [File] and [Folder] extend [Entry]; the subclass part is a tagged
    payload. *)
Inductive Body :=
  | File (content : Content)
  | Folder (entries : list addr).

Inductive EntryType := TFile | TFolder.

Record Entry := mkEntry {
  id : string;
  name : string;
  createdAt : Z;
  modifiedAt : Z;
  body : Body;
}.

Definition type (e : Entry) : EntryType :=
  match body e with File _ => TFile | Folder _ => TFolder end.

Definition type_string (t : EntryType) : string :=
  match t with TFile => "file" | TFolder => "folder" end.

Definition set_id (i : string) (e : Entry) : Entry :=
  mkEntry i (name e) (createdAt e) (modifiedAt e) (body e).
Definition set_name (n : string) (e : Entry) : Entry :=
  mkEntry (id e) n (createdAt e) (modifiedAt e) (body e).
Definition set_modifiedAt (t : Z) (e : Entry) : Entry :=
  mkEntry (id e) (name e) (createdAt e) t (body e).
Definition set_body (b : Body) (e : Entry) : Entry :=
  mkEntry (id e) (name e) (createdAt e) (modifiedAt e) b.

(** [get size()] of [File]. *)
Definition File_size (c : Content) : nat :=
  if negb (truthy_content c) then 0
  else match c with
       | CBuffer bytes => length bytes
       | CText units => length (TextEncoder_encode units)
       | CUndefined => 0
       end.

(** ** Store state and the operation monad *)

Record State := mkState {
  nextId : nat;
  clock : nat → Z;
  ticks : nat;
  heap : list Entry;
  root : addr;
  objects : gmap string addr;
  parents : gmap string (option addr);
}.

Definition with_nextId (f : nat → nat) (s : State) : State :=
  mkState (f (nextId s)) (clock s) (ticks s) (heap s) (root s) (objects s) (parents s).
Definition with_ticks (f : nat → nat) (s : State) : State :=
  mkState (nextId s) (clock s) (f (ticks s)) (heap s) (root s) (objects s) (parents s).
Definition with_heap (f : list Entry → list Entry) (s : State) : State :=
  mkState (nextId s) (clock s) (ticks s) (f (heap s)) (root s) (objects s) (parents s).
Definition with_objects (f : gmap string addr → gmap string addr) (s : State) : State :=
  mkState (nextId s) (clock s) (ticks s) (heap s) (root s) (f (objects s)) (parents s).
Definition with_parents
    (f : gmap string (option addr) → gmap string (option addr)) (s : State) : State :=
  mkState (nextId s) (clock s) (ticks s) (heap s) (root s) (objects s) (f (parents s)).

Inductive Error :=
  | TypeError (message : string)
  | RangeError (message : string).

Inductive Result (A : Type) :=
  | Ok (a : A) (s : State)
  | Throw (e : Error) (s : State).
Arguments Ok {A} a s.
Arguments Throw {A} e s.

Definition M (A : Type) : Type := State → Result A.

Definition ret {A} (a : A) : M A := λ s, Ok a s.
Definition bind {A B} (m : M A) (k : A → M B) : M B :=
  λ s, match m s with Ok a s' => k a s' | Throw e s' => Throw e s' end.
Definition throw {A} (e : Error) : M A := λ s, Throw e s.
Definition gets {A} (f : State → A) : M A := λ s, Ok (f s) s.
Definition modify (f : State → State) : M unit := λ s, Ok tt (f s).

Notation "'let*' x ':=' m 'in' k" := (bind m (λ x, k))
  (at level 10, x name, m at level 100, k at level 200).
Notation "m ';;;' k" := (bind m (λ _, k))
  (at level 100, k at level 200, right associativity).

Definition state_of {A} (r : Result A) : State :=
  match r with Ok _ s => s | Throw _ s => s end.

Definition is_ok {A} (r : Result A) : bool :=
  match r with Ok _ _ => true | Throw _ _ => false end.

Fixpoint forM_ {A} (l : list A) (f : A → M unit) : M unit :=
  match l with
  | [] => ret tt
  | x :: l' => f x ;;; forM_ l' f
  end.

Fixpoint mapM {A B} (f : A → M B) (l : list A) : M (list B) :=
  match l with
  | [] => ret []
  | x :: l' => let* y := f x in let* ys := mapM f l' in ret (y :: ys)
  end.

(** Reading through a reference.  References held by the store are always
    live; the error branch has no counterpart in the source. *)
Definition deref (a : addr) : M Entry :=
  λ s, match heap s !! a with
       | Some e => Ok e s
       | None => Throw (TypeError "dangling reference") s
       end.

Definition update (a : addr) (f : Entry → Entry) : M unit :=
  modify (with_heap (alter f a)).

(** [new Date()] *)
Definition new_Date : M Z :=
  λ s, Ok (clock s (ticks s)) (with_ticks S s).

(** [String(nextId++)] *)
Definition fresh_id : M string :=
  λ s, Ok (pretty (nextId s)) (with_nextId S s).

(** [this.store.getParent(id)], that is [this.#parents.get(id)]: a key bound
    to [undefined] and a missing key both read as [undefined]. *)
Definition lookup_parent (s : State) (i : string) : option addr :=
  mjoin (parents s !! i).

Definition getParent (i : string) : M (option addr) := gets (λ s, lookup_parent s i).

(** ** class Entry *)

(** Field initialisers and constructor of [Entry]: [id], [createdAt] and
    [modifiedAt] are initialised in this order, each date by its own reading
    of the clock. *)
Definition new_Entry (nm : string) (b : Body) : M addr :=
  let* i := fresh_id in
  let* c := new_Date in
  let* m := new_Date in
  λ s, Ok (length (heap s)) (with_heap (λ h, h ++ [mkEntry i nm c m b]) s).

(** [set name(newName)] *)
Definition Entry_set_name (a : addr) (newName : string) : M unit :=
  update a (set_name newName) ;;;
  let* t := new_Date in
  update a (set_modifiedAt t).

(** [Entry.prototype.toMiniJSON] *)
Definition Entry_toMiniJSON (a : addr) : M JRecord :=
  let* e := deref a in
  let* p := getParent (id e) in
  let* pid := match p with
              | Some q => let* eq := deref q in ret (JString (id eq))
              | None => ret JUndefined
              end in
  ret [("id", JString (id e));
       ("name", JString (name e));
       ("type", JString (type_string (type e)));
       ("parent_id", pid);
       ("created_at", JDate (createdAt e));
       ("modified_at", JDate (modifiedAt e))].

(** ** class File *)

(** [new File(name, content, { store, id })] *)
Definition new_File (nm : string) (c : Content) (i : option string) : M addr :=
  let* a := new_Entry nm (File c) in
  (match i with
   | Some i' => if truthy_string i' then update a (set_id i') else ret tt
   | None => ret tt
   end) ;;;
  ret a.

(** [set content(value)] *)
Definition File_set_content (a : addr) (value : Content) : M unit :=
  update a (set_body (File value)) ;;;
  let* t := new_Date in
  update a (set_modifiedAt t) ;;;
  let* e := deref a in
  let* p := getParent (id e) in
  match p with
  | Some q => update q (set_modifiedAt (modifiedAt e))
  | None =>
      throw (TypeError "Cannot set properties of undefined (setting 'modifiedAt')")
  end.

(** [File.prototype.toMiniJSON] *)
Definition File_toMiniJSON (a : addr) : M JRecord :=
  let* o := Entry_toMiniJSON a in
  let* e := deref a in
  match body e with
  | File c => ret (jset "size" (JNumber (Z.of_nat (File_size c))) o)
  | Folder _ => throw (TypeError "not a File")
  end.

(** Method dispatch on the class of the receiver. *)
Definition toMiniJSON (a : addr) : M JRecord :=
  let* e := deref a in
  match body e with
  | File _ => File_toMiniJSON a
  | Folder _ => Entry_toMiniJSON a
  end.

(** [Entry.prototype.toJSON] *)
Definition Entry_toJSON (a : addr) : M JRecord := toMiniJSON a.

(** ** class Folder *)

(** [new Folder(name, { store, id, entries = [] })] *)
Definition new_Folder (nm : string) (i : option string) : M addr :=
  let* a := new_Entry nm (Folder []) in
  (match i with
   | Some i' => if truthy_string i' then update a (set_id i') else ret tt
   | None => ret tt
   end) ;;;
  ret a.

(** Read of the private field [#entries]; only folders have it. *)
Definition Folder_entries (p : addr) : M (list addr) :=
  let* e := deref p in
  match body e with
  | Folder es => ret es
  | File _ => throw (TypeError "not a Folder")
  end.

Definition id_of (s : State) (a : addr) : option string := id <$> heap s !! a.

(** [add(entry)] *)
Definition Folder_add (p entry : addr) : M unit :=
  let* es := Folder_entries p in
  update p (set_body (Folder (es ++ [entry]))) ;;;
  let* t := new_Date in
  update p (set_modifiedAt t) ;;;
  update entry (set_modifiedAt t).

(** [remove(entry)] *)
Definition Folder_remove (p entry : addr) : M unit :=
  let* es := Folder_entries p in
  let* es' := gets (λ s, filter (λ e, id_of s e ≠ id_of s entry) es) in
  update p (set_body (Folder es')) ;;;
  let* t := new_Date in
  update p (set_modifiedAt t) ;;;
  update entry (set_modifiedAt t).

(** [Folder.prototype.toJSON]: [super.toJSON()] dispatches [toMiniJSON] on a
    folder, which is [Entry]'s. *)
Definition Folder_toJSON (a : addr) : M JRecord :=
  let* o := Entry_toJSON a in
  let* es := Folder_entries a in
  let* minis := mapM toMiniJSON es in
  ret (jset "entries" (JArray (map JObject minis)) o).

Definition toJSON (a : addr) : M JRecord :=
  let* e := deref a in
  match body e with
  | File _ => Entry_toJSON a
  | Folder _ => Folder_toJSON a
  end.

(** ** class ObjectStore *)

Definition undefined_read (prop : string) : Error :=
  TypeError (String.append "Cannot read properties of undefined (reading "
               (String.append prop ")")).

(** A template literal [`${before}"${i}"${after}`]. *)
Definition quoted (before i after : string) : string :=
  let q := String (ascii_of_nat 34) EmptyString in
  String.append before (String.append q (String.append i (String.append q after))).

(** [#register(entry, parent)] *)
Definition register (entry : addr) (parent : option addr) : M unit :=
  let* e := deref entry in
  modify (with_parents (insert (id e) parent)) ;;;
  modify (with_objects (insert (id e) entry)) ;;;
  match parent with
  | Some p => Folder_add p entry
  | None => ret tt
  end.

(** [#unregister(entry)] *)
Definition unregister (entry : addr) : M unit :=
  let* e := deref entry in
  let* parent := getParent (id e) in
  modify (with_parents (delete (id e))) ;;;
  modify (with_objects (delete (id e))) ;;;
  match parent with
  | Some p => Folder_remove p entry
  | None => throw (undefined_read "'remove'")
  end.

(** [constructor({ rootFolderId } = {})], run in a module whose counter
    stands at [n0]. *)
Definition ObjectStore_constructor (rootFolderId : option string) : M unit :=
  let* r := new_Folder "root" rootFolderId in
  modify (λ s, mkState (nextId s) (clock s) (ticks s) (heap s) r (objects s) (parents s)) ;;;
  register r None.

Definition new_ObjectStore (clk : nat → Z) (n0 : nat) (rootFolderId : option string) : State :=
  state_of (ObjectStore_constructor rootFolderId (mkState n0 clk 0 [] 0 ∅ ∅)).

(** The default [parentId = this.#root.id] of the create operations. *)
Definition default_parent (parentId : option string) : M string :=
  match parentId with
  | Some i => ret i
  | None => let* r := gets root in let* e := deref r in ret (id e)
  end.

(** [createFile(name, { parentId = this.#root.id, content } = {})] *)
Definition createFile (nm : string) (parentId : option string) (c : Content) : M JRecord :=
  let* pid := default_parent parentId in
  let* parent := gets (λ s, objects s !! pid) in
  match parent with
  | None => throw (TypeError "Parent not found.")
  | Some p =>
      let* ep := deref p in
      match type ep with
      | TFile => throw (TypeError "Parent is not a folder.")
      | TFolder =>
          let* file := new_File nm c None in
          register file (Some p) ;;;
          toJSON file
      end
  end.

(** [getFile(id)] *)
Definition getFile (i : string) : M JRecord :=
  let* file := gets (λ s, objects s !! i) in
  match file with
  | None => throw (TypeError "File not found.")
  | Some f =>
      let* e := deref f in
      match type e with
      | TFolder => throw (TypeError "Not a file.")
      | TFile => toJSON f
      end
  end.

(** [getFileContent(id)] *)
Definition getFileContent (i : string) : M Content :=
  let* file := gets (λ s, objects s !! i) in
  match file with
  | None => throw (TypeError (quoted "File " i " not found."))
  | Some f =>
      let* e := deref f in
      match body e with
      | Folder _ => throw (TypeError "Not a file.")
      | File c => ret c
      end
  end.

(** The block guarded by [if (parentId)], the same in [updateFile] and
    [updateFolder]: validate the new parent, detach, register again. *)
Definition move_to (entry : addr) (parentId : option string) : M unit :=
  match parentId with
  | None => ret tt
  | Some pid =>
      if truthy_string pid then
        let* newParent := gets (λ s, objects s !! pid) in
        match newParent with
        | None => throw (TypeError (quoted "Parent " pid " not found."))
        | Some p =>
            let* ep := deref p in
            match type ep with
            | TFile => throw (TypeError (quoted "Parent " pid " not a folder."))
            | TFolder =>
                let* e := deref entry in
                let* old := getParent (id e) in
                match old with
                | None => throw (undefined_read "'remove'")
                | Some q => Folder_remove q entry ;;; register entry (Some p)
                end
            end
        end
      else ret tt
  end.

(** The statement [if (name) { entry.name = name; }]. *)
Definition rename_to (entry : addr) (nm : option string) : M unit :=
  match nm with
  | Some n => if truthy_string n then Entry_set_name entry n else ret tt
  | None => ret tt
  end.

(** [updateFile(id, { name, content, parentId })] *)
Definition updateFile (i : string) (nm : option string) (c : Content)
    (parentId : option string) : M JRecord :=
  let* file := gets (λ s, objects s !! i) in
  match file with
  | None => throw (TypeError "File not found.")
  | Some f =>
      let* e := deref f in
      match type e with
      | TFolder => throw (TypeError "Not a file.")
      | TFile =>
          rename_to f nm ;;;
          (if truthy_content c then File_set_content f c else ret tt) ;;;
          move_to f parentId ;;;
          toJSON f
      end
  end.

(** [deleteFile(id)] *)
Definition deleteFile (i : string) : M unit :=
  let* file := gets (λ s, objects s !! i) in
  match file with
  | None => throw (TypeError "File not found.")
  | Some f =>
      let* e := deref f in
      match type e with
      | TFolder => throw (TypeError "Not a file.")
      | TFile => unregister f
      end
  end.

(** [createFolder(name, { parentId = this.#root.id } = {})] *)
Definition createFolder (nm : string) (parentId : option string) : M JRecord :=
  let* pid := default_parent parentId in
  let* parent := gets (λ s, objects s !! pid) in
  match parent with
  | None => throw (TypeError "Parent not found.")
  | Some p =>
      let* ep := deref p in
      match type ep with
      | TFile => throw (TypeError "Parent is not a folder.")
      | TFolder =>
          let* folder := new_Folder nm None in
          register folder (Some p) ;;;
          toJSON folder
      end
  end.

(** [getFolder(id)] *)
Definition getFolder (i : string) : M JRecord :=
  let* folder := gets (λ s, objects s !! i) in
  match folder with
  | None => throw (TypeError "Folder not found.")
  | Some f =>
      let* e := deref f in
      match type e with
      | TFile => throw (TypeError "Not a folder.")
      | TFolder => toJSON f
      end
  end.

(** [updateFolder(id, { name, parentId })] *)
Definition updateFolder (i : string) (nm : option string)
    (parentId : option string) : M JRecord :=
  let* folder := gets (λ s, objects s !! i) in
  match folder with
  | None => throw (TypeError "Folder not found.")
  | Some f =>
      let* e := deref f in
      match type e with
      | TFile => throw (TypeError "Not a folder.")
      | TFolder =>
          rename_to f nm ;;;
          move_to f parentId ;;;
          toJSON f
      end
  end.

(** [deleteFolder(id)].  The recursion follows the tree held in the store, so
    it is bounded by [fuel], the depth of call stack available; running out
    of it is JavaScript's stack overflow.  [folder.entries()] iterates the
    array that [#entries] holds when the loop starts: [remove] assigns a new
    filtered array and never changes that one. *)
Fixpoint deleteFolder (fuel : nat) (i : string) : M unit :=
  match fuel with
  | 0 => throw (RangeError "Maximum call stack size exceeded")
  | S fuel' =>
      let* folder := gets (λ s, objects s !! i) in
      match folder with
      | None => throw (TypeError "Folder not found.")
      | Some f =>
          let* e := deref f in
          match body e with
          | File _ => throw (TypeError "Not a folder.")
          | Folder es =>
              forM_ es (λ entry,
                let* ee := deref entry in
                match type ee with
                | TFolder => deleteFolder fuel' (id ee)
                | TFile => deleteFile (id ee)
                end) ;;;
              unregister f
          end
      end
  end.

(** ** Operation sequences *)

Inductive Op :=
  | CreateFile (nm : string) (parentId : option string) (c : Content)
  | GetFile (i : string)
  | GetFileContent (i : string)
  | UpdateFile (i : string) (nm : option string) (c : Content) (parentId : option string)
  | DeleteFile (i : string)
  | CreateFolder (nm : string) (parentId : option string)
  | GetFolder (i : string)
  | UpdateFolder (i : string) (nm : option string) (parentId : option string)
  | DeleteFolder (fuel : nat) (i : string).

(** The state a call leaves behind, whether it returns or throws. *)
Definition exec (op : Op) (s : State) : State :=
  match op with
  | CreateFile nm p c => state_of (createFile nm p c s)
  | GetFile i => state_of (getFile i s)
  | GetFileContent i => state_of (getFileContent i s)
  | UpdateFile i nm c p => state_of (updateFile i nm c p s)
  | DeleteFile i => state_of (deleteFile i s)
  | CreateFolder nm p => state_of (createFolder nm p s)
  | GetFolder i => state_of (getFolder i s)
  | UpdateFolder i nm p => state_of (updateFolder i nm p s)
  | DeleteFolder fuel i => state_of (deleteFolder fuel i s)
  end.

Definition run (ops : list Op) (s : State) : State := foldl (λ s op, exec op s) s ops.

(** ** Predicates used in the statements *)

(** A computation that leaves the state as it found it. *)
Definition reads {A} (m : M A) : Prop := ∀ s, state_of (m s) = s.


(** The size a file record is expected to show. *)
Definition claimed_size (c : Content) : nat :=
  match c with
  | CUndefined => 0
  | CText units => length (TextEncoder_encode units)
  | CBuffer bytes => length bytes
  end.

(** [stable proj s s']: every entry of [s] is still there in [s'], with the
    same [proj]. *)
Definition stable {X} (proj : Entry → X) (s s' : State) : Prop :=
  ∀ a e, heap s !! a = Some e → ∃ e', heap s' !! a = Some e' ∧ proj e' = proj e.

(** A computation whose final state, returned or thrown, is related to its
    initial state by [R]. *)
Definition preserves {A} (R : State → State → Prop) (m : M A) : Prop :=
  ∀ s, R s (state_of (m s)).



Definition file_content (e : Entry) : option Content :=
  match body e with File c => Some c | Folder _ => None end.

(** A small store for examples: root "0" holds folder "1" (docs), which holds
    file "2" (a.txt) and folder "3" (sub), which holds file "4" (b.txt). *)
Definition demo_store : State :=
  run [CreateFolder "docs" None;
       CreateFile "a.txt" (Some "1") (CText (units_of_string "Hello, world!"));
       CreateFolder "sub" (Some "1");
       CreateFile "b.txt" (Some "3") CUndefined]
      (new_ObjectStore (λ _, 0%Z) 0 (Some "0")).

(** ** The parent relation *)

(** The parent of an entry, found the way [toMiniJSON] finds it:
    [this.store.getParent(this.id)]. *)
Definition parentOf (s : State) (a : addr) : option addr :=
  e ← heap s !! a; lookup_parent s (id e).

(** [up par a b]: one or more parent steps lead from [a] to [b]. *)
Inductive up (par : addr → option addr) : addr → addr → Prop :=
  | up_parent a p : par a = Some p → up par a p
  | up_step a p b : par a = Some p → up par p b → up par a b.

(** [ancestor s b a]: [b] is an ancestor of [a], and [a] a descendant of [b]. *)
Definition ancestor (s : State) (b a : addr) : Prop := up (parentOf s) a b.

Definition acyclic (s : State) : Prop := ∀ a, ¬ ancestor s a a.

(** No two entries the store ever constructed share an id. *)
Definition ids_unique (s : State) : Prop := NoDup (id <$> heap s).

(** A clock that advances by a millisecond after its fourth reading. *)
Definition ticking_clock (n : nat) : Z := if (n <? 4)%nat then 1000%Z else 1001%Z.

(** ** Relations between the state before and the state after *)

(** A relation that every elementary step of the store respects: reading the
    clock, writing the maps, stamping [modifiedAt], replacing the child array
    of a folder, constructing an entry. *)
Class Frame (R : State → State → Prop) : Prop := {
  frame_preorder :: PreOrder R;
  frame_tick s : R s (with_ticks S s);
  frame_parents s f : R s (with_parents f s);
  frame_objects s f : R s (with_objects f s);
  frame_stamp s a t : R s (with_heap (alter (set_modifiedAt t) a) s);
  frame_entries s p e es es' :
    heap s !! p = Some e → body e = Folder es →
    R s (with_heap (alter (set_body (Folder es')) p) s);
  frame_new s nm b : R s (state_of (new_Entry nm b s));
}.

(** Respected by the assignment to [#name]. *)
Definition frames_name (R : State → State → Prop) : Prop :=
  ∀ s a n, R s (with_heap (alter (set_name n) a) s).

(** Respected by the assignment to [#content] of a file. *)
Definition frames_content (R : State → State → Prop) : Prop :=
  ∀ s a e c c', heap s !! a = Some e → body e = File c →
    R s (with_heap (alter (set_body (File c')) a) s).

(** ** The skeleton of a store

    The tree invariants speak about ids, child arrays and the two maps only.
    The skeleton of a state forgets names, contents, timestamps and the
    clock. *)

Record Cell := mkCell {
  cid : string;
  ckids : option (list addr);          (* [None] for a file *)
}.

Definition cell_of (e : Entry) : Cell :=
  mkCell (id e) (match body e with File _ => None | Folder es => Some es end).

Record Sk := mkSk {
  sk_next : nat;
  sk_cells : list Cell;
  sk_objects : gmap string addr;
  sk_parents : gmap string (option addr);
}.

Definition skel (s : State) : Sk :=
  mkSk (nextId s) (cell_of <$> heap s) (objects s) (parents s).

Definition sk_id (k : Sk) (a : addr) : option string := cid <$> sk_cells k !! a.

Definition sk_kids (k : Sk) (a : addr) : option (list addr) :=
  sk_cells k !! a ≫= ckids.

Definition sk_parentOf (k : Sk) (a : addr) : option addr :=
  sk_id k a ≫= λ i, mjoin (sk_parents k !! i).

(** The effect of the store's steps on the skeleton. *)

Definition set_kids (es : list addr) (c : Cell) : Cell := mkCell (cid c) (Some es).

Definition sk_set_kids (p : addr) (es : list addr) (k : Sk) : Sk :=
  mkSk (sk_next k) (alter (set_kids es) p (sk_cells k)) (sk_objects k) (sk_parents k).

(** [Folder.add] *)
Definition sk_add (p c : addr) (k : Sk) : Sk :=
  match sk_kids k p with
  | Some es => sk_set_kids p (es ++ [c]) k
  | None => k
  end.

(** [Folder.remove] *)
Definition sk_remove (p c : addr) (k : Sk) : Sk :=
  match sk_kids k p with
  | Some es => sk_set_kids p (filter (λ x, sk_id k x ≠ sk_id k c) es) k
  | None => k
  end.

(** The two [Map.set] of [#register] and the two [Map.delete] of
    [#unregister]. *)
Definition sk_bind (i : string) (a : addr) (p : option addr) (k : Sk) : Sk :=
  mkSk (sk_next k) (sk_cells k) (<[i := a]> (sk_objects k)) (<[i := p]> (sk_parents k)).

Definition sk_unbind (i : string) (k : Sk) : Sk :=
  mkSk (sk_next k) (sk_cells k) (delete i (sk_objects k)) (delete i (sk_parents k)).

(** Construction of an entry. *)
Definition sk_alloc (dir : bool) (k : Sk) : Sk :=
  mkSk (S (sk_next k))
       (sk_cells k ++ [mkCell (pretty (sk_next k)) (if dir then Some [] else None)])
       (sk_objects k) (sk_parents k).

(** A successful create: construct, then [#register] under [p]. *)
Definition sk_create (dir : bool) (p : addr) (k : Sk) : Sk :=
  sk_add p (length (sk_cells k))
    (sk_bind (pretty (sk_next k)) (length (sk_cells k)) (Some p) (sk_alloc dir k)).

(** A successful move of [f], whose id is [i], from [q] to [p]. *)
Definition sk_move (f : addr) (i : string) (q p : addr) (k : Sk) : Sk :=
  sk_add p f (sk_bind i f (Some p) (sk_remove q f k)).

(** A successful [#unregister] of [f], whose id is [i] and parent [q]. *)
Definition sk_unregister (f : addr) (i : string) (q : addr) (k : Sk) : Sk :=
  sk_remove q f (sk_unbind i k).

(** ** The tree invariant *)

Record wf (k : Sk) : Prop := {
  (* entries have distinct ids *)
  wf_ids : ∀ a b i, sk_id k a = Some i → sk_id k b = Some i → a = b;
  (* no entry has an id the counter will issue *)
  wf_fresh : ∀ a (n : nat), (sk_next k ≤ n)%nat → sk_id k a ≠ Some (pretty n);
  (* [#objects] maps an id to an entry with that id *)
  wf_obj : ∀ i a, sk_objects k !! i = Some a → sk_id k a = Some i;
  (* an entry with a parent is registered and is one of the parent's children *)
  wf_par : ∀ i q, sk_parents k !! i = Some (Some q) →
           ∃ a es, sk_objects k !! i = Some a ∧ sk_kids k q = Some es ∧ a ∈ es;
  (* the children of a folder have that folder as parent *)
  wf_kids : ∀ q es c, sk_kids k q = Some es → c ∈ es →
            ∃ i, sk_id k c = Some i ∧ sk_parents k !! i = Some (Some q);
  (* a child is listed once *)
  wf_nodup : ∀ q es, sk_kids k q = Some es → NoDup es;
  (* no entry is its own ancestor *)
  wf_acyc : ∀ a, ¬ up (sk_parentOf k) a a;
}.

(** ** Reachable states *)

(** A root id is admissible when the counter will not issue it later. *)
Definition root_id_ok (n0 : nat) (rootFolderId : option string) : Prop :=
  match rootFolderId with
  | Some r => if truthy_string r then ∀ n : nat, (n0 < n)%nat → r ≠ pretty n else True
  | None => True
  end.

(** A move of a folder is admissible when the target is not the folder itself
    or one of its descendants. *)
Definition no_cycle (s : State) (op : Op) : Prop :=
  match op with
  | UpdateFolder i _ (Some pid) =>
      if truthy_string pid then
        ∀ f p, objects s !! i = Some f → objects s !! pid = Some p →
               p ≠ f ∧ ¬ ancestor s f p
      else True
  | _ => True
  end.

Definition any_op (s : State) (op : Op) : Prop := True.

Inductive reachable (allowed : State → Op → Prop) : State → Prop :=
  | reach_new clk n0 rootFolderId :
      root_id_ok n0 rootFolderId →
      reachable allowed (new_ObjectStore clk n0 rootFolderId)
  | reach_exec s op :
      reachable allowed s → allowed s op → reachable allowed (exec op s).

(** Child arrays after [f] left [q], and after [f] joined [p]. *)
Definition detach (f q a : addr) (es : list addr) : list addr :=
  if decide (a = q) then filter (λ x, x ≠ f) es else es.

Definition attach (f p a : addr) (es : list addr) : list addr :=
  if decide (a = p) then es ++ [f] else es.

(** The invariant, on states. *)
Definition wfs (s : State) : Prop := wf (skel s).

(** The child array of a folder. *)
Definition children (s : State) (a : addr) : option (list addr) :=
  heap s !! a ≫= λ e, match body e with Folder es => Some es | File _ => None end.

(** A computation that keeps the property [I] of states, whether it returns
    or throws. *)
Definition invariant {A} (I : State → Prop) (m : M A) : Prop :=
  ∀ s, I s → I (state_of (m s)).

(** The id of the root folder. *)
Definition root_id (n0 : nat) (rootFolderId : option string) : string :=
  match rootFolderId with
  | Some r => if truthy_string r then r else pretty n0
  | None => pretty n0
  end.

(** Every step of [ops], run from [s], is allowed. *)
Fixpoint allowed_all (allowed : State → Op → Prop) (ops : list Op) (s : State) : Prop :=
  match ops with
  | [] => True
  | op :: ops' => allowed s op ∧ allowed_all allowed ops' (exec op s)
  end.

(** ** Identifiers *)

(** [grows s s']: the entries of [s] keep their ids in [s'], and the entries
    constructed since have the ids the counter issued, in order. *)
Definition grows (s s' : State) : Prop :=
  (nextId s ≤ nextId s')%nat ∧
  id <$> heap s' = (id <$> heap s) ++ (pretty <$> seq (nextId s) (nextId s' - nextId s)).

(** The ids in the heap: the root's, then those issued since construction. *)
Definition ids_inv (s : State) : Prop :=
  ∃ (r : string) (n0 : nat),
    (n0 < nextId s)%nat ∧ (∀ n : nat, (n0 < n)%nat → r ≠ pretty n) ∧
    id <$> heap s = r :: (pretty <$> seq (S n0) (nextId s - S n0)).

(** The two operations that move an entry. *)
Inductive MoveCall :=
  | MoveFile (i : string) (nm : option string) (c : Content) (parentId : string)
  | MoveFolder (i : string) (nm : option string) (parentId : string).

Definition move_call (m : MoveCall) : M JRecord :=
  match m with
  | MoveFile i nm c pid => updateFile i nm c (Some pid)
  | MoveFolder i nm pid => updateFolder i nm (Some pid)
  end.

Definition moved_id (m : MoveCall) : string :=
  match m with MoveFile i _ _ _ => i | MoveFolder i _ _ => i end.

Definition target_id (m : MoveCall) : string :=
  match m with MoveFile _ _ _ pid => pid | MoveFolder _ _ pid => pid end.

(** ** Deleting a folder *)

(** [below s x a]: [x] is [a] or one of its descendants. *)
Definition below (s : State) (x a : addr) : Prop := x = a ∨ ancestor s a x.

(** [shrinks s s']: the same entries with the same ids; the two maps lost
    keys at most. *)
Record shrinks (s s' : State) : Prop := {
  sh_length : length (heap s') = length (heap s);
  sh_ids : ∀ x, id_of s' x = id_of s x;
  sh_objects : objects s' ⊆ objects s;
  sh_parents : parents s' ⊆ parents s;
}.

(** What the deletion of the subtree of [a] leaves: the registered entries
    outside the subtree stay registered under the same parent, those inside
    are no longer registered. *)
Definition keeps_outside (s s' : State) (a : addr) : Prop :=
  ∀ j x, objects s !! j = Some x → ¬ below s x a →
    objects s' !! j = Some x ∧ parents s' !! j = parents s !! j.

Definition removes_inside (s s' : State) (a : addr) : Prop :=
  ∀ j x, objects s !! j = Some x → below s x a → objects s' !! j = None.

Record deleted (s : State) (a : addr) (s' : State) : Prop := {
  del_wfs : wfs s';
  del_shrinks : shrinks s s';
  del_outside : keeps_outside s s' a;
  del_inside : removes_inside s s' a;
}.

(** The body of the loop of [deleteFolder]. *)
Definition delete_entry (fuel : nat) (entry : addr) : M unit :=
  let* ee := deref entry in
  match type ee with
  | TFolder => deleteFolder fuel (id ee)
  | TFile => deleteFile (id ee)
  end.

(** [deleteFolder] with [fuel] levels of call stack deletes the subtree of any
    folder that lies so deep that the heap cannot hold a longer path: [path]
    lists ancestors of the folder. *)
Definition deletes_at (fuel : nat) : Prop :=
  ∀ s i a path,
    wfs s → objects s !! i = Some a → is_Some (children s a) →
    NoDup (a :: path) → (∀ y, y ∈ path → ancestor s y a) →
    length (heap s) < fuel + length (a :: path) →
    deleted s a (state_of (deleteFolder fuel i s)) ∧
    (is_Some (parentOf s a) → is_ok (deleteFolder fuel i s) = true).

(** The state after the loop of [deleteFolder] over the children [rest]. *)
Record deleted_all (s : State) (rest : list addr) (s' : State) : Prop := {
  dall_wfs : wfs s';
  dall_shrinks : shrinks s s';
  dall_outside : ∀ j x, objects s !! j = Some x → (∀ c, c ∈ rest → ¬ below s x c) →
                 objects s' !! j = Some x ∧ parents s' !! j = parents s !! j;
  dall_inside : ∀ j x c, c ∈ rest → objects s !! j = Some x → below s x c →
                objects s' !! j = None;
}.

(** ** Copies

    [copyFile] and [copyFolder] are called by the tests and described in the
    README, and object-store.js as given here does not define them.  They
    are modelled here from their description, with the constructors and
    [#register] of the source. *)

(** Modelled from the spec: the target parent of [copyFile] and [copyFolder],
    which are missing from object-store.js.  An omitted [parentId] stands for
    the source's current parent; the target must exist and be a folder. *)
Definition copy_target (src : addr) (parentId : option string) : M addr :=
  let* parent := match parentId with
                 | Some pid => gets (λ s, objects s !! pid)
                 | None => let* e := deref src in getParent (id e)
                 end in
  match parent with
  | None => throw (TypeError "Parent not found.")
  | Some p =>
      let* ep := deref p in
      match type ep with
      | TFile => throw (TypeError "Parent is not a folder.")
      | TFolder => ret p
      end
  end.

(** Modelled from the spec: the copy of one entry under the folder [p], the
    recursion of [copyFolder], missing from object-store.js.  A file is
    constructed anew with the same content and registered under [p]; a folder
    is constructed and registered first, then its children are copied into
    it in their order, each under its own name.  [fuel] bounds the depth of
    the recursion as it does in [deleteFolder]. *)
Fixpoint copy_entry (fuel : nat) (src : addr) (nm : string) (p : addr) : M addr :=
  match fuel with
  | 0 => throw (RangeError "Maximum call stack size exceeded")
  | S fuel' =>
      let* e := deref src in
      match body e with
      | File c =>
          let* copy := new_File nm c None in
          register copy (Some p) ;;;
          ret copy
      | Folder es =>
          let* copy := new_Folder nm None in
          register copy (Some p) ;;;
          forM_ es (λ child,
            let* ec := deref child in
            let* _ := copy_entry fuel' child (name ec) copy in
            ret tt) ;;;
          ret copy
      end
  end.

(** Modelled from the spec: [copyFile(id, { parentId, name })], missing from
    object-store.js.  The source must exist and be a file; the new file has
    the source's content, and the source's name unless [name] is given. *)
Definition copyFile (i : string) (parentId nm : option string) : M JRecord :=
  let* file := gets (λ s, objects s !! i) in
  match file with
  | None => throw (TypeError (quoted "File " i " not found."))
  | Some f =>
      let* e := deref f in
      match type e with
      | TFolder => throw (TypeError "Not a file.")
      | TFile =>
          let* p := copy_target f parentId in
          let* copy := copy_entry 1 f (default (name e) nm) p in
          toJSON copy
      end
  end.

(** Modelled from the spec: [copyFolder(id, { parentId, name })], missing
    from object-store.js.  The source must exist and be a folder; the record
    returned is that of the new folder, with its one level of children. *)
Definition copyFolder (fuel : nat) (i : string) (parentId nm : option string) : M JRecord :=
  let* folder := gets (λ s, objects s !! i) in
  match folder with
  | None => throw (TypeError (quoted "Folder " i " not found."))
  | Some f =>
      let* e := deref f in
      match type e with
      | TFile => throw (TypeError "Not a folder.")
      | TFolder =>
          let* p := copy_target f parentId in
          let* copy := copy_entry fuel f (default (name e) nm) p in
          toJSON copy
      end
  end.

(** ** Statements about copies *)














(** An entry constructed since the state [s]: the counter issued its id
    since, and its two dates are readings of the clock taken since. *)
Definition made_since (s : State) (e : Entry) : Prop :=
  (∃ n : nat, (nextId s ≤ n)%nat ∧ id e = pretty n) ∧
  (∃ k : nat, (ticks s ≤ k)%nat ∧ createdAt e = clock s k) ∧
  (∃ k : nat, (ticks s ≤ k)%nat ∧ modifiedAt e = clock s k).

(** [extends s p s']: what a copy under the folder [p] does to the store.
    The entries of [s] other than [p] are as they were, [p] is stamped, the
    entries constructed since are new in every respect, and the two maps
    keep the keys they had. *)
Record extends (s : State) (p : addr) (s' : State) : Prop := {
  ext_wfs : wfs s';
  ext_len : (length (heap s) ≤ length (heap s'))%nat;
  ext_next : (nextId s ≤ nextId s')%nat;
  ext_ticks : (ticks s ≤ ticks s')%nat;
  ext_clock : clock s' = clock s;
  ext_old : ∀ x e, x ≠ p → heap s !! x = Some e → heap s' !! x = Some e;
  ext_target : ∀ e, heap s !! p = Some e →
    ∃ e', heap s' !! p = Some e' ∧ id e' = id e ∧ name e' = name e ∧
          createdAt e' = createdAt e ∧ type e' = type e ∧
          (modifiedAt e' = modifiedAt e ∨
           ∃ k : nat, (ticks s ≤ k)%nat ∧ modifiedAt e' = clock s k);
  ext_new : ∀ x e, (length (heap s) ≤ x)%nat → heap s' !! x = Some e → made_since s e;
  ext_objects : ∀ i, (∀ n : nat, (nextId s ≤ n)%nat → i ≠ pretty n) →
                objects s' !! i = objects s !! i;
  ext_parents : ∀ i, (∀ n : nat, (nextId s ≤ n)%nat → i ≠ pretty n) →
                parents s' !! i = parents s !! i;
}.

(** The state after an entry is constructed and registered under [p]. *)
Definition created (nm : string) (b : Body) (p : addr) (es : list addr) (s : State) : State :=
  let l := length (heap s) in
  let t := clock s (S (S (ticks s))) in
  let e := mkEntry (pretty (nextId s)) nm (clock s (ticks s)) (clock s (S (ticks s))) b in
  mkState (S (nextId s)) (clock s) (S (S (S (ticks s))))
    (alter (set_modifiedAt t) l
       (alter (set_modifiedAt t) p
          (alter (set_body (Folder (es ++ [l]))) p (heap s ++ [e]))))
    (root s)
    (<[pretty (nextId s) := l]> (objects s))
    (<[pretty (nextId s) := Some p]> (parents s)).




(** The [parent_id] of the record of [e]. *)
Definition parent_field (s : State) (e : Entry) : JValue :=
  match lookup_parent s (id e) ≫= λ q, heap s !! q with
  | Some eq => JString (id eq)
  | None => JUndefined
  end.

(** The record [r] shows the entry [e]. *)
Definition shows (s : State) (e : Entry) (r : JRecord) : Prop :=
  jget "id" r = Some (JString (id e)) ∧
  jget "name" r = Some (JString (name e)) ∧
  jget "type" r = Some (JString (type_string (type e))) ∧
  jget "parent_id" r = Some (parent_field s e) ∧
  jget "created_at" r = Some (JDate (createdAt e)) ∧
  jget "modified_at" r = Some (JDate (modifiedAt e)) ∧
  ∀ c, body e = File c → jget "size" r = Some (JNumber (Z.of_nat (File_size c))).


(** ** The root

    The constructor registers the root folder under no parent; every other
    entry is registered under a folder.  The two maps have the same keys. *)

(** The field [#root] is assigned once, by the constructor. *)
Definition root_same (s s' : State) : Prop := root s' = root s.

Definition sk_rooted (r : addr) (k : Sk) : Prop :=
  dom (sk_parents k) = dom (sk_objects k) ∧
  ∃ rid, sk_id k r = Some rid ∧ mjoin (sk_parents k !! rid) = None ∧
    ∀ i a, sk_objects k !! i = Some a → i ≠ rid → ∃ q, sk_parents k !! i = Some (Some q).

Definition rooted (s : State) : Prop := sk_rooted (root s) (skel s).

(** The tree invariant together with the place of the root. *)
Definition tree (s : State) : Prop := wfs s ∧ rooted s.

(** The parent of a registered entry is registered itself. *)
Definition sk_linked (k : Sk) : Prop :=
  ∀ i q, sk_parents k !! i = Some (Some q) →
    ∃ j, sk_id k q = Some j ∧ sk_objects k !! j = Some q.

Definition linked (s : State) : Prop := sk_linked (skel s).

(** No entry is registered under [f]. *)
Definition childless (s : State) (f : addr) : Prop :=
  ∀ j, parents s !! j ≠ Some (Some f).

(** A computation that only takes entries out of the two maps. *)
Definition shrinking {A} (m : M A) : Prop :=
  ∀ s, wfs s → shrinks s (state_of (m s)).

(** What [move_to] has checked when it moves [f], whose id is [j], from [q]
    to [p]. *)
Definition sk_movable (k : Sk) (f : addr) (j : string) (q p : addr) : Prop :=
  sk_id k f = Some j ∧ sk_objects k !! j = Some f ∧
  sk_parents k !! j = Some (Some q) ∧
  ∃ jp, sk_id k p = Some jp ∧ sk_objects k !! jp = Some p ∧ is_Some (sk_kids k p).

(** What holds of every store reached by admissible operations. *)
Record sound (s : State) : Prop := {
  snd_wfs : wfs s;
  snd_rooted : rooted s;
  snd_linked : linked s;
  snd_root : is_Some (children s (root s));
}.

(** ** Calls that create an entry *)

Inductive CreateCall :=
  | NewFile (nm : string) (parentId : option string) (c : Content)
  | NewFolder (nm : string) (parentId : option string).

Definition create_call (call : CreateCall) : M JRecord :=
  match call with
  | NewFile nm parentId c => createFile nm parentId c
  | NewFolder nm parentId => createFolder nm parentId
  end.

Definition create_name (call : CreateCall) : string :=
  match call with NewFile nm _ _ => nm | NewFolder nm _ => nm end.

Definition create_parentId (call : CreateCall) : option string :=
  match call with NewFile _ p _ => p | NewFolder _ p => p end.

Definition create_body (call : CreateCall) : Body :=
  match call with NewFile _ _ c => File c | NewFolder _ _ => Folder [] end.

(** A rename and nothing else: [updateFile(i, { name })] on a file,
    [updateFolder(i, { name })] on a folder. *)
Definition rename_call (t : EntryType) (i nm : string) : M JRecord :=
  match t with
  | TFile => updateFile i (Some nm) CUndefined None
  | TFolder => updateFolder i (Some nm) None
  end.

(** The operations that assign a name, and the one that assigns content. *)
Definition renames (op : Op) : bool :=
  match op with
  | UpdateFile _ nm _ _ => truthy_opt nm
  | UpdateFolder _ nm _ => truthy_opt nm
  | _ => false
  end.

Definition writes (op : Op) : bool :=
  match op with
  | UpdateFile _ _ c _ => truthy_content c
  | _ => false
  end.
(** * Properties *)

(** ** Computations that only read *)


Lemma reads_ret {A} (a : A) : reads (ret a).
Proof. by intros s. Qed.

Lemma reads_throw {A} (e : Error) : reads (@throw A e).
Proof. by intros s. Qed.

Lemma reads_gets {A} (f : State → A) : reads (gets f).
Proof. by intros s. Qed.

Lemma reads_deref a : reads (deref a).
Proof. intros s. unfold deref. by destruct (heap s !! a). Qed.

Lemma reads_bind {A B} (m : M A) (k : A → M B) :
  reads m → (∀ a, reads (k a)) → reads (bind m k).
Proof.
  intros Hm Hk s. unfold bind. specialize (Hm s).
  destruct (m s) as [a s1|e s1]; simpl in *; subst; [apply Hk | done].
Qed.

Lemma reads_mapM {A B} (f : A → M B) l : (∀ a, reads (f a)) → reads (mapM f l).
Proof.
  intros Hf. induction l as [|x l IH]; simpl.
  - apply reads_ret.
  - apply reads_bind; [done|]. intros y.
    apply reads_bind; [done|]. intros ys. apply reads_ret.
Qed.

Lemma reads_Ok {A} (m : M A) s a s' : reads m → m s = Ok a s' → s' = s.
Proof. intros Hm H. specialize (Hm s). by rewrite H in Hm. Qed.

Lemma reads_Throw {A} (m : M A) s e s' : reads m → m s = Throw e s' → s' = s.
Proof. intros Hm H. specialize (Hm s). by rewrite H in Hm. Qed.

Ltac reads_tac :=
  repeat first
    [ apply reads_ret | apply reads_throw | apply reads_gets | apply reads_deref
    | apply reads_bind; [|intros ?]
    | apply reads_mapM; intros ?
    | match goal with
      | |- reads (match ?x with _ => _ end) => destruct x
      end ].

Lemma reads_getParent i : reads (getParent i).
Proof. apply reads_gets. Qed.

Lemma reads_Entry_toMiniJSON a : reads (Entry_toMiniJSON a).
Proof. unfold Entry_toMiniJSON, getParent. reads_tac. Qed.

Lemma reads_File_toMiniJSON a : reads (File_toMiniJSON a).
Proof.
  unfold File_toMiniJSON. apply reads_bind; [apply reads_Entry_toMiniJSON|].
  intros o. reads_tac.
Qed.

Lemma reads_toMiniJSON a : reads (toMiniJSON a).
Proof.
  unfold toMiniJSON. apply reads_bind; [apply reads_deref|]. intros e.
  destruct (body e); [apply reads_File_toMiniJSON | apply reads_Entry_toMiniJSON].
Qed.

Lemma reads_Folder_entries a : reads (Folder_entries a).
Proof. unfold Folder_entries. reads_tac. Qed.

Lemma reads_Folder_toJSON a : reads (Folder_toJSON a).
Proof.
  unfold Folder_toJSON, Entry_toJSON.
  apply reads_bind; [apply reads_toMiniJSON|]. intros o.
  apply reads_bind; [apply reads_Folder_entries|]. intros es.
  apply reads_bind; [|intros; apply reads_ret].
  apply reads_mapM, reads_toMiniJSON.
Qed.

Lemma reads_toJSON a : reads (toJSON a).
Proof.
  unfold toJSON. apply reads_bind; [apply reads_deref|]. intros e.
  destruct (body e); [apply reads_toMiniJSON | apply reads_Folder_toJSON].
Qed.

Lemma reads_getFile i : reads (getFile i).
Proof.
  unfold getFile. apply reads_bind; [apply reads_gets|]. intros [f|]; [|apply reads_throw].
  apply reads_bind; [apply reads_deref|]. intros e.
  destruct (type e); [apply reads_toJSON | apply reads_throw].
Qed.

Lemma reads_getFolder i : reads (getFolder i).
Proof.
  unfold getFolder. apply reads_bind; [apply reads_gets|]. intros [f|]; [|apply reads_throw].
  apply reads_bind; [apply reads_deref|]. intros e.
  destruct (type e); [apply reads_throw | apply reads_toJSON].
Qed.

Lemma reads_getFileContent i : reads (getFileContent i).
Proof. unfold getFileContent. reads_tac. Qed.

(** Inversion of a successful [bind]. *)
Lemma bind_Ok {A B} (m : M A) (k : A → M B) s b s' :
  bind m k s = Ok b s' → ∃ a s1, m s = Ok a s1 ∧ k a s1 = Ok b s'.
Proof. unfold bind. destruct (m s) as [a s1|]; [eauto | done]. Qed.

Lemma bind_reads_Ok {A B} (m : M A) (k : A → M B) s b s' :
  reads m → bind m k s = Ok b s' → ∃ a, m s = Ok a s ∧ k a s = Ok b s'.
Proof.
  intros Hm H. apply bind_Ok in H as (a & s1 & H1 & H2).
  pose proof (reads_Ok _ _ _ _ Hm H1) as ->. eauto.
Qed.

Lemma deref_Ok a s e s' : deref a s = Ok e s' → heap s !! a = Some e ∧ s' = s.
Proof. unfold deref. destruct (heap s !! a); naive_solver. Qed.

(** ** Records *)

Lemma jget_jset_eq k v o : jget k (jset k v o) = Some v.
Proof.
  induction o as [|[k' v'] o IH]; simpl.
  - by rewrite decide_True.
  - destruct (decide (k' = k)) as [->|Hne]; simpl.
    + by rewrite decide_True.
    + by rewrite decide_False.
Qed.

Lemma jget_jset_ne k k' v o : k ≠ k' → jget k' (jset k v o) = jget k' o.
Proof.
  intros Hne. induction o as [|[k1 v1] o IH]; simpl.
  - by rewrite decide_False.
  - destruct (decide (k1 = k)) as [->|Hne1]; simpl.
    + by rewrite !decide_False.
    + destruct (decide (k1 = k')); [done | apply IH].
Qed.








(** ** Relations that every step of the store respects *)

Lemma preserves_bind {A B} R `{!PreOrder R} (m : M A) (k : A → M B) :
  preserves R m → (∀ a, preserves R (k a)) → preserves R (bind m k).
Proof.
  intros Hm Hk s. unfold bind. specialize (Hm s).
  destruct (m s) as [a s1|e s1]; simpl in *; [|done].
  etrans; [exact Hm | apply Hk].
Qed.

Lemma preserves_reads {A} R `{!Reflexive R} (m : M A) : reads m → preserves R m.
Proof. intros Hm s. by rewrite Hm. Qed.


Section frame_methods.
Context (R : State → State → Prop) `{!Frame R}.

Local Abbreviation keeps := (preserves R).

Lemma frame_trans s1 s2 s3 : R s1 s2 → R s2 s3 → R s1 s3.
Proof. apply transitivity. Qed.

Lemma keeps_reads {A} (m : M A) : reads m → keeps m.
Proof. apply preserves_reads, _. Qed.

Lemma keeps_bind {A B} (m : M A) (k : A → M B) :
keeps m → (∀ a, keeps (k a)) → keeps (bind m k).
Proof. apply preserves_bind, _. Qed.

Lemma keeps_forM_ {A} (l : list A) (f : A → M unit) :
(∀ a, keeps (f a)) → keeps (forM_ l f).
Proof.
intros Hf. induction l as [|x l IH]; simpl.
- apply keeps_reads, reads_ret.
- apply keeps_bind; [apply Hf | intros _; apply IH].
Qed.

Lemma keeps_new_Date : keeps new_Date.
Proof. intros s. apply frame_tick. Qed.

Lemma keeps_stamp_one a t : keeps (update a (set_modifiedAt t)).
Proof. intros s. apply frame_stamp. Qed.

Lemma keeps_stamp p entry :
keeps (let* t := new_Date in
       update p (set_modifiedAt t) ;;; update entry (set_modifiedAt t)).
Proof.
apply keeps_bind; [apply keeps_new_Date|]. intros t.
apply keeps_bind; [|intros _]; apply keeps_stamp_one.
Qed.

Lemma keeps_Folder_add p entry : keeps (Folder_add p entry).
Proof.
intros s. unfold Folder_add, Folder_entries, bind at 1 2, deref.
destruct (heap s !! p) as [e|] eqn:He; simpl; [|reflexivity].
destruct (body e) as [c|es] eqn:Hb; simpl; [reflexivity|].
eapply frame_trans; [eapply frame_entries; eauto|].
exact (keeps_stamp p entry _).
Qed.

Lemma keeps_Folder_remove p entry : keeps (Folder_remove p entry).
Proof.
intros s. unfold Folder_remove, Folder_entries, bind at 1 2, deref.
destruct (heap s !! p) as [e|] eqn:He; simpl; [|reflexivity].
destruct (body e) as [c|es] eqn:Hb; simpl; [reflexivity|].
eapply frame_trans; [eapply frame_entries; eauto|].
exact (keeps_stamp p entry _).
Qed.

Lemma keeps_register entry parent : keeps (register entry parent).
Proof.
unfold register.
apply keeps_bind; [apply keeps_reads, reads_deref|]. intros e.
apply keeps_bind; [intros s; apply frame_parents|]. intros _.
apply keeps_bind; [intros s; apply frame_objects|]. intros _.
destruct parent; [apply keeps_Folder_add | apply keeps_reads, reads_ret].
Qed.

Lemma keeps_unregister entry : keeps (unregister entry).
Proof.
unfold unregister.
apply keeps_bind; [apply keeps_reads, reads_deref|]. intros e.
apply keeps_bind; [apply keeps_reads, reads_gets|]. intros parent.
apply keeps_bind; [intros s; apply frame_parents|]. intros _.
apply keeps_bind; [intros s; apply frame_objects|]. intros _.
destruct parent; [apply keeps_Folder_remove | apply keeps_reads, reads_throw].
Qed.

Lemma keeps_new_Entry nm b : keeps (new_Entry nm b).
Proof. intros s. apply frame_new. Qed.

Lemma keeps_new_File nm c : keeps (new_File nm c None).
Proof.
unfold new_File. apply keeps_bind; [apply keeps_new_Entry|]. intros a.
apply keeps_bind; intros; apply keeps_reads, reads_ret.
Qed.

Lemma keeps_new_Folder nm : keeps (new_Folder nm None).
Proof.
unfold new_Folder. apply keeps_bind; [apply keeps_new_Entry|]. intros a.
apply keeps_bind; intros; apply keeps_reads, reads_ret.
Qed.

Lemma keeps_move_to entry parentId : keeps (move_to entry parentId).
Proof.
unfold move_to. destruct parentId as [pid|]; [|apply keeps_reads, reads_ret].
destruct (truthy_string pid); [|apply keeps_reads, reads_ret].
apply keeps_bind; [apply keeps_reads, reads_gets|].
intros [p|]; [|apply keeps_reads, reads_throw].
apply keeps_bind; [apply keeps_reads, reads_deref|]. intros ep.
destruct (type ep); [apply keeps_reads, reads_throw|].
apply keeps_bind; [apply keeps_reads, reads_deref|]. intros e.
apply keeps_bind; [apply keeps_reads, reads_gets|].
intros [q|]; [|apply keeps_reads, reads_throw].
apply keeps_bind; [apply keeps_Folder_remove | intros _; apply keeps_register].
Qed.

Lemma keeps_Entry_set_name a n : frames_name R → keeps (Entry_set_name a n).
Proof.
intros Hn. unfold Entry_set_name.
apply keeps_bind; [intros s; apply Hn|]. intros _.
apply keeps_bind; [apply keeps_new_Date|]. intros t. apply keeps_stamp_one.
Qed.

Lemma keeps_rename_to a nm : frames_name R → keeps (rename_to a nm).
Proof.
intros Hn. unfold rename_to. destruct nm as [n|]; [|apply keeps_reads, reads_ret].
destruct (truthy_string n);
  [by apply keeps_Entry_set_name | apply keeps_reads, reads_ret].
Qed.

(** [set content] after the assignment to [#content]. *)
Lemma keeps_touch_parent a :
keeps (let* t := new_Date in
       update a (set_modifiedAt t) ;;;
       let* e := deref a in
       let* p := getParent (id e) in
       match p with
       | Some q => update q (set_modifiedAt (modifiedAt e))
       | None => throw (TypeError
           "Cannot set properties of undefined (setting 'modifiedAt')")
       end).
Proof.
apply keeps_bind; [apply keeps_new_Date|]. intros t.
apply keeps_bind; [apply keeps_stamp_one|]. intros _.
apply keeps_bind; [apply keeps_reads, reads_deref|]. intros e1.
apply keeps_bind; [apply keeps_reads, reads_gets|]. intros [q|].
- apply keeps_stamp_one.
- apply keeps_reads, reads_throw.
Qed.

Lemma keeps_File_set_content a value s e c :
frames_content R → heap s !! a = Some e → body e = File c →
R s (state_of (File_set_content a value s)).
Proof.
intros Hc He Hb.
apply (frame_trans _ (with_heap (alter (set_body (File value)) a) s)).
{ by eapply Hc. }
exact (keeps_touch_parent a _).
Qed.

Lemma keeps_deleteFile i : keeps (deleteFile i).
Proof.
unfold deleteFile.
apply keeps_bind; [apply keeps_reads, reads_gets|].
intros [f|]; [|apply keeps_reads, reads_throw].
apply keeps_bind; [apply keeps_reads, reads_deref|]. intros e.
destruct (type e); [apply keeps_unregister | apply keeps_reads, reads_throw].
Qed.

Lemma keeps_deleteFolder fuel i : keeps (deleteFolder fuel i).
Proof.
revert i. induction fuel as [|fuel IH]; intros i; simpl.
{ apply keeps_reads, reads_throw. }
apply keeps_bind; [apply keeps_reads, reads_gets|].
intros [f|]; [|apply keeps_reads, reads_throw].
apply keeps_bind; [apply keeps_reads, reads_deref|]. intros e.
destruct (body e) as [c|es]; [apply keeps_reads, reads_throw|].
apply keeps_bind; [|intros _; apply keeps_unregister].
apply keeps_forM_. intros entry.
apply keeps_bind; [apply keeps_reads, reads_deref|]. intros ee.
destruct (type ee); [apply keeps_deleteFile | apply IH].
Qed.

Lemma keeps_createFile nm parentId c : keeps (createFile nm parentId c).
Proof.
unfold createFile, default_parent.
apply keeps_bind.
{ apply keeps_reads. destruct parentId; reads_tac. }
intros pid.
apply keeps_bind; [apply keeps_reads, reads_gets|].
intros [p|]; [|apply keeps_reads, reads_throw].
apply keeps_bind; [apply keeps_reads, reads_deref|]. intros ep.
destruct (type ep); [apply keeps_reads, reads_throw|].
apply keeps_bind; [apply keeps_new_File|]. intros f.
apply keeps_bind; [apply keeps_register|]. intros _.
apply keeps_reads, reads_toJSON.
Qed.

Lemma keeps_createFolder nm parentId : keeps (createFolder nm parentId).
Proof.
unfold createFolder, default_parent.
apply keeps_bind.
{ apply keeps_reads. destruct parentId; reads_tac. }
intros pid.
apply keeps_bind; [apply keeps_reads, reads_gets|].
intros [p|]; [|apply keeps_reads, reads_throw].
apply keeps_bind; [apply keeps_reads, reads_deref|]. intros ep.
destruct (type ep); [apply keeps_reads, reads_throw|].
apply keeps_bind; [apply keeps_new_Folder|]. intros f.
apply keeps_bind; [apply keeps_register|]. intros _.
apply keeps_reads, reads_toJSON.
Qed.

Lemma keeps_updateFolder i nm parentId :
frames_name R → keeps (updateFolder i nm parentId).
Proof.
intros Hn. unfold updateFolder.
apply keeps_bind; [apply keeps_reads, reads_gets|].
intros [f|]; [|apply keeps_reads, reads_throw].
apply keeps_bind; [apply keeps_reads, reads_deref|]. intros e.
destruct (type e); [apply keeps_reads, reads_throw|].
apply keeps_bind; [by apply keeps_rename_to|]. intros _.
apply keeps_bind; [apply keeps_move_to|]. intros _.
apply keeps_reads, reads_toJSON.
Qed.
End frame_methods.

(** *** Fields that operations leave alone *)

Global Instance stable_preorder {X} (proj : Entry → X) : PreOrder (stable proj).
Proof.
  split.
  - intros s a e H. eauto.
  - intros s1 s2 s3 H12 H23 a e H.
    destruct (H12 a e H) as (e2 & H2 & E2).
    destruct (H23 a e2 H2) as (e3 & H3 & E3).
    exists e3. split; [done | congruence].
Qed.

Lemma stable_same_heap {X} (proj : Entry → X) s s' :
  heap s' = heap s → stable proj s s'.
Proof. intros E a e H. rewrite E. eauto. Qed.

Lemma stable_alter {X} (proj : Entry → X) s g a :
  (∀ e, heap s !! a = Some e → proj (g e) = proj e) →
  stable proj s (with_heap (alter g a) s).
Proof.
  intros Hg b e H. simpl. destruct (decide (a = b)) as [->|Hne].
  - exists (g e). rewrite list_lookup_alter_eq, H. split; [done | by apply Hg].
  - exists e. by rewrite list_lookup_alter_ne.
Qed.

Lemma stable_frame {X} (proj : Entry → X) :
  (∀ t e, proj (set_modifiedAt t e) = proj e) →
  (∀ es es' e, body e = Folder es → proj (set_body (Folder es') e) = proj e) →
  Frame (stable proj).
Proof.
  intros Hm He. split.
  - apply _.
  - intros s. by apply stable_same_heap.
  - intros s f. by apply stable_same_heap.
  - intros s f. by apply stable_same_heap.
  - intros s a t. apply stable_alter. auto.
  - intros s p e es es' Hp Hb. apply stable_alter.
    intros e0 He0. rewrite Hp in He0. injection He0 as <-. by eapply He.
  - intros s nm b a e H. exists e. split; [|done]. simpl.
    rewrite lookup_app_l; [done | by eapply lookup_lt_Some].
Qed.

Lemma stable_frames_name {X} (proj : Entry → X) :
  (∀ n e, proj (set_name n e) = proj e) → frames_name (stable proj).
Proof. intros Hn s a n. apply stable_alter. auto. Qed.

Lemma stable_frames_content {X} (proj : Entry → X) :
  (∀ c c' e, body e = File c → proj (set_body (File c') e) = proj e) →
  frames_content (stable proj).
Proof.
  intros Hc s a e c c' Ha Hb. apply stable_alter.
  intros e0 He0. rewrite Ha in He0. injection He0 as <-. by eapply Hc.
Qed.

Global Instance stable_type_frame : Frame (stable type).
Proof. apply stable_frame; unfold type; simpl; [done | by intros ??? ->]. Qed.

Global Instance stable_name_frame : Frame (stable name).
Proof. by apply stable_frame. Qed.

Global Instance stable_id_frame : Frame (stable id).
Proof. by apply stable_frame. Qed.

Global Instance stable_file_content_frame : Frame (stable file_content).
Proof. apply stable_frame; unfold file_content; simpl; [done | by intros ??? ->]. Qed.

Lemma stable_type_name : frames_name (stable type).
Proof. by apply stable_frames_name. Qed.

Lemma stable_type_content : frames_content (stable type).
Proof. apply stable_frames_content. unfold type; simpl. by intros ??? ->. Qed.

Section frame_updateFile.
Context (R : State → State → Prop) `{!Frame R}.

Lemma keeps_updateFile i nm c parentId :
frames_name R → frames_content R → preserves R (updateFile i nm c parentId).
Proof.
intros Hn Hc s. unfold updateFile, bind at 1, gets.
destruct (objects s !! i) as [f|]; [|reflexivity].
unfold bind at 1, deref.
destruct (heap s !! f) as [e|] eqn:He; [|reflexivity].
destruct (type e) eqn:Ht; [|reflexivity].
unfold bind at 1.
pose proof (keeps_rename_to R f nm Hn s) as H1.
destruct (keeps_rename_to (stable type) f nm stable_type_name s f e He)
  as (e1 & He1 & Ht1).
destruct (rename_to f nm s) as [[] s1|]; simpl in *; [|done].
etrans; [exact H1|].
unfold bind at 1.
assert (R s1 (state_of
  ((if truthy_content c then File_set_content f c else ret tt) s1))) as H2.
{ destruct (truthy_content c); [|reflexivity].
  unfold type in Ht1, Ht. destruct (body e1) as [c1|] eqn:Hb1.
  - by eapply keeps_File_set_content.
  - by destruct (body e). }
destruct ((if truthy_content c then File_set_content f c else ret tt) s1)
  as [[] s2|]; simpl in *; [|done].
etrans; [exact H2|].
apply (keeps_bind R); [by apply keeps_move_to|]. intros _.
apply keeps_reads, reads_toJSON. apply _.
Qed.

Lemma keeps_exec op :
frames_name R → frames_content R → ∀ s, R s (exec op s).
Proof.
intros Hn Hc s. destruct op; simpl.
- by apply keeps_createFile.
- rewrite reads_getFile. reflexivity.
- rewrite reads_getFileContent. reflexivity.
- by apply keeps_updateFile.
- by apply keeps_deleteFile.
- by apply keeps_createFolder.
- rewrite reads_getFolder. reflexivity.
- by apply keeps_updateFolder.
- by apply keeps_deleteFolder.
Qed.
End frame_updateFile.

(** ** Records *)


Lemma File_size_claimed c : File_size c = claimed_size c.
Proof. by destruct c as [|[|u units]|bytes]. Qed.

Example size_hello :
  File_size (CText (units_of_string "Hello, world!")) = 13.
Proof. reflexivity. Qed.

Example size_non_ascii :
  (* U+00E9, U+20AC, the pair D83D DE00 (U+1F600), a lone surrogate *)
  File_size (CText [0xE9; 0x20AC; 0xD83D; 0xDE00; 0xD800]%N) = 12.
Proof. reflexivity. Qed.

Lemma toJSON_file_size f s e c r s' :
  heap s !! f = Some e → body e = File c → toJSON f s = Ok r s' →
  jget "size" r = Some (JNumber (Z.of_nat (claimed_size c))).
Proof.
  intros He Hb H. unfold toJSON in H.
  apply bind_Ok in H as (e1 & s1 & H1 & H).
  apply deref_Ok in H1 as [H1 ->]. rewrite He in H1. injection H1 as <-.
  rewrite Hb in H. unfold Entry_toJSON, toMiniJSON in H.
  apply bind_Ok in H as (e1 & s1 & H1 & H).
  apply deref_Ok in H1 as [H1 ->]. rewrite He in H1. injection H1 as <-.
  rewrite Hb in H. unfold File_toMiniJSON in H.
  apply bind_reads_Ok in H as (o & Ho & H); [|apply reads_Entry_toMiniJSON].
  apply bind_Ok in H as (e1 & s1 & H1 & H).
  apply deref_Ok in H1 as [H1 ->]. rewrite He in H1. injection H1 as <-.
  rewrite Hb in H. unfold ret in H. injection H as <- _.
  by rewrite jget_jset_eq, File_size_claimed.
Qed.

(** C8: the [size] of a file record returned by [getFile] is 0 when the file
    has no content, the length of the UTF-8 encoding of a text content, and
    the number of bytes of a binary content. *)
Theorem file_record_size s i r s' :
  getFile i s = Ok r s' →
  ∃ f e c, objects s !! i = Some f ∧ heap s !! f = Some e ∧ body e = File c ∧
    jget "size" r = Some (JNumber (Z.of_nat (claimed_size c))).
Proof.
  unfold getFile. intros H.
  apply bind_Ok in H as (file & s1 & H1 & H).
  unfold gets in H1. injection H1 as <- <-.
  destruct (objects s !! i) as [f|] eqn:Hf; [|done].
  apply bind_Ok in H as (e & s1 & H1 & H).
  apply deref_Ok in H1 as [He ->].
  unfold type in H. destruct (body e) as [c|] eqn:Hb; [|done].
  exists f, e, c. repeat split; try done.
  by eapply toJSON_file_size.
Qed.



Lemma file_record_size_witness :
  ∃ r s', getFile "2" demo_store = Ok r s' ∧
    jget "size" r = Some (JNumber 13).
Proof.
  destruct (getFile "2" demo_store) as [r s'|e s'] eqn:E;
    [|vm_compute in E; discriminate E].
  exists r, s'. split; [reflexivity|].
  destruct (file_record_size _ _ _ _ E) as (f & e & c & Hf & He & Hb & Hsz).
  vm_compute in Hf. injection Hf as <-.
  vm_compute in He. injection He as <-.
  vm_compute in Hb. injection Hb as <-.
  exact Hsz.
Defined.


(** ** Empty strings in [updateFile] *)

Lemma file_content_Some e c : file_content e = Some c ↔ body e = File c.
Proof. unfold file_content. destruct (body e); naive_solver. Qed.

Lemma rename_to_Ok a nm s : ∃ s', rename_to a nm s = Ok tt s'.
Proof.
  unfold rename_to. destruct nm as [n|]; [|by eexists].
  destruct (truthy_string n); by eexists.
Qed.

Lemma getFile_unfold i s f e :
  objects s !! i = Some f → heap s !! f = Some e → type e = TFile →
  getFile i s = toJSON f s.
Proof.
  intros Hf He Ht. unfold getFile. unfold bind at 1. unfold gets. rewrite Hf.
  unfold bind at 1. unfold deref at 1. rewrite He. by rewrite Ht.
Qed.

Lemma updateFile_unfold i nm c p s f e :
  objects s !! i = Some f → heap s !! f = Some e → type e = TFile →
  updateFile i nm c p s =
  (rename_to f nm ;;;
   (if truthy_content c then File_set_content f c else ret tt) ;;;
   move_to f p ;;; toJSON f) s.
Proof.
  intros Hf He Ht. unfold updateFile. unfold bind at 1. unfold gets. rewrite Hf.
  unfold bind at 1. unfold deref at 1. rewrite He. by rewrite Ht.
Qed.

(** What [set content] leaves in the file. *)
Lemma File_set_content_body a value s e :
  heap s !! a = Some e →
  ∃ e', heap (state_of (File_set_content a value s)) !! a = Some e' ∧
        body e' = File value.
Proof.
  intros He.
  destruct (keeps_touch_parent (stable file_content) a
              (with_heap (alter (set_body (File value)) a) s) a
              (set_body (File value) e)) as (e' & He' & Hb').
  { simpl. by rewrite list_lookup_alter_eq, He. }
  exists e'. split; [exact He'|]. by apply file_content_Some.
Qed.

(** C10: [updateFile] ignores an empty [name] and an empty [content]: the
    name stays; the content afterwards is the new content only if that is
    truthy, so it never becomes empty or undefined through [updateFile]; and
    with nothing else supplied the call is a read of the file record that
    changes no field of the store, [modifiedAt] included. *)
Theorem updateFile_ignores_empty_strings s i f e c :
  objects s !! i = Some f → heap s !! f = Some e → body e = File c →
  (∀ c' p, ∃ e', heap (state_of (updateFile i (Some EmptyString) c' p s)) !! f = Some e' ∧
      name e' = name e) ∧
  (∀ nm c' p, ∃ e', heap (state_of (updateFile i nm c' p s)) !! f = Some e' ∧
      body e' = File (if truthy_content c' then c' else c)) ∧
  (∀ nm, truthy_opt nm = false →
     updateFile i nm (CText []) None s = getFile i s ∧
     state_of (updateFile i nm (CText []) None s) = s).
Proof.
  intros Hf He Hb.
  split; [|split].
  - intros c' p. unfold updateFile, bind at 1, gets. rewrite Hf.
    unfold bind at 1, deref. rewrite He. unfold type. rewrite Hb.
    unfold rename_to; simpl. unfold bind at 1, ret at 1.
    unfold bind at 1.
    assert (stable name s (state_of
      ((if truthy_content c' then File_set_content f c' else ret tt) s))) as H2.
    { destruct (truthy_content c'); [|done].
      apply (keeps_File_set_content (stable name) f c' s e c);
        [by apply stable_frames_content | exact He | exact Hb]. }
    destruct ((if truthy_content c' then File_set_content f c' else ret tt) s)
      as [[] s2|err s2]; simpl in *; [|by apply H2].
    destruct (H2 _ _ He) as (e2 & He2 & Hn2).
    assert (stable name s2 (state_of ((move_to f p ;;; toJSON f) s2))) as H3.
    { apply preserves_bind; [apply _ | apply keeps_move_to, _ |]. intros _.
      apply preserves_reads; [apply _ | apply reads_toJSON]. }
    destruct (H3 _ _ He2) as (e3 & He3 & Hn3).
    exists e3. split; [exact He3 | congruence].
  - intros nm c' p. unfold updateFile, bind at 1, gets. rewrite Hf.
    unfold bind at 1, deref. rewrite He. unfold type. rewrite Hb.
    unfold bind at 1.
    pose proof (keeps_rename_to (stable file_content) f nm
                  (stable_frames_name file_content (λ _ _, eq_refl)) s) as H1.
    destruct (rename_to_Ok f nm s) as (s1 & Hs1). rewrite Hs1 in H1 |- *. simpl in H1.
    destruct (H1 _ _ He) as (e1 & He1 & Hc1).
    assert (body e1 = File c) as Hb1.
    { apply file_content_Some. rewrite Hc1. by apply file_content_Some. }
    unfold bind at 1.
    assert (∃ e2, heap (state_of
      ((if truthy_content c' then File_set_content f c' else ret tt) s1)) !! f = Some e2 ∧
      body e2 = File (if truthy_content c' then c' else c)) as (e2 & He2 & Hb2).
    { destruct (truthy_content c'); [|by eauto].
      by eapply File_set_content_body. }
    destruct ((if truthy_content c' then File_set_content f c' else ret tt) s1)
      as [[] s2|err s2]; simpl in *; [|by eauto].
    assert (stable file_content s2 (state_of ((move_to f p ;;; toJSON f) s2))) as H3.
    { apply preserves_bind; [apply _ | apply keeps_move_to, _ |]. intros _.
      apply preserves_reads; [apply _ | apply reads_toJSON]. }
    destruct (H3 _ _ He2) as (e3 & He3 & Hc3).
    exists e3. split; [exact He3|].
    apply file_content_Some. rewrite Hc3. by apply file_content_Some.
  - intros nm Hnm.
    assert (updateFile i nm (CText []) None s = getFile i s) as E.
    { assert (type e = TFile) as Ht by (unfold type; by rewrite Hb).
      rewrite (updateFile_unfold _ _ _ _ _ _ _ Hf He Ht).
      rewrite (getFile_unfold _ _ _ _ Hf He Ht).
      unfold rename_to. destruct nm as [n|]; simpl in Hnm; [rewrite Hnm|]; reflexivity. }
    split; [exact E|]. rewrite E. apply reads_getFile.
Qed.

Lemma updateFile_ignores_empty_strings_witness :
  (∃ e', heap (state_of (updateFile "2" (Some EmptyString) (CText []) None demo_store))
           !! 2 = Some e' ∧ name e' = "a.txt") ∧
  (∃ e', heap (state_of (updateFile "2" None (CText []) (Some "0") demo_store))
           !! 2 = Some e' ∧ body e' = File (CText (units_of_string "Hello, world!"))).
Proof.
  assert (objects demo_store !! "2" = Some 2) as Hf by (by vm_compute).
  assert (heap demo_store !! 2 =
          Some (mkEntry "2" "a.txt" 0 0 (File (CText (units_of_string "Hello, world!")))))
    as He by (by vm_compute).
  destruct (updateFile_ignores_empty_strings demo_store "2" 2 _ _ Hf He eq_refl)
    as (H1 & H2 & _).
  split; [apply (H1 (CText []) None) | apply (H2 None (CText []) (Some "0"))].
Defined.

(** ** Calls that fail after changing the store *)

(** C1 (the code departs from it): a call that throws can leave the store
    changed.  [updateFile] and [updateFolder] apply the new name before they
    look at [parentId], and [deleteFolder] on the root folder removes every
    entry from the store before [#unregister] fails on the missing parent. *)
Theorem failed_call_changes_store :
  (∃ err s', updateFile "2" (Some "renamed") CUndefined (Some "nope") demo_store
               = Throw err s' ∧
     name <$> heap demo_store !! 2 = Some "a.txt" ∧
     name <$> heap s' !! 2 = Some "renamed") ∧
  (∃ err s', updateFolder "3" (Some "renamed") (Some "nope") demo_store
               = Throw err s' ∧
     name <$> heap demo_store !! 3 = Some "sub" ∧
     name <$> heap s' !! 3 = Some "renamed") ∧
  (∃ err s', deleteFolder 10 "0" demo_store = Throw err s' ∧
     err = undefined_read "'remove'" ∧
     dom (objects demo_store) = {["0"; "1"; "2"; "3"; "4"]} ∧
     objects s' = ∅).
Proof.
  split; [|split].
  - destruct (updateFile "2" (Some "renamed") CUndefined (Some "nope") demo_store)
      as [r s'|err s'] eqn:E; vm_compute in E; [discriminate E|].
    injection E as <- <-. eexists _, _. split; [reflexivity|]. by vm_compute.
  - destruct (updateFolder "3" (Some "renamed") (Some "nope") demo_store)
      as [r s'|err s'] eqn:E; vm_compute in E; [discriminate E|].
    injection E as <- <-. eexists _, _. split; [reflexivity|]. by vm_compute.
  - destruct (deleteFolder 10 "0" demo_store) as [r s'|err s'] eqn:E;
      vm_compute in E; [discriminate E|].
    injection E as <- <-. eexists _, _. split; [reflexivity|].
    split; [by vm_compute|]. split; by vm_compute.
Qed.

(** C5 (the code departs from it): [createdAt] is read from the clock when
    the entry is constructed and [modifiedAt] is overwritten by [Folder.add]
    with a later reading, so the two differ whenever the clock advances in
    between. *)
Theorem created_entry_timestamps_differ :
  ∃ r s', createFile "foo.txt" None CUndefined (new_ObjectStore ticking_clock 0 None)
            = Ok r s' ∧
    jget "created_at" r = Some (JDate 1000) ∧
    jget "modified_at" r = Some (JDate 1001) ∧
    getFile "1" s' = Ok r s'.
Proof.
  destruct (createFile "foo.txt" None CUndefined (new_ObjectStore ticking_clock 0 None))
    as [r s'|err s'] eqn:E; vm_compute in E; [|discriminate E].
  injection E as <- <-. eexists _, _. split; [reflexivity|]. 
  split; [by vm_compute|]. split; by vm_compute.
Qed.


(** ** Ancestors *)

Section up.
Context (par : addr → option addr).

Lemma up_trans a b c : up par a b → up par b c → up par a c.
Proof.
induction 1 as [a p Hp|a p b Hp _ IH]; intros Hc.
- by eapply up_step.
- eapply up_step; [done | by apply IH].
Qed.

(** The last step of a path. *)
Lemma up_last a b : up par a b → ∃ c, par c = Some b.
Proof. induction 1; eauto. Qed.

Lemma up_first a b : up par a b → ∃ p, par a = Some p.
Proof. destruct 1; eauto. Qed.

(** Two ancestors of the same entry lie on one path. *)
Lemma up_linear y c c' :
up par y c → up par y c' → c = c' ∨ up par c c' ∨ up par c' c.
Proof.
intros H. revert c'. induction H as [a p Hp|a p b Hp Hb IH]; intros c' H'.
- inversion H' as [a' p' Hp'|a' p' b' Hp' Hb']; subst;
    rewrite Hp in Hp'; injection Hp' as <-; [by left | by right; left].
- inversion H' as [a' p' Hp'|a' p' b' Hp' Hb']; subst;
    rewrite Hp in Hp'; injection Hp' as <-.
  + right; right. done.
  + by apply IH.
Qed.

Context (par' : addr → option addr).

Lemma up_mono a b :
(∀ x p, par' x = Some p → par x = Some p) → up par' a b → up par a b.
Proof.
intros Hsub. induction 1 as [a p Hp|a p b Hp _ IH].
- apply up_parent. by apply Hsub.
- eapply up_step; [by apply Hsub | done].
Qed.

(** Paths after [f] was given the parent [p]. *)
Lemma up_reparent f p a b :
(∀ x, x ≠ f → par' x = par x) → par' f = Some p →
up par' a b →
up par a b ∨ ((a = f ∨ up par a f) ∧ (b = p ∨ up par' p b)).
Proof.
intros Hne Hf. induction 1 as [a q Hq|a q b Hq Hb IH].
- destruct (decide (a = f)) as [->|Ha].
  + right. rewrite Hf in Hq. injection Hq as <-. auto.
  + left. apply up_parent. by rewrite <-Hne.
- destruct (decide (a = f)) as [->|Ha].
  + right. rewrite Hf in Hq. injection Hq as <-. auto.
  + rewrite Hne in Hq by done. destruct IH as [IH|[[->|IH1] IH2]].
    * left. by eapply up_step.
    * right. split; [right; by apply up_parent | done].
    * right. split; [right; by eapply up_step | done].
Qed.

Lemma reparent_acyclic f p :
(∀ x, x ≠ f → par' x = par x) → par' f = Some p →
(∀ a, ¬ up par a a) → p ≠ f → ¬ up par p f →
∀ a, ¬ up par' a a.
Proof.
intros Hne Hf Hac Hpf Hup a Ha.
assert (∀ b, up par' p b → up par p b) as Hfrom_p.
{ intros b Hb. destruct (up_reparent f p p b Hne Hf Hb) as [H|[[H|H] _]];
    [done | by subst | done]. }
destruct (up_reparent f p a a Hne Hf Ha) as [H|[[->|H1] [->|H2]]].
- by eapply Hac.
- done.
- apply Hup. by apply Hfrom_p.
- done.
- apply Hup. eapply up_trans; [apply Hfrom_p, H2 | exact H1].
Qed.
End up.

(** ** The skeleton: readers *)

Lemma filter_ext_in {A} (P Q : A → Prop) `{!∀ x, Decision (P x), !∀ x, Decision (Q x)}
    (l : list A) :
  (∀ x, x ∈ l → (P x ↔ Q x)) → filter P l = filter Q l.
Proof.
  induction l as [|x l IH]; intros Hext; [done|].
  rewrite !filter_cons.
  assert (P x ↔ Q x) as Hx by (apply Hext; by left).
  rewrite IH by (intros y Hy; apply Hext; by right).
  destruct (decide (P x)), (decide (Q x)); tauto.
Qed.

Lemma filter_keep_all {A} (P : A → Prop) `{!∀ x, Decision (P x)} (l : list A) :
  (∀ x, x ∈ l → P x) → filter P l = l.
Proof.
  induction l as [|x l IH]; intros Hall; [done|].
  rewrite filter_cons, decide_True by (apply Hall; by left).
  rewrite IH; [done|]. intros y Hy. apply Hall. by right.
Qed.

Lemma length_filter_drop (f : addr) (es : list addr) :
  NoDup es → f ∈ es → length (filter (λ x, x ≠ f) es) + 1 = length es.
Proof.
  induction 1 as [|x es Hx Hnd IH]; intros Hin; [by apply elem_of_nil in Hin|].
  rewrite filter_cons. destruct (decide (x ≠ f)) as [Hne|Heq]; simpl.
  - apply elem_of_cons in Hin as [->|Hin]; [done|]. rewrite IH; done.
  - apply dec_stable in Heq as ->.
    rewrite filter_keep_all; [lia|]. intros y Hy ->. done.
Qed.

Lemma sk_id_lt k a i : sk_id k a = Some i → a < length (sk_cells k).
Proof.
  unfold sk_id. intros H. apply fmap_Some in H as (c & Hc & _).
  by eapply lookup_lt_Some.
Qed.

Lemma sk_kids_lt k a es : sk_kids k a = Some es → a < length (sk_cells k).
Proof.
  unfold sk_kids. intros H. apply bind_Some in H as (c & Hc & _).
  by eapply lookup_lt_Some.
Qed.

Lemma sk_kids_id k a es : sk_kids k a = Some es → is_Some (sk_id k a).
Proof.
  unfold sk_kids, sk_id. intros H. apply bind_Some in H as (c & -> & _). by eexists.
Qed.

Lemma sk_id_set_kids p es k a : sk_id (sk_set_kids p es k) a = sk_id k a.
Proof.
  unfold sk_id, sk_set_kids; simpl. rewrite list_lookup_alter.
  destruct (decide (p = a)) as [->|]; [|done]. by destruct (sk_cells k !! a).
Qed.

Lemma sk_kids_set_kids p es k a :
  sk_kids (sk_set_kids p es k) a =
  if decide (a = p) then (λ _, es) <$> sk_id k a else sk_kids k a.
Proof.
  unfold sk_kids, sk_id, sk_set_kids; simpl. rewrite list_lookup_alter.
  destruct (decide (a = p)) as [->|Hne].
  - rewrite decide_True by done. by destruct (sk_cells k !! p).
  - by rewrite decide_False by done.
Qed.

Lemma sk_kids_add p c k a :
  sk_kids (sk_add p c k) a = attach c p a <$> sk_kids k a.
Proof.
  unfold sk_add, attach. destruct (sk_kids k p) as [es|] eqn:Hp.
  - rewrite sk_kids_set_kids. destruct (decide (a = p)) as [->|]; [|by destruct (sk_kids k a)].
    rewrite Hp. simpl. by destruct (sk_kids_id _ _ _ Hp) as [i ->].
  - destruct (decide (a = p)) as [->|]; [by rewrite Hp | by destruct (sk_kids k a)].
Qed.

Lemma sk_id_add p c k a : sk_id (sk_add p c k) a = sk_id k a.
Proof. unfold sk_add. destruct (sk_kids k p); [apply sk_id_set_kids | done]. Qed.

Lemma sk_id_remove p c k a : sk_id (sk_remove p c k) a = sk_id k a.
Proof. unfold sk_remove. destruct (sk_kids k p); [apply sk_id_set_kids | done]. Qed.

(** With distinct ids, [Folder.remove] drops exactly the entry. *)
Lemma sk_kids_remove q f k a i :
  (∀ a b i, sk_id k a = Some i → sk_id k b = Some i → a = b) →
  (∀ es c, sk_kids k q = Some es → c ∈ es → is_Some (sk_id k c)) →
  sk_id k f = Some i →
  sk_kids (sk_remove q f k) a = detach f q a <$> sk_kids k a.
Proof.
  intros Hids Hkids Hf. unfold sk_remove, detach.
  destruct (sk_kids k q) as [es|] eqn:Hq.
  - rewrite sk_kids_set_kids. destruct (decide (a = q)) as [->|]; [|by destruct (sk_kids k a)].
    rewrite Hq. simpl. destruct (sk_kids_id _ _ _ Hq) as [j ->]. simpl. f_equal.
    apply filter_ext_in. intros x Hx.
    destruct (Hkids es x eq_refl Hx) as [ix Hix]. rewrite Hix, Hf. split.
    + intros Hne ->. rewrite Hf in Hix. by injection Hix as ->.
    + intros Hne [= ->]. apply Hne. by eapply Hids.
  - destruct (decide (a = q)) as [->|]; [by rewrite Hq | by destruct (sk_kids k a)].
Qed.

Lemma sk_parentOf_ext k k' :
  (∀ a, sk_id k' a = sk_id k a) → sk_parents k' = sk_parents k →
  ∀ a, sk_parentOf k' a = sk_parentOf k a.
Proof. intros Hid Hp a. unfold sk_parentOf. by rewrite Hid, Hp. Qed.

Lemma sk_id_skel s a : sk_id (skel s) a = id_of s a.
Proof.
  unfold sk_id, id_of, skel; simpl. rewrite list_lookup_fmap.
  by destruct (heap s !! a).
Qed.

Lemma sk_kids_skel s a e :
  heap s !! a = Some e →
  sk_kids (skel s) a = match body e with File _ => None | Folder es => Some es end.
Proof.
  intros He. unfold sk_kids, skel; simpl. rewrite list_lookup_fmap, He. done.
Qed.

Lemma sk_parentOf_skel s a : sk_parentOf (skel s) a = parentOf s a.
Proof.
  unfold sk_parentOf, parentOf, lookup_parent. rewrite sk_id_skel. unfold id_of.
  by destruct (heap s !! a).
Qed.

(** ** The tree invariant is kept by the steps that change the tree *)

Lemma sk_parentOf_Some k a p :
  sk_parentOf k a = Some p ↔ ∃ i, sk_id k a = Some i ∧ sk_parents k !! i = Some (Some p).
Proof.
  unfold sk_parentOf. split.
  - intros H. apply bind_Some in H as (i & Hi & H). exists i. split; [done|].
    destruct (sk_parents k !! i) as [[q|]|]; simpl in H; by simplify_eq.
  - intros (i & -> & Hi). simpl. by rewrite Hi.
Qed.

Lemma elem_of_attach f p a es x :
  x ∈ attach f p a es ↔ x ∈ es ∨ (a = p ∧ x = f).
Proof.
  unfold attach. destruct (decide (a = p)) as [->|].
  - rewrite elem_of_app, list_elem_of_singleton. naive_solver.
  - naive_solver.
Qed.

Lemma elem_of_detach f q a es x :
  x ∈ detach f q a es ↔ x ∈ es ∧ (a = q → x ≠ f).
Proof.
  unfold detach. destruct (decide (a = q)) as [->|].
  - rewrite list_elem_of_filter. naive_solver.
  - naive_solver.
Qed.

Lemma NoDup_detach f q a es : NoDup es → NoDup (detach f q a es).
Proof.
  unfold detach. destruct (decide (a = q)); [apply NoDup_filter | done].
Qed.

(** A successful [#unregister]. *)
Lemma wf_unregister_acc k k' f i q :
  wf k →
  sk_next k' = sk_next k →
  (∀ a, sk_id k' a = sk_id k a) →
  sk_objects k' = delete i (sk_objects k) →
  sk_parents k' = delete i (sk_parents k) →
  (∀ a, sk_kids k' a = detach f q a <$> sk_kids k a) →
  sk_id k f = Some i →
  sk_parents k !! i = Some (Some q) →
  wf k'.
Proof.
  intros Hwf Hn Hid Ho Hp Hk Hf Hq. split.
  - intros a b j. rewrite !Hid. apply Hwf.
  - intros a n. rewrite Hn, Hid. apply Hwf.
  - intros j a. rewrite Ho, Hid. intros [_ H]%lookup_delete_Some. by apply Hwf.
  - intros j q0. rewrite Hp, Ho. intros [Hne H]%lookup_delete_Some.
    destruct (wf_par k Hwf j q0 H) as (a & es & Ha & Hes & Hin).
    exists a, (detach f q q0 es). rewrite lookup_delete_ne by done.
    rewrite Hk, Hes. repeat split; try done.
    apply elem_of_detach. split; [done|]. intros _ ->.
    apply (wf_obj k Hwf) in Ha. congruence.
  - intros q0 es' c. rewrite Hk. intros (es & Hes & ->)%fmap_Some.
    intros [Hin Hne]%elem_of_detach.
    destruct (wf_kids k Hwf q0 es c Hes Hin) as (j & Hj & Hpj).
    exists j. rewrite Hid, Hp. split; [done|].
    rewrite lookup_delete_ne; [done|]. intros <-.
    assert (q0 = q) as -> by congruence.
    apply Hne; [done|]. by eapply (wf_ids k Hwf).
  - intros q0 es'. rewrite Hk. intros (es & Hes & ->)%fmap_Some.
    apply NoDup_detach. by eapply (wf_nodup k Hwf).
  - intros a Ha. apply (wf_acyc k Hwf a). eapply up_mono; [|exact Ha].
    intros x p. rewrite !sk_parentOf_Some. intros (j & Hj & Hpj).
    exists j. rewrite Hid in Hj. rewrite Hp in Hpj.
    apply lookup_delete_Some in Hpj as [_ Hpj]. done.
Qed.

(** [#unregister] of an entry without parent, up to the failing call. *)
Lemma wf_unbind k i :
  wf k → mjoin (sk_parents k !! i) = None → wf (sk_unbind i k).
Proof.
  intros Hwf Hi. split; simpl.
  - apply Hwf.
  - apply Hwf.
  - intros j a [_ H]%lookup_delete_Some. by apply Hwf.
  - intros j q0 [Hne H]%lookup_delete_Some.
    destruct (wf_par k Hwf j q0 H) as (a & es & Ha & Hes & Hin).
    exists a, es. by rewrite lookup_delete_ne.
  - intros q0 es c Hes Hin.
    destruct (wf_kids k Hwf q0 es c Hes Hin) as (j & Hj & Hpj).
    exists j. split; [done|]. rewrite lookup_delete_ne; [done|].
    intros <-. by rewrite Hpj in Hi.
  - apply Hwf.
  - intros a Ha. apply (wf_acyc k Hwf a). eapply up_mono; [|exact Ha].
    intros x p. rewrite !sk_parentOf_Some. intros (j & Hj & Hpj).
    exists j. split; [done|]. simpl in Hpj.
    by apply lookup_delete_Some in Hpj as [_ Hpj].
Qed.

(** A successful move of [f] from [q] to [p]. *)
Lemma wf_move_acc k k' f i q p :
  wf k →
  sk_next k' = sk_next k →
  (∀ a, sk_id k' a = sk_id k a) →
  sk_objects k' = <[i := f]> (sk_objects k) →
  sk_parents k' = <[i := Some p]> (sk_parents k) →
  (∀ a, sk_kids k' a = attach f p a <$> (detach f q a <$> sk_kids k a)) →
  sk_objects k !! i = Some f →
  sk_parents k !! i = Some (Some q) →
  is_Some (sk_kids k p) →
  p ≠ f → ¬ up (sk_parentOf k) p f →
  wf k'.
Proof.
  intros Hwf Hn Hid Ho Hp Hk Hf Hq [esp Hesp] Hpf Hup.
  pose proof (wf_obj k Hwf i f Hf) as Hif.
  split.
  - intros a b j. rewrite !Hid. apply Hwf.
  - intros a n. rewrite Hn, Hid. apply Hwf.
  - intros j a. rewrite Ho, Hid. intros [[<- <-]|[_ H]]%lookup_insert_Some; [done|].
    by apply Hwf.
  - intros j q0. rewrite Hp, Ho. intros [[<- [= <-]]|[Hne H]]%lookup_insert_Some.
    + exists f, (attach f p p (detach f q p esp)).
      rewrite lookup_insert_eq, Hk, Hesp. repeat split; try done.
      apply elem_of_attach. auto.
    + destruct (wf_par k Hwf j q0 H) as (a & es & Ha & Hes & Hin).
      exists a, (attach f p q0 (detach f q q0 es)).
      rewrite lookup_insert_ne by done. rewrite Hk, Hes. repeat split; try done.
      apply elem_of_attach. left. apply elem_of_detach. split; [done|].
      intros _ ->. apply (wf_obj k Hwf) in Ha. congruence.
  - intros q0 es' c. rewrite Hk.
    intros (es1 & (es & Hes & ->)%fmap_Some & ->)%fmap_Some.
    intros [[Hin Hne]%elem_of_detach|[-> ->]]%elem_of_attach.
    + destruct (wf_kids k Hwf q0 es c Hes Hin) as (j & Hj & Hpj).
      exists j. rewrite Hid, Hp. split; [done|].
      rewrite lookup_insert_ne; [done|]. intros <-.
      assert (q0 = q) as -> by congruence.
      apply Hne; [done|]. by eapply (wf_ids k Hwf).
    + exists i. rewrite Hid, Hp, lookup_insert_eq. done.
  - intros q0 es'. rewrite Hk.
    intros (es1 & (es & Hes & ->)%fmap_Some & ->)%fmap_Some.
    pose proof (wf_nodup k Hwf q0 es Hes) as Hnd.
    unfold attach. destruct (decide (q0 = p)) as [->|]; [|by apply NoDup_detach].
    apply NoDup_app. split; [by apply NoDup_detach|]. split; [|apply NoDup_singleton].
    intros x [Hin Hne]%elem_of_detach ->%list_elem_of_singleton.
    destruct (wf_kids k Hwf p es f Hes Hin) as (j & Hj & Hpj).
    assert (j = i) as -> by congruence.
    apply Hne; [congruence | done].
  - apply (reparent_acyclic (sk_parentOf k) (sk_parentOf k') f p); try done.
    + intros x Hx. unfold sk_parentOf. rewrite Hid, Hp.
      destruct (sk_id k x) as [j|] eqn:Hj; [simpl|done].
      rewrite lookup_insert_ne; [done|]. intros <-. apply Hx. by eapply (wf_ids k Hwf).
    + apply sk_parentOf_Some. exists i. by rewrite Hid, Hp, lookup_insert_eq.
    + apply Hwf.
Qed.

(** A successful create under [p]: the new entry is at address [n] and has
    the id [i]. *)
Lemma wf_create_acc k k' p n i :
  wf k →
  n = length (sk_cells k) → i = pretty (sk_next k) →
  sk_next k' = S (sk_next k) →
  (∀ a, a ≠ n → sk_id k' a = sk_id k a) → sk_id k' n = Some i →
  sk_objects k' = <[i := n]> (sk_objects k) →
  sk_parents k' = <[i := Some p]> (sk_parents k) →
  (∀ a, a ≠ n → sk_kids k' a = attach n p a <$> sk_kids k a) →
  (sk_kids k' n = None ∨ sk_kids k' n = Some []) →
  is_Some (sk_kids k p) →
  wf k'.
Proof.
  intros Hwf -> -> Hn Hid Hidn Ho Hp Hk Hkn [esp Hesp].
  set (n := length (sk_cells k)) in *. set (i := pretty (sk_next k)) in *.
  assert (∀ a j, sk_id k a = Some j → a ≠ n) as Hlt.
  { intros a j Hj%sk_id_lt. unfold n. lia. }
  assert (∀ a es, sk_kids k a = Some es → a ≠ n) as Hklt.
  { intros a es Hj%sk_kids_lt. unfold n. lia. }
  assert (∀ a, sk_id k a ≠ Some i) as Hfresh.
  { intros a. by apply (wf_fresh k Hwf). }
  assert (p ≠ n) as Hpn by eauto.
  split.
  - intros a b j Ha Hb.
    destruct (decide (a = n)) as [->|Han], (decide (b = n)) as [->|Hbn]; [done|..].
    + rewrite Hidn in Ha. rewrite Hid in Hb by done. simplify_eq. by destruct (Hfresh b).
    + rewrite Hidn in Hb. rewrite Hid in Ha by done. simplify_eq. by destruct (Hfresh a).
    + rewrite Hid in Ha, Hb by done. by eapply (wf_ids k Hwf).
  - intros a m Hm. rewrite Hn in Hm.
    destruct (decide (a = n)) as [->|Han].
    + rewrite Hidn. intros [= E]. apply (inj pretty) in E. lia.
    + rewrite Hid by done. apply (wf_fresh k Hwf). lia.
  - intros j a. rewrite Ho. intros [[<- <-]|[Hne H]]%lookup_insert_Some; [done|].
    apply (wf_obj k Hwf) in H. rewrite Hid; [done | by eauto].
  - intros j q0. rewrite Hp, Ho. intros [[<- [= <-]]|[Hne H]]%lookup_insert_Some.
    + exists n, (attach n p p esp). rewrite lookup_insert_eq, Hk, Hesp by done.
      repeat split; try done. apply elem_of_attach. auto.
    + destruct (wf_par k Hwf j q0 H) as (a & es & Ha & Hes & Hin).
      exists a, (attach n p q0 es). rewrite lookup_insert_ne by done.
      rewrite Hk, Hes by eauto. repeat split; try done.
      apply elem_of_attach. auto.
  - intros q0 es' c Hes' Hin.
    destruct (decide (q0 = n)) as [->|Hq0].
    { destruct Hkn as [Hkn|Hkn]; rewrite Hkn in Hes'; simplify_eq.
      by apply elem_of_nil in Hin. }
    rewrite Hk in Hes' by done. apply fmap_Some in Hes' as (es & Hes & ->).
    apply elem_of_attach in Hin as [Hin|[-> ->]].
    + destruct (wf_kids k Hwf q0 es c Hes Hin) as (j & Hj & Hpj).
      exists j. rewrite Hid, Hp by eauto. split; [done|].
      rewrite lookup_insert_ne; [done|]. intros <-. by eapply Hfresh.
    + exists i. by rewrite Hidn, Hp, lookup_insert_eq.
  - intros q0 es' Hes'.
    destruct (decide (q0 = n)) as [->|Hq0].
    { destruct Hkn as [Hkn|Hkn]; rewrite Hkn in Hes'; simplify_eq. constructor. }
    rewrite Hk in Hes' by done. apply fmap_Some in Hes' as (es & Hes & ->).
    pose proof (wf_nodup k Hwf q0 es Hes) as Hnd.
    unfold attach. destruct (decide (q0 = p)) as [->|]; [|done].
    apply NoDup_app. split; [done|]. split; [|apply NoDup_singleton].
    intros x Hin ->%list_elem_of_singleton.
    destruct (wf_kids k Hwf p es n Hes Hin) as (j & Hj & _). by eapply Hlt.
  - apply (reparent_acyclic (sk_parentOf k) (sk_parentOf k') n p); try done.
    + intros x Hx. unfold sk_parentOf. rewrite Hid, Hp by done.
      destruct (sk_id k x) as [j|] eqn:Hj; [simpl|done].
      rewrite lookup_insert_ne; [done|]. intros <-. by eapply Hfresh.
    + apply sk_parentOf_Some. exists i. by rewrite Hidn, Hp, lookup_insert_eq.
    + apply Hwf.
    + intros (c & Hc)%up_last. apply sk_parentOf_Some in Hc as (j & _ & Hj).
      destruct (wf_par k Hwf j n Hj) as (a & es & _ & Hes & _). by eapply Hklt.
Qed.

(** The steps, as the store performs them. *)

Lemma sk_next_add p c k : sk_next (sk_add p c k) = sk_next k.
Proof. unfold sk_add. by destruct (sk_kids k p). Qed.
Lemma sk_objects_add p c k : sk_objects (sk_add p c k) = sk_objects k.
Proof. unfold sk_add. by destruct (sk_kids k p). Qed.
Lemma sk_parents_add p c k : sk_parents (sk_add p c k) = sk_parents k.
Proof. unfold sk_add. by destruct (sk_kids k p). Qed.
Lemma sk_next_remove p c k : sk_next (sk_remove p c k) = sk_next k.
Proof. unfold sk_remove. by destruct (sk_kids k p). Qed.
Lemma sk_objects_remove p c k : sk_objects (sk_remove p c k) = sk_objects k.
Proof. unfold sk_remove. by destruct (sk_kids k p). Qed.
Lemma sk_parents_remove p c k : sk_parents (sk_remove p c k) = sk_parents k.
Proof. unfold sk_remove. by destruct (sk_kids k p). Qed.

Lemma sk_id_bind i a p k x : sk_id (sk_bind i a p k) x = sk_id k x.
Proof. done. Qed.
Lemma sk_kids_bind i a p k x : sk_kids (sk_bind i a p k) x = sk_kids k x.
Proof. done. Qed.

Lemma wf_sk_unregister k f i q :
  wf k → sk_id k f = Some i → sk_parents k !! i = Some (Some q) →
  wf (sk_unregister f i q k).
Proof.
  intros Hwf Hf Hq. unfold sk_unregister.
  eapply (wf_unregister_acc k _ f i q); try done.
  - by rewrite sk_next_remove.
  - intros a. by rewrite sk_id_remove.
  - by rewrite sk_objects_remove.
  - by rewrite sk_parents_remove.
  - intros a. rewrite (sk_kids_remove q f (sk_unbind i k) a i); try done.
    + apply Hwf.
    + intros es c Hes Hin. destruct (wf_kids k Hwf q es c Hes Hin) as (j & Hj & _).
      by exists j.
Qed.

Lemma wf_sk_move k f i q p :
  wf k → sk_objects k !! i = Some f → sk_parents k !! i = Some (Some q) →
  is_Some (sk_kids k p) → p ≠ f → ¬ up (sk_parentOf k) p f →
  wf (sk_move f i q p k).
Proof.
  intros Hwf Hf Hq Hp Hpf Hup. unfold sk_move.
  pose proof (wf_obj k Hwf i f Hf) as Hif.
  eapply (wf_move_acc k _ f i q p); try done.
  - rewrite sk_next_add; simpl. by rewrite sk_next_remove.
  - intros a. by rewrite sk_id_add, sk_id_bind, sk_id_remove.
  - rewrite sk_objects_add; simpl. by rewrite sk_objects_remove.
  - rewrite sk_parents_add; simpl. by rewrite sk_parents_remove.
  - intros a. rewrite sk_kids_add, sk_kids_bind. f_equal.
    apply (sk_kids_remove q f k a i); try done.
    + apply Hwf.
    + intros es c Hes Hin. destruct (wf_kids k Hwf q es c Hes Hin) as (j & Hj & _).
      by exists j.
Qed.

Lemma sk_id_alloc dir k a :
  sk_id (sk_alloc dir k) a =
  if decide (a = length (sk_cells k)) then Some (pretty (sk_next k)) else sk_id k a.
Proof.
  unfold sk_id, sk_alloc; simpl. destruct (decide (a = length (sk_cells k))) as [->|Hne].
  - by rewrite list_lookup_middle.
  - destruct (decide (a < length (sk_cells k))).
    + by rewrite lookup_app_l.
    + rewrite !(proj2 (lookup_ge_None _ _)); [done| |]; 
        rewrite ?length_app; simpl; lia.
Qed.

Lemma sk_kids_alloc dir k a :
  sk_kids (sk_alloc dir k) a =
  if decide (a = length (sk_cells k)) then (if dir then Some [] else None)
  else sk_kids k a.
Proof.
  unfold sk_kids, sk_alloc; simpl. destruct (decide (a = length (sk_cells k))) as [->|Hne].
  - by rewrite list_lookup_middle.
  - destruct (decide (a < length (sk_cells k))).
    + by rewrite lookup_app_l.
    + rewrite !(proj2 (lookup_ge_None _ _)); [done| |]; 
        rewrite ?length_app; simpl; lia.
Qed.

Lemma wf_sk_create k dir p :
  wf k → is_Some (sk_kids k p) → wf (sk_create dir p k).
Proof.
  intros Hwf Hp. unfold sk_create.
  set (n := length (sk_cells k)). set (i := pretty (sk_next k)).
  assert (p ≠ n) as Hpn.
  { destruct Hp as [es Hes%sk_kids_lt]. unfold n. lia. }
  eapply (wf_create_acc k _ p n i); try done.
  - by rewrite sk_next_add.
  - intros a Ha. rewrite sk_id_add, sk_id_bind, sk_id_alloc. by rewrite decide_False.
  - rewrite sk_id_add, sk_id_bind, sk_id_alloc. by rewrite decide_True.
  - by rewrite sk_objects_add.
  - by rewrite sk_parents_add.
  - intros a Ha. rewrite sk_kids_add, sk_kids_bind, sk_kids_alloc. by rewrite decide_False.
  - rewrite sk_kids_add, sk_kids_bind, sk_kids_alloc, decide_True by done. unfold attach.
    destruct dir; simpl; [right | by left]. by rewrite decide_False.
Qed.

(** ** The skeleton of the state after a method *)

Lemma sk_kids_children s a : sk_kids (skel s) a = children s a.
Proof.
  unfold sk_kids, children, skel; simpl. rewrite list_lookup_fmap.
  by destruct (heap s !! a).
Qed.

Lemma children_Some s a es :
  children s a = Some es ↔ ∃ e, heap s !! a = Some e ∧ body e = Folder es.
Proof.
  unfold children. split.
  - intros (e & He & H)%bind_Some. exists e. split; [done|].
    destruct (body e); by simplify_eq.
  - intros (e & -> & Hb). simpl. by rewrite Hb.
Qed.

Lemma skel_alter_inert g a s :
  (∀ e, cell_of (g e) = cell_of e) → skel (with_heap (alter g a) s) = skel s.
Proof.
  intros Hg. unfold skel; simpl. f_equal.
  rewrite (list_fmap_alter cell_of g (λ c, c)); [by apply list_alter_id|].
  by apply Forall_forall.
Qed.

Lemma skel_set_entries p es s :
  skel (with_heap (alter (set_body (Folder es)) p) s) = sk_set_kids p es (skel s).
Proof.
  unfold skel, sk_set_kids; simpl. f_equal.
  apply list_fmap_alter. by apply Forall_forall.
Qed.

Lemma skel_stamp a t s : skel (with_heap (alter (set_modifiedAt t) a) s) = skel s.
Proof. by apply skel_alter_inert. Qed.

Lemma Folder_add_skel p c s es :
  children s p = Some es →
  ∃ s', Folder_add p c s = Ok tt s' ∧ skel s' = sk_add p c (skel s).
Proof.
  intros Hp. pose proof Hp as (e & He & Hb)%children_Some.
  unfold Folder_add, Folder_entries, bind at 1 2, deref. rewrite He, Hb. simpl.
  eexists. split; [reflexivity|].
  unfold sk_add. rewrite sk_kids_children, Hp.
  rewrite !skel_stamp. apply skel_set_entries.
Qed.

Lemma Folder_remove_skel p c s es :
  children s p = Some es →
  ∃ s', Folder_remove p c s = Ok tt s' ∧ skel s' = sk_remove p c (skel s).
Proof.
  intros Hp. pose proof Hp as (e & He & Hb)%children_Some.
  unfold Folder_remove, Folder_entries, bind at 1 2, deref. rewrite He, Hb. simpl.
  eexists. split; [reflexivity|].
  unfold sk_remove. rewrite sk_kids_children, Hp.
  rewrite !skel_stamp.
  change (with_ticks S (with_heap ?f s)) with (with_heap f (with_ticks S s)).
  rewrite skel_set_entries. f_equal.
  apply list_filter_iff. intros x. by rewrite !sk_id_skel.
Qed.

Lemma register_skel f p s i :
  id_of s f = Some i → is_Some (children s p) →
  ∃ s', register f (Some p) s = Ok tt s' ∧
        skel s' = sk_add p f (sk_bind i f (Some p) (skel s)).
Proof.
  intros Hf [es Hp]. unfold id_of in Hf. apply fmap_Some in Hf as (e & He & ->).
  unfold register, bind at 1, deref. rewrite He.
  unfold bind at 1 2, modify.
  destruct (Folder_add_skel p f
              (with_objects (insert (id e) f) (with_parents (insert (id e) (Some p)) s)) es)
    as (s' & Hadd & Hs'); [done|].
  exists s'. split; [exact Hadd | exact Hs'].
Qed.

Lemma bind_reads_cases {A B} (m : M A) (k : A → M B) s :
  reads m →
  (∃ a, m s = Ok a s ∧ bind m k s = k a s) ∨
  (∃ e, m s = Throw e s ∧ bind m k s = Throw e s).
Proof.
  intros Hm. specialize (Hm s). unfold bind.
  destruct (m s) as [a s1|e s1]; simpl in Hm; subst; eauto.
Qed.

Lemma lookup_parent_Some s i q :
  lookup_parent s i = Some q ↔ parents s !! i = Some (Some q).
Proof.
  unfold lookup_parent. destruct (parents s !! i) as [[q'|]|]; simpl; naive_solver.
Qed.

Lemma unregister_unfold f s e :
  heap s !! f = Some e →
  unregister f s =
  let s1 := with_objects (delete (id e)) (with_parents (delete (id e)) s) in
  match lookup_parent s (id e) with
  | Some q => Folder_remove q f s1
  | None => Throw (undefined_read "'remove'") s1
  end.
Proof.
  intros He. unfold unregister, bind, deref, getParent, gets, modify. rewrite He.
  simpl. by destruct (lookup_parent s (id e)).
Qed.

Lemma unregister_cases f s :
  wfs s →
  (id_of s f = None ∧ state_of (unregister f s) = s) ∨
  ∃ i, id_of s f = Some i ∧
    ((lookup_parent s i = None ∧
      ∃ s', unregister f s = Throw (undefined_read "'remove'") s' ∧
            skel s' = sk_unbind i (skel s)) ∨
     (∃ q, parents s !! i = Some (Some q) ∧
      ∃ s', unregister f s = Ok tt s' ∧ skel s' = sk_unregister f i q (skel s))).
Proof.
  intros Hwf.
  destruct (heap s !! f) as [e|] eqn:He.
  2:{ left. unfold unregister, bind, deref, id_of. by rewrite He. }
  right. exists (id e). split; [unfold id_of; by rewrite He|].
  rewrite (unregister_unfold f s e He). simpl.
  destruct (lookup_parent s (id e)) as [q|] eqn:Hq.
  - right. exists q. apply lookup_parent_Some in Hq. split; [done|].
    destruct (wf_par _ Hwf (id e) q Hq) as (a & es & _ & Hes & _).
    rewrite sk_kids_children in Hes.
    destruct (Folder_remove_skel q f
                (with_objects (delete (id e)) (with_parents (delete (id e)) s)) es)
      as (s' & Hrm & Hs'); [done|].
    exists s'. split; [exact Hrm | exact Hs'].
  - left. split; [done|]. eexists. split; reflexivity.
Qed.

Lemma unregister_wfs f : invariant wfs (unregister f).
Proof.
  intros s Hwf. destruct (unregister_cases f s Hwf) as [[_ ->]|(i & Hi & H)]; [done|].
  destruct H as [(Hp & s' & -> & Hs')|(q & Hq & s' & -> & Hs')]; unfold wfs; simpl;
    rewrite Hs'.
  - apply wf_unbind; [done|]. exact Hp.
  - apply wf_sk_unregister; [done | by rewrite sk_id_skel | done].
Qed.

Lemma invariant_bind {A B} I (m : M A) (k : A → M B) :
  invariant I m → (∀ a, invariant I (k a)) → invariant I (bind m k).
Proof.
  intros Hm Hk s Hs. unfold bind. specialize (Hm s Hs).
  destruct (m s) as [a s1|e s1]; simpl in *; [by apply Hk | done].
Qed.

Lemma invariant_reads {A} I (m : M A) : reads m → invariant I m.
Proof. intros Hm s Hs. by rewrite Hm. Qed.

Lemma invariant_forM_ {A} I (l : list A) (f : A → M unit) :
  (∀ a, invariant I (f a)) → invariant I (forM_ l f).
Proof.
  intros Hf. induction l as [|x l IH]; simpl.
  - apply invariant_reads, reads_ret.
  - apply invariant_bind; [apply Hf | intros _; apply IH].
Qed.

Lemma deleteFile_wfs i : invariant wfs (deleteFile i).
Proof.
  unfold deleteFile.
  apply invariant_bind; [apply invariant_reads, reads_gets|].
  intros [f|]; [|apply invariant_reads, reads_throw].
  apply invariant_bind; [apply invariant_reads, reads_deref|]. intros e.
  destruct (type e); [apply unregister_wfs | apply invariant_reads, reads_throw].
Qed.

Lemma deleteFolder_wfs fuel i : invariant wfs (deleteFolder fuel i).
Proof.
  revert i. induction fuel as [|fuel IH]; intros i; simpl.
  { apply invariant_reads, reads_throw. }
  apply invariant_bind; [apply invariant_reads, reads_gets|].
  intros [f|]; [|apply invariant_reads, reads_throw].
  apply invariant_bind; [apply invariant_reads, reads_deref|]. intros e.
  destruct (body e) as [c|es]; [apply invariant_reads, reads_throw|].
  apply invariant_bind; [|intros _; apply unregister_wfs].
  apply invariant_forM_. intros entry.
  apply invariant_bind; [apply invariant_reads, reads_deref|]. intros ee.
  destruct (type ee); [apply deleteFile_wfs | apply IH].
Qed.

(** Construction. *)
Lemma new_Entry_skel nm b s :
  ∃ s', new_Entry nm b s = Ok (length (heap s)) s' ∧
    heap s' = heap s ++ [mkEntry (pretty (nextId s)) nm (clock s (ticks s))
                           (clock s (S (ticks s))) b] ∧
    nextId s' = S (nextId s) ∧ ticks s' = S (S (ticks s)) ∧
    objects s' = objects s ∧ parents s' = parents s ∧ root s' = root s ∧
    clock s' = clock s.
Proof. eexists. split; [reflexivity|]. done. Qed.


Lemma rename_to_skel a nm s : skel (state_of (rename_to a nm s)) = skel s.
Proof.
  unfold rename_to. destruct nm as [n|]; [|done].
  destruct (truthy_string n); [|done].
  unfold Entry_set_name, bind, update, modify, new_Date; simpl.
  rewrite skel_stamp.
  change (with_ticks S (with_heap ?f s)) with (with_heap f (with_ticks S s)).
  by rewrite skel_alter_inert.
Qed.

Lemma skel_alter_at g a s :
  (∀ e, heap s !! a = Some e → cell_of (g e) = cell_of e) →
  skel (with_heap (alter g a) s) = skel s.
Proof.
  intros Hg. unfold skel; simpl. f_equal. apply list_eq. intros i.
  rewrite !list_lookup_fmap, list_lookup_alter.
  destruct (decide (a = i)) as [->|]; [|done].
  destruct (heap s !! i) eqn:E; simpl; [|done]. f_equal. by apply Hg.
Qed.

Lemma File_set_content_skel a value s e c :
  heap s !! a = Some e → body e = File c →
  skel (state_of (File_set_content a value s)) = skel s.
Proof.
  intros He Hb.
  assert (skel (with_heap (alter (set_body (File value)) a) s) = skel s) as H1.
  { apply skel_alter_at. intros e0 He0. rewrite He in He0. injection He0 as <-.
    unfold cell_of; simpl. by rewrite Hb. }
  unfold File_set_content, bind, update, modify, new_Date, deref, getParent, gets; simpl.
  repeat match goal with
         | |- context [match ?x with _ => _ end] =>
             lazymatch x with
             | context [match _ with _ => _ end] => fail
             | _ => destruct x; simpl
             end
         end;
    rewrite ?skel_stamp;
    change (with_ticks S (with_heap ?f s)) with (with_heap f (with_ticks S s));
    rewrite ?skel_stamp; exact H1.
Qed.

Lemma new_File_skel nm c s :
  ∃ s', new_File nm c None s = Ok (length (heap s)) s' ∧
        skel s' = sk_alloc false (skel s) ∧
        id_of s' (length (heap s)) = Some (pretty (nextId s)).
Proof.
  eexists. split; [reflexivity|]. split.
  - unfold skel, sk_alloc; simpl. by rewrite fmap_app.
  - unfold id_of; simpl. by rewrite list_lookup_middle.
Qed.

Lemma new_Folder_skel nm s :
  ∃ s', new_Folder nm None s = Ok (length (heap s)) s' ∧
        skel s' = sk_alloc true (skel s) ∧
        id_of s' (length (heap s)) = Some (pretty (nextId s)).
Proof.
  eexists. split; [reflexivity|]. split.
  - unfold skel, sk_alloc; simpl. by rewrite fmap_app.
  - unfold id_of; simpl. by rewrite list_lookup_middle.
Qed.

Lemma length_sk_cells s : length (sk_cells (skel s)) = length (heap s).
Proof. unfold skel; simpl. by rewrite length_fmap. Qed.

(** A create under the folder [p]. *)
Lemma create_skel (dir : bool) (new : M addr) p s :
  (∃ s', new s = Ok (length (heap s)) s' ∧ skel s' = sk_alloc dir (skel s) ∧
         id_of s' (length (heap s)) = Some (pretty (nextId s))) →
  is_Some (children s p) →
  ∃ s2, (let* a := new in register a (Some p) ;;; toJSON a) s
          = toJSON (length (heap s)) s2 ∧
        skel s2 = sk_create dir p (skel s).
Proof.
  intros (s1 & Hnew & Hs1 & Hid) [es Hes].
  assert (is_Some (children s1 p)) as Hp1.
  { rewrite <-sk_kids_children, Hs1, sk_kids_alloc, sk_kids_children.
    pose proof Hes as (e & He%lookup_lt_Some & _)%children_Some.
    rewrite decide_False; [by rewrite Hes | rewrite length_sk_cells; lia]. }
  destruct (register_skel _ p s1 _ Hid Hp1) as (s2 & Hreg & Hs2).
  exists s2. split.
  - unfold bind. by rewrite Hnew, Hreg.
  - rewrite Hs2, Hs1. unfold sk_create. by rewrite length_sk_cells.
Qed.

Lemma reads_default_parent parentId : reads (default_parent parentId).
Proof. unfold default_parent. destruct parentId; reads_tac. Qed.

Lemma type_children s p e :
  heap s !! p = Some e → type e = TFolder → is_Some (children s p).
Proof.
  intros He Ht. unfold children. rewrite He. simpl.
  unfold type in Ht. by destruct (body e).
Qed.

Lemma createFile_cases nm parentId c s :
  (is_ok (createFile nm parentId c s) = false ∧
   state_of (createFile nm parentId c s) = s) ∨
  ∃ pid p s2, default_parent parentId s = Ok pid s ∧ objects s !! pid = Some p ∧
    is_Some (children s p) ∧
    createFile nm parentId c s = toJSON (length (heap s)) s2 ∧
    skel s2 = sk_create false p (skel s).
Proof.
  pose proof (reads_default_parent parentId s) as Hd.
  unfold createFile, bind, gets, deref.
  destruct (default_parent parentId s) as [pid s0|err s0]; simpl in Hd; subst s0;
    [|by left].
  destruct (objects s !! pid) as [p|] eqn:Hp; [|by left].
  destruct (heap s !! p) as [ep|] eqn:Hep; [|by left].
  destruct (type ep) eqn:Ht; [by left|].
  right.
  destruct (create_skel false (new_File nm c None) p s (new_File_skel nm c s)
              (type_children s p ep Hep Ht)) as (s2 & Hrun & Hs2).
  exists pid, p, s2. repeat split; try done. by eapply type_children.
Qed.

Lemma createFolder_cases nm parentId s :
  (is_ok (createFolder nm parentId s) = false ∧
   state_of (createFolder nm parentId s) = s) ∨
  ∃ pid p s2, default_parent parentId s = Ok pid s ∧ objects s !! pid = Some p ∧
    is_Some (children s p) ∧
    createFolder nm parentId s = toJSON (length (heap s)) s2 ∧
    skel s2 = sk_create true p (skel s).
Proof.
  pose proof (reads_default_parent parentId s) as Hd.
  unfold createFolder, bind, gets, deref.
  destruct (default_parent parentId s) as [pid s0|err s0]; simpl in Hd; subst s0;
    [|by left].
  destruct (objects s !! pid) as [p|] eqn:Hp; [|by left].
  destruct (heap s !! p) as [ep|] eqn:Hep; [|by left].
  destruct (type ep) eqn:Ht; [by left|].
  right.
  destruct (create_skel true (new_Folder nm None) p s (new_Folder_skel nm s)
              (type_children s p ep Hep Ht)) as (s2 & Hrun & Hs2).
  exists pid, p, s2. repeat split; try done. by eapply type_children.
Qed.

Lemma wfs_sk_create s s2 dir p :
  wfs s → is_Some (children s p) → skel s2 = sk_create dir p (skel s) → wfs s2.
Proof.
  intros Hwf Hp Hs2. unfold wfs. rewrite Hs2. apply wf_sk_create; [done|].
  by rewrite sk_kids_children.
Qed.

Lemma createFile_wfs nm parentId c : invariant wfs (createFile nm parentId c).
Proof.
  intros s Hwf.
  destruct (createFile_cases nm parentId c s)
    as [[_ ->]|(pid & p & s2 & _ & _ & Hp & -> & Hs2)]; [done|].
  rewrite reads_toJSON. by eapply wfs_sk_create.
Qed.

Lemma createFolder_wfs nm parentId : invariant wfs (createFolder nm parentId).
Proof.
  intros s Hwf.
  destruct (createFolder_cases nm parentId s)
    as [[_ ->]|(pid & p & s2 & _ & _ & Hp & -> & Hs2)]; [done|].
  rewrite reads_toJSON. by eapply wfs_sk_create.
Qed.

Lemma move_to_cases f parentId s :
  wfs s →
  (state_of (move_to f parentId s) = s ∧
   (is_ok (move_to f parentId s) = true → truthy_opt parentId = false)) ∨
  ∃ pid p i q s', parentId = Some pid ∧ truthy_string pid = true ∧
     objects s !! pid = Some p ∧ is_Some (children s p) ∧
     id_of s f = Some i ∧ parents s !! i = Some (Some q) ∧
     move_to f parentId s = Ok tt s' ∧ skel s' = sk_move f i q p (skel s).
Proof.
  intros Hwf. unfold move_to.
  destruct parentId as [pid|]; [|by left].
  simpl. destruct (truthy_string pid) eqn:Htr; [|by left].
  unfold getParent, bind, gets, deref.
  destruct (objects s !! pid) as [p|] eqn:Hp; [|left; split; [done | by intros [=]]].
  destruct (heap s !! p) as [ep|] eqn:Hep; [|left; split; [done | by intros [=]]].
  destruct (type ep) eqn:Ht; [left; split; [done | by intros [=]]|].
  destruct (heap s !! f) as [e|] eqn:He; [|left; split; [done | by intros [=]]].
  destruct (lookup_parent s (id e)) as [q|] eqn:Hq;
    [|left; split; [done | by intros [=]]].
  right. apply lookup_parent_Some in Hq.
  pose proof (type_children s p ep Hep Ht) as Hcp.
  destruct (wf_par _ Hwf (id e) q Hq) as (a & esq & _ & Hesq & _).
  rewrite sk_kids_children in Hesq.
  destruct (Folder_remove_skel q f s esq Hesq) as (s1 & Hrm & Hs1).
  assert (id_of s1 f = Some (id e)) as Hf1.
  { rewrite <-sk_id_skel, Hs1, sk_id_remove, sk_id_skel. unfold id_of. by rewrite He. }
  assert (is_Some (children s1 p)) as Hp1.
  { rewrite <-sk_kids_children, Hs1. unfold sk_remove.
    rewrite sk_kids_children, Hesq, sk_kids_set_kids, sk_kids_children.
    destruct (decide (p = q)) as [->|]; [|done].
    rewrite (sk_id_skel s q). apply children_Some in Hesq as (eq & Heq & _).
    unfold id_of. rewrite Heq. by eexists. }
  destruct (register_skel f p s1 (id e) Hf1 Hp1) as (s2 & Hreg & Hs2).
  exists pid, p, (id e), q, s2. rewrite Hrm, Hreg.
  repeat split; try done.
  - unfold id_of. by rewrite He.
  - by rewrite Hs2, Hs1.
Qed.

(** A file is nobody's parent. *)
Lemma file_has_no_descendant k f p :
  wf k → sk_kids k f = None → ¬ up (sk_parentOf k) p f.
Proof.
  intros Hwf Hf (c & Hc)%up_last. apply sk_parentOf_Some in Hc as (j & _ & Hj).
  destruct (wf_par k Hwf j f Hj) as (a & es & _ & Hes & _). congruence.
Qed.

Lemma move_to_wfs f parentId s :
  wfs s →
  (∀ pid p, parentId = Some pid → truthy_string pid = true →
            objects s !! pid = Some p → is_Some (children s p) →
            p ≠ f ∧ ¬ up (sk_parentOf (skel s)) p f) →
  wfs (state_of (move_to f parentId s)).
Proof.
  intros Hwf Hlegal.
  destruct (move_to_cases f parentId s Hwf)
    as [[-> _]|(pid & p & i & q & s' & -> & Htr & Hp & Hcp & Hi & Hq & -> & Hs')];
    [done|].
  destruct (Hlegal pid p eq_refl Htr Hp Hcp) as [Hpf Hup].
  unfold wfs. simpl. rewrite Hs'. apply wf_sk_move; try done.
  - destruct (wf_par _ Hwf i q Hq) as (a & es & Ha & _).
    pose proof (wf_obj _ Hwf i a Ha) as Hia. rewrite sk_id_skel in Hia.
    rewrite <-sk_id_skel in Hi, Hia.
    by rewrite (wf_ids _ Hwf f a i Hi Hia).
  - by rewrite sk_kids_children.
Qed.

Lemma wfs_skel_eq s s' : skel s' = skel s → wfs s → wfs s'.
Proof. unfold wfs. by intros ->. Qed.

Lemma updateFile_wfs i nm c parentId : invariant wfs (updateFile i nm c parentId).
Proof.
  intros s Hwf. unfold updateFile, bind at 1, gets.
  destruct (objects s !! i) as [f|] eqn:Hf; [|done].
  unfold bind at 1, deref.
  destruct (heap s !! f) as [e|] eqn:He; [|done].
  destruct (type e) eqn:Ht; [|done].
  unfold bind at 1.
  pose proof (rename_to_skel f nm s) as Hk1.
  destruct (keeps_rename_to (stable type) f nm stable_type_name s f e He)
    as (e1 & He1 & Ht1).
  destruct (rename_to f nm s) as [[] s1|err s1]; simpl in *;
    [|by eapply wfs_skel_eq].
  assert (wfs s1) as Hwf1 by (by eapply wfs_skel_eq).
  unfold bind at 1.
  assert (skel (state_of ((if truthy_content c then File_set_content f c else ret tt) s1))
          = skel s1) as Hk2.
  { destruct (truthy_content c); [|done].
    unfold type in Ht1, Ht. destruct (body e1) as [c1|] eqn:Hb1.
    - by eapply File_set_content_skel.
    - by destruct (body e). }
  destruct ((if truthy_content c then File_set_content f c else ret tt) s1)
    as [[] s2|err s2]; simpl in *; [|by eapply wfs_skel_eq].
  assert (wfs s2) as Hwf2 by (by eapply wfs_skel_eq).
  unfold bind at 1.
  assert (wfs (state_of (move_to f parentId s2))) as Hwf3.
  { apply move_to_wfs; [done|]. intros pid p -> Htr Hp Hcp.
    assert (sk_kids (skel s2) f = None) as Hfile.
    { rewrite Hk2, Hk1, sk_kids_children. unfold children. rewrite He. simpl.
      unfold type in Ht. by destruct (body e). }
    split; [|by apply file_has_no_descendant].
    intros ->. rewrite sk_kids_children in Hfile. rewrite Hfile in Hcp.
    by destruct Hcp. }
  destruct (move_to f parentId s2) as [[] s3|err s3]; simpl in *; [|done].
  by rewrite reads_toJSON.
Qed.

Lemma up_ext (par par' : addr → option addr) a b :
  (∀ x, par' x = par x) → up par a b → up par' a b.
Proof. intros H. apply up_mono. intros x p. by rewrite H. Qed.

Lemma parentOf_skel_eq s s' :
  skel s' = skel s → ∀ x, sk_parentOf (skel s') x = parentOf s x.
Proof. intros E x. by rewrite E, sk_parentOf_skel. Qed.

Lemma updateFolder_wfs i nm parentId s :
  wfs s → no_cycle s (UpdateFolder i nm parentId) →
  wfs (state_of (updateFolder i nm parentId s)).
Proof.
  intros Hwf Hlegal. unfold updateFolder, bind at 1, gets.
  destruct (objects s !! i) as [f|] eqn:Hf; [|done].
  unfold bind at 1, deref.
  destruct (heap s !! f) as [e|] eqn:He; [|done].
  destruct (type e) eqn:Ht; [done|].
  unfold bind at 1.
  pose proof (rename_to_skel f nm s) as Hk1.
  destruct (rename_to f nm s) as [[] s1|err s1] eqn:Hren; simpl in *;
    [|by eapply wfs_skel_eq].
  assert (wfs s1) as Hwf1 by (by eapply wfs_skel_eq).
  assert (objects s1 = objects s) as Ho1.
  { change (sk_objects (skel s1) = sk_objects (skel s)). by rewrite Hk1. }
  unfold bind at 1.
  assert (wfs (state_of (move_to f parentId s1))) as Hwf3.
  { apply move_to_wfs; [done|]. intros pid p -> Htr Hp Hcp.
    simpl in Hlegal. rewrite Htr in Hlegal. rewrite Ho1 in Hp.
    destruct (Hlegal f p Hf Hp) as [Hpf Hanc]. split; [done|].
    intros Hup. apply Hanc. unfold ancestor.
    eapply up_ext; [|exact Hup]. intros x. symmetry. by apply parentOf_skel_eq. }
  destruct (move_to f parentId s1) as [[] s3|err s3]; simpl in *; [|done].
  by rewrite reads_toJSON.
Qed.

(** Every operation keeps the tree invariant, a move of a folder into itself
    or below itself apart. *)
Lemma exec_wfs op s : wfs s → no_cycle s op → wfs (exec op s).
Proof.
  intros Hwf Hlegal. destruct op; simpl.
  - by apply createFile_wfs.
  - by rewrite reads_getFile.
  - by rewrite reads_getFileContent.
  - by apply updateFile_wfs.
  - by apply deleteFile_wfs.
  - by apply createFolder_wfs.
  - by rewrite reads_getFolder.
  - by apply updateFolder_wfs.
  - by apply deleteFolder_wfs.
Qed.

(** The constructor. *)
Lemma new_ObjectStore_skel clk n0 rootFolderId :
  skel (new_ObjectStore clk n0 rootFolderId) =
  mkSk (S n0) [mkCell (root_id n0 rootFolderId) (Some [])]
       {[ root_id n0 rootFolderId := 0 ]} {[ root_id n0 rootFolderId := None ]}.
Proof.
  unfold new_ObjectStore, ObjectStore_constructor, new_Folder, root_id.
  destruct rootFolderId as [r|]; [destruct (truthy_string r) eqn:Htr|];
    unfold bind; simpl; rewrite ?Htr; simpl; reflexivity.
Qed.

Lemma root_id_fresh n0 rootFolderId (n : nat) :
  root_id_ok n0 rootFolderId → n0 < n → root_id n0 rootFolderId ≠ pretty n.
Proof.
  unfold root_id_ok, root_id. intros Hok Hn.
  destruct rootFolderId as [r|]; [destruct (truthy_string r)|].
  - by apply Hok.
  - intros E%(inj pretty). lia.
  - intros E%(inj pretty). lia.
Qed.

Lemma new_ObjectStore_wfs clk n0 rootFolderId :
  root_id_ok n0 rootFolderId → wfs (new_ObjectStore clk n0 rootFolderId).
Proof.
  intros Hok. unfold wfs. rewrite new_ObjectStore_skel.
  set (r := root_id n0 rootFolderId).
  assert (∀ k a i, sk_cells k = [mkCell r (Some [])] →
                   sk_id k a = Some i → a = 0 ∧ i = r) as Hid.
  { intros k a i Hk. unfold sk_id. rewrite Hk. destruct a as [|[|a]]; simpl; naive_solver. }
  split; simpl.
  - intros a b i Ha Hb. apply Hid in Ha as [-> _]; [|done]. by apply Hid in Hb as [-> _].
  - intros a n Hn Ha. apply Hid in Ha as [_ E]; [|done].
    symmetry in E. revert E. apply root_id_fresh; [done | lia].
  - intros i a [<- <-]%lookup_singleton_Some. done.
  - intros i q H%lookup_singleton_Some. naive_solver.
  - intros q es c. unfold sk_kids; simpl. destruct q as [|[|q]]; simpl; try done.
    intros [= <-] Hin. by apply elem_of_nil in Hin.
  - intros q es. unfold sk_kids; simpl. destruct q as [|[|q]]; simpl; try done.
    intros [= <-]. constructor.
  - intros a (p & Hp)%up_first. apply sk_parentOf_Some in Hp as (i & _ & Hi).
    simpl in Hi. apply lookup_singleton_Some in Hi. naive_solver.
Qed.

Lemma reachable_wfs s : reachable no_cycle s → wfs s.
Proof.
  induction 1 as [clk n0 rid Hok|s op _ IH Hop].
  - by apply new_ObjectStore_wfs.
  - by apply exec_wfs.
Qed.

Lemma wfs_acyclic s : wfs s → acyclic s.
Proof.
  intros Hwf a Ha. apply (wf_acyc _ Hwf a). unfold ancestor in Ha.
  eapply up_ext; [|exact Ha]. intros x. by rewrite sk_parentOf_skel.
Qed.

(** C2 (amended): after every sequence of operations in which no
    [updateFolder] names as new parent the folder itself or one of its
    descendants, on a store whose root id the counter never issues, no entry
    is an ancestor of itself. *)
Theorem parent_relation_acyclic s : reachable no_cycle s → acyclic s.
Proof. intros H. by apply wfs_acyclic, reachable_wfs. Qed.

(** ** Identifiers are never shared *)

Global Instance grows_preorder : PreOrder grows.
Proof.
  split.
  - intros s. split; [done|]. by rewrite Nat.sub_diag, app_nil_r.
  - intros s1 s2 s3 [Hle12 H12] [Hle23 H23]. split; [lia|].
    rewrite H23, H12, <-app_assoc, <-fmap_app. do 2 f_equal.
    replace (nextId s3 - nextId s1) with ((nextId s2 - nextId s1) + (nextId s3 - nextId s2))
      by lia.
    rewrite seq_app. do 2 f_equal. lia.
Qed.

Lemma grows_same s s' :
  nextId s' = nextId s → id <$> heap s' = id <$> heap s → grows s s'.
Proof.
  intros Hn Hh. split; [lia|]. by rewrite Hn, Hh, Nat.sub_diag, app_nil_r.
Qed.

Lemma ids_alter (g : Entry → Entry) a (h : list Entry) :
  (∀ e, id (g e) = id e) → id <$> alter g a h = id <$> h.
Proof.
  intros Hg. rewrite (list_fmap_alter id g (λ i, i)); [by apply list_alter_id|].
  by apply Forall_forall.
Qed.

Global Instance grows_frame : Frame grows.
Proof.
  split.
  - apply _.
  - intros s. by apply grows_same.
  - intros s f. by apply grows_same.
  - intros s f. by apply grows_same.
  - intros s a t. apply grows_same; [done|]. by apply ids_alter.
  - intros s p e es es' _ _. apply grows_same; [done|]. by apply ids_alter.
  - intros s nm b. split; simpl; [lia|].
    rewrite fmap_app. f_equal. replace (S (nextId s) - nextId s) with 1 by lia. done.
Qed.

Lemma grows_name : frames_name grows.
Proof. intros s a n. apply grows_same; [done|]. by apply ids_alter. Qed.

Lemma grows_content : frames_content grows.
Proof. intros s a e c c' _ _. apply grows_same; [done|]. by apply ids_alter. Qed.

Lemma exec_grows op s : grows s (exec op s).
Proof. apply keeps_exec; [apply _ | apply grows_name | apply grows_content]. Qed.

Lemma ids_inv_grows s s' : ids_inv s → grows s s' → ids_inv s'.
Proof.
  intros (r & n0 & Hlt & Hr & Hids) [Hle Hg]. exists r, n0.
  split; [lia|]. split; [done|].
  rewrite Hg, Hids. simpl. f_equal. rewrite <-fmap_app. f_equal.
  replace (nextId s' - S n0) with ((nextId s - S n0) + (nextId s' - nextId s)) by lia.
  rewrite seq_app. do 2 f_equal. lia.
Qed.

Lemma ids_inv_unique s : ids_inv s → ids_unique s.
Proof.
  intros (r & n0 & Hlt & Hr & Hids). unfold ids_unique. rewrite Hids.
  apply NoDup_cons. split.
  - intros (n & -> & Hn)%list_elem_of_fmap. apply elem_of_seq in Hn.
    apply (Hr n); [lia | done].
  - apply NoDup_fmap; [apply _ | apply NoDup_seq].
Qed.

Lemma new_ObjectStore_ids clk n0 rootFolderId :
  root_id_ok n0 rootFolderId → ids_inv (new_ObjectStore clk n0 rootFolderId).
Proof.
  intros Hok. exists (root_id n0 rootFolderId), n0.
  pose proof (new_ObjectStore_skel clk n0 rootFolderId) as Hk.
  assert (nextId (new_ObjectStore clk n0 rootFolderId) = S n0) as Hn.
  { change (sk_next (skel (new_ObjectStore clk n0 rootFolderId)) = S n0). by rewrite Hk. }
  assert (id <$> heap (new_ObjectStore clk n0 rootFolderId) = [root_id n0 rootFolderId])
    as Hh.
  { assert (cid <$> sk_cells (skel (new_ObjectStore clk n0 rootFolderId))
            = [root_id n0 rootFolderId]) as H by (by rewrite Hk).
    simpl in H. by rewrite <-list_fmap_compose in H. }
  rewrite Hn, Hh, Nat.sub_diag. split; [lia|]. split; [|done].
  intros n Hlt. by apply root_id_fresh.
Qed.

Lemma reachable_ids s : reachable any_op s → ids_inv s.
Proof.
  induction 1 as [clk n0 rid Hok|s op _ IH _].
  - by apply new_ObjectStore_ids.
  - eapply ids_inv_grows; [exact IH | apply exec_grows].
Qed.

(** C6 (amended): when the root id handed to the constructor is not one the
    counter issues later, then after every sequence of operations all entries
    the store ever constructed, deleted ones included, have distinct ids, and
    an operation never changes the id of an entry. *)
Theorem ids_never_shared s :
  reachable any_op s →
  ids_unique s ∧ ∀ op, (id <$> heap s) `prefix_of` (id <$> heap (exec op s)).
Proof.
  intros Hs. split.
  - by apply ids_inv_unique, reachable_ids.
  - intros op. destruct (exec_grows op s) as [_ ->]. by eexists.
Qed.

Lemma reachable_run allowed ops s :
  reachable allowed s → allowed_all allowed ops s → reachable allowed (run ops s).
Proof.
  revert s. induction ops as [|op ops IH]; intros s Hs Hall; [done|].
  destruct Hall as [Hop Hall]. apply IH; [|done]. by apply reach_exec.
Qed.

Lemma ids_never_shared_witness :
  ids_unique (run [CreateFile "a.txt" None CUndefined; DeleteFile "1";
                   CreateFolder "b" None; CreateFile "c.txt" (Some "2") CUndefined]
                  (new_ObjectStore (λ _, 0%Z) 0 (Some "0"))).
Proof.
  apply ids_never_shared, reachable_run.
  - apply reach_new. simpl. intros n Hn E.
    change "0" with (pretty 0) in E. apply (inj pretty) in E. lia.
  - simpl. unfold any_op. tauto.
Defined.

Lemma parent_relation_acyclic_witness :
  acyclic (run [CreateFolder "docs" None; CreateFolder "sub" (Some "1");
                CreateFile "a.txt" (Some "2") CUndefined;
                UpdateFolder "2" (Some "moved") (Some "0");
                DeleteFolder 3 "1"]
               (new_ObjectStore (λ _, 0%Z) 0 None)).
Proof.
  apply parent_relation_acyclic, reachable_run; [by apply reach_new|].
  cbn [allowed_all no_cycle]. change (truthy_string "0") with true. cbv iota.
  split; [exact I|]. split; [exact I|]. split; [exact I|]. split; [|by split].
  intros f p Hf Hp. vm_compute in Hf, Hp. injection Hf as <-. injection Hp as <-.
  split; [done|]. intros (q & Hq)%up_first. vm_compute in Hq. discriminate Hq.
Defined.

(** ** Moving an entry *)

Lemma sk_kids_move k f i q p a :
  wf k → sk_id k f = Some i →
  sk_kids (sk_move f i q p k) a = attach f p a <$> (detach f q a <$> sk_kids k a).
Proof.
  intros Hwf Hf. unfold sk_move. rewrite sk_kids_add, sk_kids_bind. f_equal.
  apply (sk_kids_remove q f k a i); try done.
  - apply Hwf.
  - intros es c Hes Hin. destruct (wf_kids k Hwf q es c Hes Hin) as (j & Hj & _).
    by exists j.
Qed.

Lemma updateFile_Ok i nm c parentId s r s' :
  updateFile i nm c parentId s = Ok r s' →
  ∃ f s2, objects s !! i = Some f ∧ skel s2 = skel s ∧
          move_to f parentId s2 = Ok tt s' ∧ toJSON f s' = Ok r s'.
Proof.
  unfold updateFile. intros H.
  apply bind_Ok in H as (file & s0 & H0 & H). unfold gets in H0. injection H0 as <- <-.
  destruct (objects s !! i) as [f|] eqn:Hf; [|done].
  apply bind_Ok in H as (e & s0 & [He ->]%deref_Ok & H).
  destruct (type e) eqn:Ht; [|done].
  apply bind_Ok in H as ([] & s1 & H1 & H).
  apply bind_Ok in H as ([] & s2 & H2 & H).
  apply bind_Ok in H as ([] & s3 & H3 & H).
  pose proof (reads_Ok _ _ _ _ (reads_toJSON f) H) as ->.
  exists f, s2. repeat split; try done.
  pose proof (rename_to_skel f nm s) as Hk1. rewrite H1 in Hk1. simpl in Hk1.
  destruct (keeps_rename_to (stable type) f nm stable_type_name s f e He)
    as (e1 & He1 & Ht1).
  rewrite H1 in He1. simpl in He1.
  rewrite <-Hk1. destruct (truthy_content c).
  - unfold type in Ht, Ht1. destruct (body e1) as [c1|] eqn:Hb1.
    + pose proof (File_set_content_skel f c s1 e1 c1 He1 Hb1) as Hk2.
      by rewrite H2 in Hk2.
    + by destruct (body e).
  - unfold ret in H2. by injection H2 as <-.
Qed.

Lemma updateFolder_Ok i nm parentId s r s' :
  updateFolder i nm parentId s = Ok r s' →
  ∃ f s2, objects s !! i = Some f ∧ skel s2 = skel s ∧
          move_to f parentId s2 = Ok tt s' ∧ toJSON f s' = Ok r s'.
Proof.
  unfold updateFolder. intros H.
  apply bind_Ok in H as (file & s0 & H0 & H). unfold gets in H0. injection H0 as <- <-.
  destruct (objects s !! i) as [f|] eqn:Hf; [|done].
  apply bind_Ok in H as (e & s0 & [He ->]%deref_Ok & H).
  destruct (type e) eqn:Ht; [done|].
  apply bind_Ok in H as ([] & s1 & H1 & H).
  apply bind_Ok in H as ([] & s3 & H3 & H).
  pose proof (reads_Ok _ _ _ _ (reads_toJSON f) H) as ->.
  exists f, s1. repeat split; try done.
  pose proof (rename_to_skel f nm s) as Hk1. by rewrite H1 in Hk1.
Qed.

(** C7: a successful [updateFile] or [updateFolder] that moves an entry to a
    different parent removes the entry from the child list of the old parent,
    which becomes one shorter, and appends it to the child list of the new
    parent, which becomes one longer. *)
Theorem move_changes_child_lists s m r s' f q p :
  reachable no_cycle s →
  move_call m s = Ok r s' →
  truthy_string (target_id m) = true →
  objects s !! moved_id m = Some f →
  parentOf s f = Some q →
  objects s !! target_id m = Some p →
  q ≠ p →
  ∃ esq esp,
    children s q = Some esq ∧ children s p = Some esp ∧
    f ∈ esq ∧
    children s' q = Some (filter (λ x, x ≠ f) esq) ∧
    length (filter (λ x, x ≠ f) esq) + 1 = length esq ∧
    children s' p = Some (esp ++ [f]) ∧
    length (esp ++ [f]) = length esp + 1.
Proof.
  intros Hwf%reachable_wfs Hcall Htr Hf Hq Hp Hqp.
  assert (∃ s2, skel s2 = skel s ∧ move_to f (Some (target_id m)) s2 = Ok tt s')
    as (s2 & Hk2 & Hmove).
  { destruct m as [i nm c pid|i nm pid]; simpl in *.
    - apply updateFile_Ok in Hcall as (f' & s2 & Hf' & Hk2 & Hmove & _).
      rewrite Hf in Hf'. injection Hf' as <-. eauto.
    - apply updateFolder_Ok in Hcall as (f' & s2 & Hf' & Hk2 & Hmove & _).
      rewrite Hf in Hf'. injection Hf' as <-. eauto. }
  assert (wfs s2) as Hwf2 by (by eapply wfs_skel_eq).
  destruct (move_to_cases f (Some (target_id m)) s2 Hwf2)
    as [[_ Hno]|(pid & p' & i & q' & s3 & [= <-] & _ & Hp' & Hcp & Hi & Hq' & Hmv & Hk3)].
  { rewrite Hmove in Hno. specialize (Hno eq_refl). simpl in Hno. congruence. }
  rewrite Hmove in Hmv. injection Hmv as <-.
  assert (objects s2 = objects s) as Ho2.
  { change (sk_objects (skel s2) = sk_objects (skel s)). by rewrite Hk2. }
  rewrite Ho2, Hp in Hp'. injection Hp' as <-.
  rewrite <-sk_id_skel, Hk2 in Hi.
  assert (q' = q) as ->.
  { rewrite <-sk_parentOf_skel in Hq. apply sk_parentOf_Some in Hq as (j & Hj & Hpj).
    assert (j = i) as -> by congruence.
    change (sk_parents (skel s2) !! i = Some (Some q')) in Hq'. rewrite Hk2 in Hq'.
    congruence. }
  change (sk_parents (skel s2) !! i = Some (Some q)) in Hq'. rewrite Hk2 in Hq'.
  destruct (wf_par _ Hwf i q Hq') as (a & esq & Ha & Hesq & Hin).
  assert (a = f) as ->.
  { apply (wf_obj _ Hwf) in Ha. by eapply (wf_ids _ Hwf). }
  rewrite <-sk_kids_children, Hk2 in Hcp. destruct Hcp as [esp Hesp].
  exists esq, esp. rewrite <-!sk_kids_children, Hk3, Hk2.
  rewrite !(sk_kids_move _ f i q p) by done. rewrite Hesq, Hesp. simpl.
  unfold attach, detach.
  rewrite (decide_True (P := q = q)), (decide_False (P := q = p)) by done.
  rewrite (decide_False (P := p = q)), (decide_True (P := p = p)) by done.
  repeat split; try done.
  - apply length_filter_drop; [|done]. by eapply (wf_nodup _ Hwf).
  - rewrite length_app. simpl. lia.
Qed.

(** ** Deleting a folder deletes its subtree *)

Lemma parentOf_Some s a p :
  parentOf s a = Some p ↔ ∃ i, id_of s a = Some i ∧ parents s !! i = Some (Some p).
Proof.
  rewrite <-sk_parentOf_skel, sk_parentOf_Some. by setoid_rewrite sk_id_skel.
Qed.

(** An entry with a parent is registered, and listed by the parent. *)
Lemma parent_registered s a q :
  wfs s → parentOf s a = Some q →
  ∃ i es, id_of s a = Some i ∧ objects s !! i = Some a ∧
          parents s !! i = Some (Some q) ∧ children s q = Some es ∧ a ∈ es.
Proof.
  intros Hwf (i & Hi & Hp)%parentOf_Some.
  destruct (wf_par _ Hwf i q Hp) as (a' & es & Ha' & Hes & Hin).
  assert (a' = a) as ->.
  { apply (wf_obj _ Hwf) in Ha'. rewrite <-sk_id_skel in Hi. by eapply (wf_ids _ Hwf). }
  exists i, es. by rewrite <-sk_kids_children.
Qed.

Lemma child_parent s q es c :
  wfs s → children s q = Some es → c ∈ es → parentOf s c = Some q.
Proof.
  intros Hwf Hes Hin. rewrite <-sk_kids_children in Hes.
  destruct (wf_kids _ Hwf q es c Hes Hin) as (i & Hi & Hp).
  apply parentOf_Some. exists i. by rewrite <-sk_id_skel.
Qed.

Lemma registered_id s i a : wfs s → objects s !! i = Some a → id_of s a = Some i.
Proof. intros Hwf Ha. rewrite <-sk_id_skel. by apply (wf_obj _ Hwf). Qed.

Lemma ancestor_trans s a b c : ancestor s a b → ancestor s b c → ancestor s a c.
Proof. unfold ancestor. intros Hab Hbc. by eapply up_trans. Qed.

Lemma below_trans s x y z : below s x y → below s y z → below s x z.
Proof.
  intros [->|Hxy] [->|Hyz]; [by left | by right | by right |].
  right. by eapply ancestor_trans.
Qed.

Lemma below_parent s c a : parentOf s c = Some a → below s c a.
Proof. intros H. right. by apply up_parent. Qed.

(** The subtrees of two children of a folder are disjoint. *)
Lemma siblings_disjoint s a c c' x :
  wfs s → parentOf s c = Some a → parentOf s c' = Some a → c ≠ c' →
  below s x c → below s x c' → False.
Proof.
  intros Hwf Hc Hc' Hne Hx Hx'.
  pose proof (wfs_acyclic s Hwf) as Hac.
  assert (∀ d d', parentOf s d = Some a → parentOf s d' = Some a → 
                  ancestor s d' d → False) as Hstrict.
  { intros d d' Hd Hd' Hup. unfold ancestor in Hup.
    inversion Hup as [? p Hp|? p ? Hp Hrest]; subst; rewrite Hd in Hp; injection Hp as <-.
    - apply (Hac a). by apply up_parent.
    - apply (Hac a). unfold ancestor. eapply up_trans; [exact Hrest|]. by apply up_parent. }
  destruct Hx as [Ex|Hx], Hx' as [Ex'|Hx'].
  - congruence.
  - subst x. exact (Hstrict c c' Hc Hc' Hx').
  - subst x. exact (Hstrict c' c Hc' Hc Hx).
  - destruct (up_linear _ _ _ _ Hx Hx') as [E|[H|H]]; [done|..].
    + exact (Hstrict c c' Hc Hc' H).
    + exact (Hstrict c' c Hc' Hc H).
Qed.

Global Instance shrinks_preorder : PreOrder shrinks.
Proof.
  split.
  - intros s. by split.
  - intros s1 s2 s3 [L12 I12 O12 P12] [L23 I23 O23 P23]. split.
    + congruence.
    + intros x. by rewrite I23.
    + by etrans.
    + by etrans.
Qed.

Lemma shrinks_parentOf s s' x p :
  shrinks s s' → parentOf s' x = Some p → parentOf s x = Some p.
Proof.
  intros Hsh. rewrite !parentOf_Some. intros (i & Hi & Hp). exists i.
  rewrite <-(sh_ids _ _ Hsh). split; [done|].
  by eapply lookup_weaken, sh_parents.
Qed.

Lemma shrinks_below s s' x a : shrinks s s' → below s' x a → below s x a.
Proof.
  intros Hsh [->|Hx]; [by left|]. right. unfold ancestor in *.
  eapply up_mono; [|exact Hx]. intros z p. by apply shrinks_parentOf.
Qed.

Lemma up_preserved_from (par par' : addr → option addr) x y :
  (∀ z, z = x ∨ up par x z → up par z y → par' z = par z) →
  up par x y → up par' x y.
Proof.
  intros Hsame Hup. induction Hup as [x p Hp|x p y Hp Hrest IH].
  - apply up_parent. rewrite Hsame; [done | by left | by apply up_parent].
  - eapply up_step.
    + rewrite Hsame; [done | by left | by eapply up_step].
    + apply IH. intros z Hz Hzy. apply Hsame; [|done].
      right. destruct Hz as [->|Hz]; [by apply up_parent | by eapply up_step].
Qed.

(** The last step of a path, with what precedes it. *)
Lemma up_last_step (par : addr → option addr) x a :
  up par x a → ∃ c, par c = Some a ∧ (x = c ∨ up par x c).
Proof.
  induction 1 as [x p Hp|x p a Hp Hrest (c & Hc & IH)].
  - exists x. auto.
  - exists c. split; [done|]. right.
    destruct IH as [->|IH]; [by apply up_parent | by eapply up_step].
Qed.

Lemma shrinks_of_skel s s' :
  length (sk_cells (skel s')) = length (sk_cells (skel s)) →
  (∀ x, sk_id (skel s') x = sk_id (skel s) x) →
  sk_objects (skel s') ⊆ sk_objects (skel s) →
  sk_parents (skel s') ⊆ sk_parents (skel s) →
  shrinks s s'.
Proof.
  rewrite !length_sk_cells. intros HL Hid Ho Hp. split; try done.
  intros x. by rewrite <-!sk_id_skel.
Qed.

Lemma length_sk_remove q f k :
  length (sk_cells (sk_remove q f k)) = length (sk_cells k).
Proof. unfold sk_remove. destruct (sk_kids k q); simpl; [apply length_alter | done]. Qed.

(** [#unregister] of an entry with id [i]. *)
Lemma unregister_post s f i :
  wfs s → id_of s f = Some i →
  wfs (state_of (unregister f s)) ∧
  shrinks s (state_of (unregister f s)) ∧
  objects (state_of (unregister f s)) = delete i (objects s) ∧
  parents (state_of (unregister f s)) = delete i (parents s) ∧
  (is_Some (parentOf s f) → is_ok (unregister f s) = true).
Proof.
  intros Hwf Hi. split; [by apply unregister_wfs|].
  destruct (unregister_cases f s Hwf) as [[Hnone _]|(i' & Hi' & H)]; [congruence|].
  assert (i' = i) as -> by congruence.
  assert (parentOf s f = lookup_parent s i) as Hpar.
  { unfold parentOf. unfold id_of in Hi. by destruct (heap s !! f); simplify_eq/=. }
  destruct H as [(Hp & s' & -> & Hs')|(q & Hq & s' & -> & Hs')]; simpl.
  - split; [|split; [|split]].
    + apply shrinks_of_skel; rewrite Hs'; simpl; try done; apply delete_subseteq.
    + change (sk_objects (skel s') = delete i (objects s)). by rewrite Hs'.
    + change (sk_parents (skel s') = delete i (parents s)). by rewrite Hs'.
    + rewrite Hpar, Hp. by intros [? ?].
  - split; [|split; [|split]]; [|..|done].
    + apply shrinks_of_skel; rewrite Hs'; unfold sk_unregister.
      * by rewrite length_sk_remove.
      * intros x. by rewrite sk_id_remove.
      * rewrite sk_objects_remove. apply delete_subseteq.
      * rewrite sk_parents_remove. apply delete_subseteq.
    + change (sk_objects (skel s') = delete i (objects s)). rewrite Hs'.
      unfold sk_unregister. by rewrite sk_objects_remove.
    + change (sk_parents (skel s') = delete i (parents s)). rewrite Hs'.
      unfold sk_unregister. by rewrite sk_parents_remove.
Qed.

Lemma parentOf_id s z i : id_of s z = Some i → parentOf s z = lookup_parent s i.
Proof.
  unfold parentOf, id_of. intros H. by destruct (heap s !! z); simplify_eq/=.
Qed.

Lemma outside_parentOf s s' c z :
  wfs s → shrinks s s' → keeps_outside s s' c →
  is_Some (parentOf s z) → ¬ below s z c → parentOf s' z = parentOf s z.
Proof.
  intros Hwf Hsh Hout [q Hq] Hz.
  destruct (parent_registered s z q Hwf Hq) as (i & es & Hi & Ho & _).
  destruct (Hout i z Ho Hz) as [_ Hp].
  rewrite (parentOf_id s z i Hi), (parentOf_id s' z i) by (by rewrite (sh_ids _ _ Hsh)).
  unfold lookup_parent. by rewrite Hp.
Qed.

(** An ancestor of [a], or [a] itself, is not in the subtree of a child of
    [a]. *)
Lemma above_not_below s a c z :
  wfs s → parentOf s c = Some a → z = a ∨ ancestor s z a → ¬ below s z c.
Proof.
  intros Hwf Hc Hz Hb. apply (wfs_acyclic s Hwf a).
  assert (below s a c) as Hac.
  { destruct Hz as [->|Hz]; [done|].
    destruct Hb as [->|Hb].
    - by right.
    - right. unfold ancestor in *. eapply up_trans; [exact Hz | exact Hb]. }
  unfold ancestor. destruct Hac as [->|Hac].
  - by apply up_parent.
  - unfold ancestor in Hac. eapply up_trans; [exact Hac|]. by apply up_parent.
Qed.

Lemma valid_of_ancestor s y a : wfs s → ancestor s y a → y < length (heap s).
Proof.
  intros Hwf (c & Hc)%up_last.
  destruct (parent_registered s c y Hwf Hc) as (_ & es & _ & _ & _ & Hes & _).
  apply children_Some in Hes as (e & He & _). by eapply lookup_lt_Some.
Qed.

Lemma pigeonhole (l : list nat) (n : nat) :
  NoDup l → (∀ y, y ∈ l → y < n) → (length l ≤ n)%nat.
Proof.
  intros Hnd Hlt.
  assert (l ⊆+ seq 0 n) as Hsub.
  { apply NoDup_submseteq; [done|]. intros y Hy. apply elem_of_seq.
    specialize (Hlt y Hy). lia. }
  apply submseteq_length in Hsub. by rewrite length_seq in Hsub.
Qed.

Lemma deletes_at_0 : deletes_at 0.
Proof.
  intros s i a path Hwf Ha Hdir Hnd Hanc Hlen. exfalso.
  assert (length (a :: path) ≤ length (heap s))%nat; [|simpl in *; lia].
  apply pigeonhole; [done|]. intros y [->|Hy]%elem_of_cons.
  - apply (registered_id s i a Hwf) in Ha. unfold id_of in Ha.
    apply fmap_Some in Ha as (e & He & _). by eapply lookup_lt_Some.
  - eapply valid_of_ancestor; eauto.
Qed.

(** The deletion of a file that is a child. *)
Lemma deleteFile_deleted s c a i :
  wfs s → parentOf s c = Some a → id_of s c = Some i → children s c = None →
  deleted s c (state_of (deleteFile i s)) ∧ is_ok (deleteFile i s) = true.
Proof.
  intros Hwf Hpar Hi Hfile.
  destruct (parent_registered s c a Hwf Hpar) as (i' & es & Hi' & Ho & Hp & Hes & Hin).
  assert (i' = i) as -> by congruence.
  pose proof Hi as (e & He & Hid)%fmap_Some.
  assert (type e = TFile) as Ht.
  { unfold children in Hfile. rewrite He in Hfile. simpl in Hfile.
    unfold type. by destruct (body e). }
  assert (deleteFile i s = unregister c s) as E.
  { unfold deleteFile, bind, gets, deref. by rewrite Ho, He, Ht. }
  rewrite E.
  destruct (unregister_post s c i Hwf Hi) as (Hwf' & Hsh & Hobj & Hpars & Hok).
  split; [|apply Hok; by rewrite Hpar].
  split; try done.
  - intros j x Hx Hnb.
    assert (j ≠ i) as Hne.
    { intros ->. apply Hnb. left. congruence. }
    by rewrite Hobj, Hpars, !lookup_delete_ne.
  - intros j x Hx Hb. rewrite Hobj.
    destruct Hb as [->|Hb].
    + assert (j = i) as ->; [|apply lookup_delete_eq].
      apply (registered_id s j c Hwf) in Hx. congruence.
    + exfalso. unfold ancestor in Hb. apply up_last in Hb as (z & Hz).
      destruct (parent_registered s z c Hwf Hz) as (_ & es' & _ & _ & _ & Hes' & _).
      congruence.
Qed.

Lemma lookup_subseteq_None {A} (m m' : gmap string A) j :
  m ⊆ m' → m' !! j = None → m !! j = None.
Proof.
  intros Hsub Hn. destruct (m !! j) eqn:E; [|done].
  by rewrite (lookup_weaken _ _ _ _ E Hsub) in Hn.
Qed.

(** One iteration of the loop, on a child [c] of [a]. *)
Lemma delete_entry_deleted fuel s c a path :
  deletes_at fuel → wfs s → parentOf s c = Some a →
  NoDup (a :: path) → (∀ y, y ∈ path → ancestor s y a) →
  length (heap s) < S fuel + length (a :: path) →
  deleted s c (state_of (delete_entry fuel c s)) ∧
  is_ok (delete_entry fuel c s) = true.
Proof.
  intros IH Hwf Hpar Hnd Hanc Hlen.
  destruct (parent_registered s c a Hwf Hpar) as (i & es & Hi & Ho & Hp & Hes & Hin).
  pose proof Hi as (e & He & Hid)%fmap_Some.
  unfold delete_entry, bind, deref. rewrite He, <-Hid.
  destruct (type e) eqn:Ht.
  - apply (deleteFile_deleted s c a i); try done.
    unfold children. rewrite He. simpl. unfold type in Ht. by destruct (body e).
  - assert (is_Some (children s c)) as Hdir by (by eapply type_children).
    destruct (IH s i c (a :: path)) as [Hdel Hok]; try done.
    + apply NoDup_cons. split; [|done]. intros Hc.
      apply (above_not_below s a c c Hwf Hpar); [|by left].
      apply elem_of_cons in Hc as [->|Hc]; [by left | right; by apply Hanc].
    + intros y [->|Hy]%elem_of_cons.
      * by apply up_parent.
      * unfold ancestor. eapply up_step; [exact Hpar | by apply Hanc].
    + simpl in *. lia.
    + split; [done|]. apply Hok. by rewrite Hpar.
Qed.

(** The loop over the children [rest] of [a]. *)
Lemma delete_children fuel a path :
  deletes_at fuel →
  ∀ rest s,
    wfs s → NoDup rest → (∀ c, c ∈ rest → parentOf s c = Some a) →
    NoDup (a :: path) → (∀ y, y ∈ path → ancestor s y a) →
    length (heap s) < S fuel + length (a :: path) →
    ∃ s', forM_ rest (delete_entry fuel) s = Ok tt s' ∧ deleted_all s rest s'.
Proof.
  intros IH. induction rest as [|c rest IHrest]; intros s Hwf Hnd Hkids Hpath Hanc Hlen.
  { exists s. split; [done|]. split; try done.
    intros j x c Hc. by apply elem_of_nil in Hc. }
  apply NoDup_cons in Hnd as [Hc Hnd].
  assert (parentOf s c = Some a) as Hpar by (apply Hkids; by left).
  destruct (delete_entry_deleted fuel s c a path IH Hwf Hpar Hpath Hanc Hlen)
    as [[Hwf1 Hsh1 Hout1 Hin1] Hok].
  simpl. unfold bind.
  destruct (delete_entry fuel c s) as [[] s1|err s1]; [|done]. simpl in *.
  assert (∀ z, is_Some (parentOf s z) → ¬ below s z c → parentOf s1 z = parentOf s z)
    as Hsame by (intros z; by apply outside_parentOf).
  assert (∀ c', c' ∈ rest → c ≠ c') as Hne by (intros c' Hc' ->; done).
  destruct (IHrest s1) as (s2 & Hrun & [Hwf2 Hsh2 Hout2 Hin2]); try done.
  - intros c' Hc'.
    assert (parentOf s c' = Some a) as Hpar' by (apply Hkids; by right).
    rewrite Hsame; [done | by rewrite Hpar' |].
    intros Hb. eapply (siblings_disjoint s a c c' c'); eauto. by left.
  - intros y Hy. unfold ancestor.
    apply (up_preserved_from (parentOf s)); [|by apply Hanc].
    intros z Hz Hzy. apply Hsame.
    + apply up_first in Hzy as [p ->]. by eexists.
    + by apply (above_not_below s a c z).
  - by rewrite (sh_length _ _ Hsh1).
  - exists s2. split; [done|]. split; [done | by etrans | |].
    + intros j x Hx Hnb.
      destruct (Hout1 j x Hx) as [Hx1 Hp1]; [apply Hnb; by left|].
      destruct (Hout2 j x Hx1) as [Hx2 Hp2].
      { intros c' Hc' Hb. apply (Hnb c'); [by right|]. by eapply shrinks_below. }
      split; [done | congruence].
    + intros j x c0 [->|Hc0]%elem_of_cons Hx Hb.
      * eapply lookup_subseteq_None; [apply (sh_objects _ _ Hsh2)|]. by eapply Hin1.
      * assert (parentOf s c0 = Some a) as Hpar0 by (apply Hkids; by right).
        assert (¬ below s x c) as Hnb.
        { intros Hbc. eapply (siblings_disjoint s a c c0 x); eauto. }
        destruct (Hout1 j x Hx Hnb) as [Hx1 _].
        apply (Hin2 j x c0 Hc0 Hx1).
        destruct Hb as [->|Hb]; [by left|]. right. unfold ancestor in *.
        apply (up_preserved_from (parentOf s)); [|done].
        intros z Hz Hzc0. apply Hsame.
        -- apply up_first in Hzc0 as [p ->]. by eexists.
        -- intros Hzc. eapply (siblings_disjoint s a c c0 z); eauto. by right.
Qed.

Lemma deleteFolder_unfold fuel i s a e es :
  objects s !! i = Some a → heap s !! a = Some e → body e = Folder es →
  deleteFolder (S fuel) i s = (forM_ es (delete_entry fuel) ;;; unregister a) s.
Proof.
  intros Ha He Hb. simpl. unfold bind at 1, gets. rewrite Ha.
  unfold bind at 1, deref at 1. rewrite He, Hb. reflexivity.
Qed.

Lemma deletes_at_S fuel : deletes_at fuel → deletes_at (S fuel).
Proof.
  intros IH s i a path Hwf Ha [es Hes] Hnd Hanc Hlen.
  pose proof Hes as (e & He & Hb)%children_Some.
  rewrite (deleteFolder_unfold fuel i s a e es Ha He Hb).
  pose proof (registered_id s i a Hwf Ha) as Hi.
  destruct (delete_children fuel a path IH es s) as (s1 & Hloop & [Hwf1 Hsh1 Hout1 Hin1]);
    try done.
  { rewrite <-sk_kids_children in Hes. by eapply (wf_nodup _ Hwf). }
  { intros c Hc. by eapply child_parent. }
  unfold bind. rewrite Hloop.
  assert (id_of s1 a = Some i) as Hi1 by (by rewrite (sh_ids _ _ Hsh1)).
  destruct (unregister_post s1 a i Hwf1 Hi1) as (Hwf' & Hsh' & Hobj & Hpars & Hok).
  assert (∀ x c, c ∈ es → below s x c → below s x a) as Hdown.
  { intros x c Hc Hxc. eapply below_trans; [exact Hxc|].
    apply below_parent. by eapply child_parent. }
  assert (∀ c, c ∈ es → ¬ below s a c) as Ha_out.
  { intros c Hc. apply (above_not_below s a c a); [done | by eapply child_parent | by left]. }
  split.
  - split; [done | by etrans | |].
    + intros j x Hx Hnb.
      destruct (Hout1 j x Hx) as [Hx1 Hp1].
      { intros c Hc Hxc. apply Hnb. by eapply Hdown. }
      assert (j ≠ i) as Hne.
      { intros ->. apply Hnb. left. congruence. }
      by rewrite Hobj, Hpars, !lookup_delete_ne.
    + intros j x Hx Hxa. rewrite Hobj. apply lookup_delete_None.
      destruct Hxa as [->|Hxa].
      * left. apply (registered_id s j a Hwf) in Hx. congruence.
      * right. unfold ancestor in Hxa. apply up_last_step in Hxa as (c & Hc & Hxc).
        destruct (parent_registered s c a Hwf Hc) as (_ & es' & _ & _ & _ & Hes' & Hin).
        assert (es' = es) as -> by congruence.
        apply (Hin1 j x c Hin Hx). destruct Hxc as [->|Hxc]; [by left | by right].
  - intros Hpar. apply Hok.
    destruct (Hout1 i a Ha Ha_out) as [_ Hp1].
    rewrite (parentOf_id s1 a i Hi1). rewrite (parentOf_id s a i Hi) in Hpar.
    unfold lookup_parent in *. by rewrite Hp1.
Qed.

Lemma deleteFolder_deletes fuel : deletes_at fuel.
Proof. induction fuel; [apply deletes_at_0 | by apply deletes_at_S]. Qed.




Lemma demo_store_reachable : reachable no_cycle demo_store.
Proof.
  apply reachable_run.
  - apply reach_new. simpl. intros n Hn E.
    change "0" with (pretty 0) in E. apply (inj pretty) in E. lia.
  - simpl. tauto.
Qed.


Lemma move_changes_child_lists_witness :
  ∃ r s', move_call (MoveFile "2" None CUndefined "3") demo_store = Ok r s' ∧
    children demo_store 1 = Some [2; 3] ∧ children s' 1 = Some [3] ∧
    children demo_store 3 = Some [4] ∧ children s' 3 = Some [4; 2].
Proof.
  destruct (move_call (MoveFile "2" None CUndefined "3") demo_store) as [r s'|e s'] eqn:E;
    [|vm_compute in E; discriminate E].
  exists r, s'. split; [reflexivity|].
  assert (objects demo_store !! "2" = Some 2) as Hf by (by vm_compute).
  assert (parentOf demo_store 2 = Some 1) as Hq by (by vm_compute).
  assert (objects demo_store !! "3" = Some 3) as Hp by (by vm_compute).
  destruct (move_changes_child_lists demo_store (MoveFile "2" None CUndefined "3")
              r s' 2 1 3 demo_store_reachable E eq_refl Hf Hq Hp)
    as (esq & esp & Hesq & Hesp & _ & Hq' & _ & Hp' & _); [lia|].
  vm_compute in Hesq. injection Hesq as <-.
  vm_compute in Hesp. injection Hesp as <-.
  repeat split; try (by vm_compute); assumption.
Defined.

(** ** Copies: shapes *)






(** ** One copied entry *)

Lemma register_created {A} (new : M addr) (k : addr → M A) nm b p es s ep :
  new s = new_Entry nm b s →
  heap s !! p = Some ep → body ep = Folder es →
  (let* copy := new in register copy (Some p) ;;; k copy) s
    = k (length (heap s)) (created nm b p es s).
Proof.
  intros Hnew Hp Hb.
  unfold bind at 1. rewrite Hnew.
  unfold new_Entry, fresh_id, new_Date, bind. simpl.
  unfold register, bind, deref, modify. simpl.
  rewrite list_lookup_middle by done. simpl.
  unfold Folder_add, Folder_entries, update, modify, bind, deref, new_Date. simpl.
  rewrite lookup_app_l by (by eapply lookup_lt_Some).
  rewrite Hp. simpl. rewrite Hb. reflexivity.
Qed.

Lemma created_skel (dir : bool) (new : M addr) nm b p es s ep :
  new s = new_Entry nm b s →
  (∃ s', new s = Ok (length (heap s)) s' ∧ skel s' = sk_alloc dir (skel s) ∧
         id_of s' (length (heap s)) = Some (pretty (nextId s))) →
  heap s !! p = Some ep → body ep = Folder es →
  skel (created nm b p es s) = sk_create dir p (skel s).
Proof.
  intros Hnew Hsk Hp Hb.
  assert (is_Some (children s p)) as Hc.
  { exists es. apply children_Some. eauto. }
  destruct (create_skel dir new p s Hsk Hc) as (s2 & Hrun & Hs2).
  pose proof (register_created new ret nm b p es s ep Hnew Hp Hb) as Hcr.
  destruct Hsk as (s0 & Hs0 & _).
  unfold bind in Hrun, Hcr. rewrite Hs0 in Hrun, Hcr.
  destruct (register (length (heap s)) (Some p) s0) as [[] sx|err sx]; [|done].
  injection Hcr as <-.
  rewrite <-Hs2, <-(reads_toJSON (length (heap s)) s2), <-Hrun.
  by rewrite reads_toJSON.
Qed.

Lemma created_heap nm b p es s ep :
  heap s !! p = Some ep → body ep = Folder es →
  let l := length (heap s) in
  let t := clock s (S (S (ticks s))) in
  length (heap (created nm b p es s)) = S l ∧
  heap (created nm b p es s) !! l =
    Some (mkEntry (pretty (nextId s)) nm (clock s (ticks s)) t b) ∧
  heap (created nm b p es s) !! p =
    Some (set_modifiedAt t (set_body (Folder (es ++ [l])) ep)) ∧
  ∀ x e, x ≠ p → heap s !! x = Some e → heap (created nm b p es s) !! x = Some e.
Proof.
  intros Hp Hb l t.
  assert (p < l) as Hlt by (by eapply lookup_lt_Some).
  unfold created. simpl. fold l. fold t. repeat split.
  - rewrite !length_alter, length_app. simpl. lia.
  - rewrite list_lookup_alter_eq.
    rewrite !list_lookup_alter_ne by lia.
    by rewrite list_lookup_middle.
  - rewrite list_lookup_alter_ne by lia.
    rewrite !list_lookup_alter_eq. rewrite lookup_app_l by done. by rewrite Hp.
  - intros x e Hx He.
    assert (x < l) by (by eapply lookup_lt_Some).
    rewrite !list_lookup_alter_ne by lia.
    by rewrite lookup_app_l.
Qed.




(** Constructing an entry and registering it under [p] extends the store. *)
Lemma created_extends (dir : bool) (new : M addr) nm b p es s ep :
  wfs s →
  new s = new_Entry nm b s →
  (∃ s', new s = Ok (length (heap s)) s' ∧ skel s' = sk_alloc dir (skel s) ∧
         id_of s' (length (heap s)) = Some (pretty (nextId s))) →
  heap s !! p = Some ep → body ep = Folder es →
  extends s p (created nm b p es s).
Proof.
  intros Hwf Hnew Hsk Hp Hb.
  destruct (created_heap nm b p es s ep Hp Hb) as (Hlen & Hl & Hp' & Hold).
  split.
  - eapply (wfs_sk_create s _ dir p); [done| |by eapply created_skel].
    exists es. apply children_Some. eauto.
  - rewrite Hlen. lia.
  - simpl. lia.
  - simpl. lia.
  - done.
  - exact Hold.
  - intros e He. rewrite Hp in He. injection He as <-.
    eexists. split; [exact Hp'|]. repeat split.
    + unfold type. simpl. by rewrite Hb.
    + right. exists (S (S (ticks s))). split; [lia|done].
  - intros x e Hx He.
    assert (x = length (heap s)) as ->.
    { apply lookup_lt_Some in He. rewrite Hlen in He. lia. }
    rewrite Hl in He. injection He as <-. repeat split; simpl.
    + exists (nextId s). split; [lia|done].
    + exists (ticks s). split; [lia|done].
    + exists (S (S (ticks s))). split; [lia|done].
  - intros i Hi. simpl. apply lookup_insert_ne. intros E. by apply (Hi (nextId s)).
  - intros i Hi. simpl. apply lookup_insert_ne. intros E. by apply (Hi (nextId s)).
Qed.

(** ** The recursion of the copy *)





(** ** The subtree of an entry can be read *)

Lemma child_valid s q es c : wfs s → children s q = Some es → c ∈ es → is_Some (heap s !! c).
Proof.
  intros Hwf Hes Hin. rewrite <-sk_kids_children in Hes.
  destruct (wf_kids _ Hwf q es c Hes Hin) as (i & Hi & _).
  rewrite sk_id_skel in Hi. apply fmap_Some in Hi as (e & He & _). eauto.
Qed.



(** ** Records of a store that satisfies the tree invariant *)

Lemma parent_valid s e q :
  wfs s → lookup_parent s (id e) = Some q → is_Some (heap s !! q).
Proof.
  intros Hwf Hq%lookup_parent_Some.
  destruct (wf_par _ Hwf _ _ Hq) as (a & es & _ & Hes & _).
  rewrite sk_kids_children in Hes. apply children_Some in Hes as (eq & Heq & _). eauto.
Qed.

Lemma Entry_toMiniJSON_Ok s a e :
  wfs s → heap s !! a = Some e →
  Entry_toMiniJSON a s =
    Ok [("id", JString (id e)); ("name", JString (name e));
        ("type", JString (type_string (type e)));
        ("parent_id", parent_field s e);
        ("created_at", JDate (createdAt e));
        ("modified_at", JDate (modifiedAt e))] s.
Proof.
  intros Hwf He. unfold Entry_toMiniJSON, parent_field, getParent, bind, gets, deref.
  rewrite He. destruct (lookup_parent s (id e)) as [q|] eqn:Hq; simpl; [|done].
  destruct (parent_valid s e q Hwf Hq) as [eq Heq]. by rewrite Heq.
Qed.

Lemma toMiniJSON_Ok s a e :
  wfs s → heap s !! a = Some e → ∃ r, toMiniJSON a s = Ok r s ∧ shows s e r.
Proof.
  intros Hwf He. unfold toMiniJSON, bind at 1, deref at 1. rewrite He.
  destruct (body e) as [c|es] eqn:Hb.
  - unfold File_toMiniJSON, bind. rewrite (Entry_toMiniJSON_Ok s a e Hwf He).
    unfold deref. rewrite He, Hb. eexists. split; [reflexivity|].
    repeat split; try done. intros c' E. rewrite Hb in E. injection E as <-.
    apply jget_jset_eq.
  - rewrite (Entry_toMiniJSON_Ok s a e Hwf He). eexists. split; [reflexivity|].
    repeat split; try done. intros c E. congruence.
Qed.

Lemma mapM_toMiniJSON_Ok s es :
  wfs s → Forall (λ c, is_Some (heap s !! c)) es →
  ∃ minis, mapM toMiniJSON es s = Ok minis s ∧
    Forall2 (λ c m, ∃ ec, heap s !! c = Some ec ∧ shows s ec m) es minis.
Proof.
  intros Hwf. induction 1 as [|c es [ec Hc] _ (minis & Hrun & Hall)].
  - by exists [].
  - destruct (toMiniJSON_Ok s c ec Hwf Hc) as (m & Hm & Hshow).
    exists (m :: minis). split.
    + simpl. unfold bind. by rewrite Hm, Hrun.
    + constructor; eauto.
Qed.

(** The record that [toJSON] returns for an entry of the heap. *)
Lemma toJSON_Ok s a e :
  wfs s → heap s !! a = Some e →
  ∃ r, toJSON a s = Ok r s ∧ shows s e r ∧
    ∀ es, body e = Folder es →
      ∃ minis, jget "entries" r = Some (JArray (map JObject minis)) ∧
        Forall2 (λ c m, ∃ ec, heap s !! c = Some ec ∧ shows s ec m) es minis.
Proof.
  intros Hwf He. unfold toJSON, bind at 1, deref at 1. rewrite He.
  destruct (body e) as [c|es] eqn:Hb.
  - unfold Entry_toJSON. destruct (toMiniJSON_Ok s a e Hwf He) as (r & Hr & Hshow).
    exists r. split; [done|]. split; [done|]. intros es E. congruence.
  - unfold Folder_toJSON, Entry_toJSON, bind at 1.
    destruct (toMiniJSON_Ok s a e Hwf He) as (r & Hr & Hshow). rewrite Hr.
    unfold Folder_entries, bind at 1 2, deref. rewrite He, Hb.
    destruct (mapM_toMiniJSON_Ok s es Hwf) as (minis & Hrun & Hall).
    { apply Forall_forall. intros c Hc. eapply child_valid; [done| |exact Hc].
      apply children_Some. eauto. }
    unfold ret at 1. unfold bind. rewrite Hrun.
    eexists. split; [reflexivity|]. split.
    + destruct Hshow as (? & ? & ? & ? & ? & ? & ?).
      repeat split; by rewrite ?jget_jset_ne.
    + intros es' [= <-]. exists minis. split; [apply jget_jset_eq | done].
Qed.

(** ** The two copy operations *)








(** The first test of [copyFile]: a copy in the folder of the source. *)
Example copyFile_same_folder :
  (λ r, (jget "id" r, jget "name" r, jget "type" r, jget "size" r, jget "parent_id" r))
    <$> (match copyFile "2" None None demo_store with
         | Ok r _ => Some r
         | Throw _ _ => None
         end)
  = Some (Some (JString "5"), Some (JString "a.txt"), Some (JString "file"),
          Some (JNumber 13), Some (JString "1")).
Proof. by vm_compute. Qed.

(** The copy of a folder into one of its own descendants meets its own
    output: forty levels of call stack do not end it. *)
Example copyFolder_into_descendant :
  copyFolder 40 "1" (Some "3") None demo_store
  = Throw (RangeError "Maximum call stack size exceeded")
      (state_of (copyFolder 40 "1" (Some "3") None demo_store)).
Proof. by vm_compute. Qed.

(** ** Counterexamples *)

(** C2, as stated, fails twice over.  [updateFolder] accepts the folder
    itself as its new parent, which makes the folder its own parent; and when
    the root was given the id that the counter issues next, the first entry
    created takes the root's keys in both maps, which makes the root its own
    parent. *)
Lemma cycle_by_move_or_root_id :
  (is_ok (updateFolder "1" None (Some "1")
            (run [CreateFolder "a" None] (new_ObjectStore (λ _, 0%Z) 0 None))) = true ∧
   ¬ acyclic (run [CreateFolder "a" None; UpdateFolder "1" None (Some "1")]
                (new_ObjectStore (λ _, 0%Z) 0 None))) ∧
  (is_ok (createFolder "a" None (new_ObjectStore (λ _, 0%Z) 0 (Some "1"))) = true ∧
   ¬ acyclic (run [CreateFolder "a" None] (new_ObjectStore (λ _, 0%Z) 0 (Some "1")))).
Proof.
  split; (split; [by vm_compute|]).
  - intros Hac. apply (Hac 1). apply up_parent. by vm_compute.
  - intros Hac. apply (Hac 0). apply up_parent. by vm_compute.
Qed.

(** C6, as stated, fails: a root id that the counter issues later is shared
    by two entries. *)
Lemma root_id_collision :
  ¬ ids_unique (run [CreateFile "a.txt" None CUndefined]
                  (new_ObjectStore (λ _, 0%Z) 0 (Some "1"))).
Proof.
  unfold ids_unique. intros H.
  assert (id <$> heap (run [CreateFile "a.txt" None CUndefined]
                  (new_ObjectStore (λ _, 0%Z) 0 (Some "1"))) = ["1"; "1"]) as E
    by (by vm_compute).
  rewrite E in H. apply NoDup_cons in H as [H _]. apply H. by left.
Qed.

(** ** The root keeps its place *)

Global Instance root_same_preorder : PreOrder root_same.
Proof.
  split; [done|]. unfold root_same. intros s1 s2 s3 H12 H23. congruence.
Qed.

Global Instance root_same_frame : Frame root_same.
Proof. split; try apply _; done. Qed.

Lemma root_same_name : frames_name root_same.
Proof. done. Qed.

Lemma root_same_content : frames_content root_same.
Proof. done. Qed.

Lemma sk_rooted_create r k dir p :
  wf k → sk_rooted r k → sk_rooted r (sk_create dir p k).
Proof.
  intros Hwf (Hdom & rid & Hr & Hnone & Hall).
  assert (rid ≠ pretty (sk_next k)) as Hne.
  { intros ->. by apply (wf_fresh k Hwf r (sk_next k)). }
  unfold sk_create, sk_rooted. rewrite sk_id_add, sk_id_bind, sk_id_alloc.
  rewrite sk_parents_add, sk_objects_add. simpl.
  split; [by rewrite !dom_insert_L, Hdom|]. exists rid.
  split; [|split].
  - rewrite decide_False; [done|]. apply sk_id_lt in Hr. lia.
  - by rewrite lookup_insert_ne.
  - intros i a Hi Hir. destruct (decide (i = pretty (sk_next k))) as [->|Hij].
    + rewrite lookup_insert_eq. eauto.
    + rewrite lookup_insert_ne in Hi by done. rewrite lookup_insert_ne by done. eauto.
Qed.

Lemma sk_rooted_move r k f i q p :
  sk_rooted r k → sk_parents k !! i = Some (Some q) → sk_rooted r (sk_move f i q p k).
Proof.
  intros (Hdom & rid & Hr & Hnone & Hall) Hi.
  assert (rid ≠ i) as Hne.
  { intros ->. by rewrite Hi in Hnone. }
  unfold sk_move, sk_rooted. rewrite sk_id_add, sk_id_bind, sk_id_remove.
  rewrite sk_parents_add, sk_objects_add. simpl.
  rewrite sk_parents_remove, sk_objects_remove.
  split; [by rewrite !dom_insert_L, Hdom|]. exists rid.
  split; [done|]. split.
  - by rewrite lookup_insert_ne.
  - intros j a Hj Hjr. destruct (decide (j = i)) as [->|Hji].
    + rewrite lookup_insert_eq. eauto.
    + rewrite lookup_insert_ne in Hj by done. rewrite lookup_insert_ne by done. eauto.
Qed.

Lemma sk_rooted_unbind r k i : sk_rooted r k → sk_rooted r (sk_unbind i k).
Proof.
  intros (Hdom & rid & Hr & Hnone & Hall). unfold sk_unbind, sk_rooted. simpl.
  split; [by rewrite !dom_delete_L, Hdom|]. exists rid.
  split; [done|]. split.
  - destruct (decide (rid = i)) as [->|Hne].
    + by rewrite lookup_delete_eq.
    + by rewrite lookup_delete_ne.
  - intros j a Hj Hjr. apply lookup_delete_Some in Hj as [Hji Hj].
    rewrite lookup_delete_ne by done. eauto.
Qed.

Lemma sk_rooted_unregister r k f i q :
  sk_rooted r k → sk_rooted r (sk_unregister f i q k).
Proof.
  intros H%(sk_rooted_unbind r k i). unfold sk_unregister, sk_rooted.
  by rewrite sk_id_remove, sk_parents_remove, sk_objects_remove.
Qed.

Lemma rooted_skel s s' : skel s' = skel s → root s' = root s → rooted s → rooted s'.
Proof. unfold rooted. by intros -> ->. Qed.

Lemma tree_unregister f : invariant tree (unregister f).
Proof.
  intros s [Hwf Hrt]. split; [by apply unregister_wfs|].
  pose proof (keeps_unregister root_same f s) as Hroot.
  destruct (unregister_cases f s Hwf) as [[_ ->]|(i & Hi & H)]; [done|].
  unfold rooted. rewrite Hroot.
  destruct H as [(Hp & s' & -> & Hs')|(q & Hq & s' & -> & Hs')]; simpl; rewrite Hs'.
  - by apply sk_rooted_unbind.
  - by apply sk_rooted_unregister.
Qed.

Lemma tree_deleteFile i : invariant tree (deleteFile i).
Proof.
  unfold deleteFile.
  apply invariant_bind; [apply invariant_reads, reads_gets|].
  intros [f|]; [|apply invariant_reads, reads_throw].
  apply invariant_bind; [apply invariant_reads, reads_deref|]. intros e.
  destruct (type e); [apply tree_unregister | apply invariant_reads, reads_throw].
Qed.

Lemma tree_deleteFolder fuel i : invariant tree (deleteFolder fuel i).
Proof.
  revert i. induction fuel as [|fuel IH]; intros i; simpl.
  { apply invariant_reads, reads_throw. }
  apply invariant_bind; [apply invariant_reads, reads_gets|].
  intros [f|]; [|apply invariant_reads, reads_throw].
  apply invariant_bind; [apply invariant_reads, reads_deref|]. intros e.
  destruct (body e) as [c|es]; [apply invariant_reads, reads_throw|].
  apply invariant_bind; [|intros _; apply tree_unregister].
  apply invariant_forM_. intros entry.
  apply invariant_bind; [apply invariant_reads, reads_deref|]. intros ee.
  destruct (type ee); [apply tree_deleteFile | apply IH].
Qed.

Lemma tree_createFile nm parentId c : invariant tree (createFile nm parentId c).
Proof.
  intros s [Hwf Hrt]. split; [by apply createFile_wfs|].
  pose proof (keeps_createFile root_same nm parentId c s) as Hroot.
  destruct (createFile_cases nm parentId c s)
    as [[_ ->]|(pid & p & s2 & _ & _ & Hp & E & Hs2)]; [done|].
  rewrite E in Hroot |- *. rewrite reads_toJSON in Hroot |- *.
  unfold rooted. rewrite Hroot, Hs2. by apply sk_rooted_create.
Qed.

Lemma tree_createFolder nm parentId : invariant tree (createFolder nm parentId).
Proof.
  intros s [Hwf Hrt]. split; [by apply createFolder_wfs|].
  pose proof (keeps_createFolder root_same nm parentId s) as Hroot.
  destruct (createFolder_cases nm parentId s)
    as [[_ ->]|(pid & p & s2 & _ & _ & Hp & E & Hs2)]; [done|].
  rewrite E in Hroot |- *. rewrite reads_toJSON in Hroot |- *.
  unfold rooted. rewrite Hroot, Hs2. by apply sk_rooted_create.
Qed.

(** What a move, after the assignments that leave the skeleton alone, does to
    the skeleton. *)
Lemma move_to_skel f parentId s0 s :
  wfs s → skel s = skel s0 →
  skel (state_of (move_to f parentId s)) = skel s0 ∨
  ∃ j q p, sk_movable (skel s0) f j q p ∧
           skel (state_of (move_to f parentId s)) = sk_move f j q p (skel s0).
Proof.
  intros Hwf Hk.
  destruct (move_to_cases f parentId s Hwf)
    as [[-> _]|(pid & p & j & q & s' & _ & _ & Hp & Hcp & Hj & Hq & -> & Hs')];
    [by left|].
  right. exists j, q, p. rewrite <-Hk. simpl. rewrite Hs'. split; [|done].
  rewrite <-sk_id_skel in Hj. split; [done|]. split; [|split; [done|]].
  - destruct (wf_par _ Hwf j q Hq) as (a & es & Ha & _).
    pose proof (wf_obj _ Hwf j a Ha) as Hia.
    by rewrite (wf_ids _ Hwf f a j Hj Hia).
  - exists pid. split; [by apply (wf_obj _ Hwf)|]. split; [done|].
    by rewrite sk_kids_children.
Qed.

Lemma updateFile_skel i nm c parentId s s' :
  wfs s → state_of (updateFile i nm c parentId s) = s' →
  skel s' = skel s ∨
  ∃ f j q p, sk_movable (skel s) f j q p ∧ skel s' = sk_move f j q p (skel s).
Proof.
  intros Hwf E. unfold updateFile, bind at 1, gets in E.
  destruct (objects s !! i) as [f|] eqn:Hf; [|left; by subst].
  unfold bind at 1, deref in E.
  destruct (heap s !! f) as [e|] eqn:He; [|left; by subst].
  destruct (type e) eqn:Ht; [|left; by subst].
  unfold bind at 1 in E.
  pose proof (rename_to_skel f nm s) as Hk1.
  destruct (keeps_rename_to (stable type) f nm stable_type_name s f e He)
    as (e1 & He1 & Ht1).
  destruct (rename_to f nm s) as [[] s1|err s1]; simpl in Hk1, He1, E;
    [|left; by subst].
  unfold bind at 1 in E.
  assert (skel (state_of ((if truthy_content c then File_set_content f c else ret tt) s1))
          = skel s1) as Hk2.
  { destruct (truthy_content c); [|done].
    unfold type in Ht1, Ht. destruct (body e1) as [c1|] eqn:Hb1.
    - by eapply File_set_content_skel.
    - by destruct (body e). }
  destruct ((if truthy_content c then File_set_content f c else ret tt) s1)
    as [[] s2|err s2]; simpl in Hk2, E; [|left; subst; congruence].
  assert (skel s2 = skel s) as Hk by congruence.
  assert (wfs s2) as Hwf2 by (by eapply wfs_skel_eq).
  unfold bind at 1 in E.
  assert (state_of (move_to f parentId s2) = s') as <-.
  { destruct (move_to f parentId s2) as [[] s3|err s3]; simpl in *; [|done].
    by rewrite reads_toJSON in E. }
  destruct (move_to_skel f parentId s s2 Hwf2 Hk) as [H|(j & q & p & Hm & H)];
    [by left|].
  right. by exists f, j, q, p.
Qed.

Lemma updateFolder_skel i nm parentId s s' :
  wfs s → state_of (updateFolder i nm parentId s) = s' →
  skel s' = skel s ∨
  ∃ f j q p, sk_movable (skel s) f j q p ∧ skel s' = sk_move f j q p (skel s).
Proof.
  intros Hwf E. unfold updateFolder, bind at 1, gets in E.
  destruct (objects s !! i) as [f|] eqn:Hf; [|left; by subst].
  unfold bind at 1, deref in E.
  destruct (heap s !! f) as [e|] eqn:He; [|left; by subst].
  destruct (type e) eqn:Ht; [left; by subst|].
  unfold bind at 1 in E.
  pose proof (rename_to_skel f nm s) as Hk1.
  destruct (rename_to f nm s) as [[] s1|err s1]; simpl in Hk1, E; [|left; by subst].
  assert (wfs s1) as Hwf1 by (by eapply wfs_skel_eq).
  unfold bind at 1 in E.
  assert (state_of (move_to f parentId s1) = s') as <-.
  { destruct (move_to f parentId s1) as [[] s3|err s3]; simpl in *; [|done].
    by rewrite reads_toJSON in E. }
  destruct (move_to_skel f parentId s s1 Hwf1 Hk1) as [H|(j & q & p & Hm & H)];
    [by left|].
  right. by exists f, j, q, p.
Qed.

(** Every operation keeps the root in its place. *)
Lemma exec_rooted op s : wfs s → rooted s → rooted (exec op s).
Proof.
  intros Hwf Hrt.
  pose proof (keeps_exec root_same op root_same_name root_same_content s) as Hroot.
  destruct op; simpl in *.
  - by apply tree_createFile.
  - by rewrite reads_getFile.
  - by rewrite reads_getFileContent.
  - destruct (updateFile_skel i nm c parentId s _ Hwf eq_refl)
      as [H|(f & j & q & p & (_ & _ & Hq & _) & H)].
    + by eapply rooted_skel.
    + unfold rooted. rewrite Hroot, H. by apply sk_rooted_move.
  - by apply tree_deleteFile.
  - by apply tree_createFolder.
  - by rewrite reads_getFolder.
  - destruct (updateFolder_skel i nm parentId s _ Hwf eq_refl)
      as [H|(f & j & q & p & (_ & _ & Hq & _) & H)].
    + by eapply rooted_skel.
    + unfold rooted. rewrite Hroot, H. by apply sk_rooted_move.
  - by apply tree_deleteFolder.
Qed.

Lemma new_ObjectStore_rooted clk n0 rootFolderId :
  rooted (new_ObjectStore clk n0 rootFolderId).
Proof.
  unfold rooted. rewrite new_ObjectStore_skel.
  assert (root (new_ObjectStore clk n0 rootFolderId) = 0) as ->.
  { unfold new_ObjectStore, ObjectStore_constructor, new_Folder.
    destruct rootFolderId as [r|]; [destruct (truthy_string r) eqn:Htr|];
      unfold bind; simpl; rewrite ?Htr; reflexivity. }
  split; [simpl; by rewrite !dom_singleton_L|].
  exists (root_id n0 rootFolderId). simpl. split; [done|]. split.
  - by rewrite lookup_singleton_eq.
  - intros i a [<- _]%lookup_singleton_Some. done.
Qed.

Lemma reachable_tree s : reachable no_cycle s → tree s.
Proof.
  induction 1 as [clk n0 rid Hok|s op _ [Hwf Hrt] Hop].
  - split; [by apply new_ObjectStore_wfs | apply new_ObjectStore_rooted].
  - split; [by apply exec_wfs | by apply exec_rooted].
Qed.

(** ** Parents are registered *)

Lemma sk_linked_create k dir p jp :
  wf k → sk_linked k → sk_id k p = Some jp → sk_objects k !! jp = Some p →
  sk_linked (sk_create dir p k).
Proof.
  intros Hwf Hl Hp Hjp i q. unfold sk_create.
  rewrite sk_parents_add, sk_objects_add. simpl.
  setoid_rewrite sk_id_add. setoid_rewrite sk_id_bind. setoid_rewrite sk_id_alloc.
  assert (∀ q j, sk_id k q = Some j → sk_objects k !! j = Some q →
            ∃ j', (if decide (q = length (sk_cells k)) then Some (pretty (sk_next k))
                   else sk_id k q) = Some j' ∧
                  <[pretty (sk_next k) := length (sk_cells k)]> (sk_objects k) !! j' = Some q)
    as Hkeep.
  { intros q' j Hq' Hj. exists j. split.
    - rewrite decide_False; [done|]. apply sk_id_lt in Hq'. lia.
    - rewrite lookup_insert_ne; [done|]. intros <-.
      by apply (wf_fresh k Hwf q' (sk_next k)). }
  destruct (decide (i = pretty (sk_next k))) as [->|Hne].
  - rewrite lookup_insert_eq. intros [= <-]. by eapply Hkeep.
  - rewrite lookup_insert_ne by done. intros Hi.
    destruct (Hl i q Hi) as (j & Hq & Hj). by eapply Hkeep.
Qed.

Lemma sk_linked_move k f i q p jp :
  wf k → sk_linked k → sk_id k f = Some i → sk_objects k !! i = Some f →
  sk_id k p = Some jp → sk_objects k !! jp = Some p →
  sk_linked (sk_move f i q p k).
Proof.
  intros Hwf Hl Hf Hi Hp Hjp i' q'. unfold sk_move.
  rewrite sk_parents_add, sk_objects_add. simpl.
  rewrite sk_parents_remove, sk_objects_remove.
  setoid_rewrite sk_id_add. setoid_rewrite sk_id_bind. setoid_rewrite sk_id_remove.
  rewrite (insert_id (sk_objects k) i f Hi).
  destruct (decide (i' = i)) as [->|Hne].
  - rewrite lookup_insert_eq. intros [= <-]. eauto.
  - rewrite lookup_insert_ne by done. apply Hl.
Qed.

Lemma sk_linked_unbind k f i :
  wf k → sk_linked k → sk_id k f = Some i →
  (∀ j, sk_parents k !! j ≠ Some (Some f)) →
  sk_linked (sk_unbind i k).
Proof.
  intros Hwf Hl Hf Hnone i' q. unfold sk_unbind, sk_id. simpl.
  intros [Hne Hi']%lookup_delete_Some.
  destruct (Hl i' q Hi') as (j & Hq & Hj). exists j. split; [done|].
  rewrite lookup_delete_ne; [done|]. intros <-.
  assert (q = f) as -> by (by eapply (wf_ids k Hwf)).
  by apply (Hnone i').
Qed.

Lemma sk_linked_unregister k f i q :
  wf k → sk_linked k → sk_id k f = Some i →
  (∀ j, sk_parents k !! j ≠ Some (Some f)) →
  sk_linked (sk_unregister f i q k).
Proof.
  intros Hwf Hl Hf Hnone. pose proof (sk_linked_unbind k f i Hwf Hl Hf Hnone) as H.
  intros i' q'. unfold sk_unregister.
  rewrite sk_parents_remove, sk_objects_remove. setoid_rewrite sk_id_remove.
  apply H.
Qed.

Lemma unregister_linked f s :
  wfs s → linked s → childless s f → linked (state_of (unregister f s)).
Proof.
  intros Hwf Hl Hnone.
  destruct (unregister_cases f s Hwf) as [[_ ->]|(i & Hi & H)]; [done|].
  rewrite <-sk_id_skel in Hi. unfold linked.
  destruct H as [(Hp & s' & -> & Hs')|(q & Hq & s' & -> & Hs')]; simpl; rewrite Hs'.
  - by eapply sk_linked_unbind.
  - by eapply sk_linked_unregister.
Qed.

(** A file has no children. *)
Lemma file_childless s f : wfs s → children s f = None → childless s f.
Proof.
  intros Hwf Hf j Hj. destruct (wf_par _ Hwf j f Hj) as (a & es & _ & Hes & _).
  rewrite sk_kids_children in Hes. congruence.
Qed.

Lemma shrinking_reads {A} (m : M A) : reads m → shrinking m.
Proof. intros Hm s _. by rewrite Hm. Qed.

Lemma unregister_shrinks f : shrinking (unregister f).
Proof.
  intros s Hwf. destruct (id_of s f) as [i|] eqn:Hi.
  - by destruct (unregister_post s f i Hwf Hi) as (_ & H & _).
  - destruct (unregister_cases f s Hwf) as [[_ ->]|(i & Hi' & _)]; [done | congruence].
Qed.

Lemma deleteFile_shrinks i : shrinking (deleteFile i).
Proof.
  intros s Hwf. unfold deleteFile, bind, gets, deref.
  destruct (objects s !! i) as [f|]; [|done].
  destruct (heap s !! f) as [e|]; [|done].
  destruct (type e); [by apply unregister_shrinks | done].
Qed.

Lemma forM_shrinks {A} (l : list A) (f : A → M unit) :
  (∀ a, invariant wfs (f a)) → (∀ a, shrinking (f a)) → shrinking (forM_ l f).
Proof.
  intros Hinv Hf. induction l as [|x l IH]; intros s Hwf; simpl; [done|].
  unfold bind. pose proof (Hf x s Hwf) as H1. pose proof (Hinv x s Hwf) as Hwf1.
  destruct (f x s) as [[] s1|err s1]; simpl in *; [|done].
  etrans; [exact H1 | by apply IH].
Qed.

Lemma delete_entry_wfs fuel entry : invariant wfs (delete_entry fuel entry).
Proof.
  unfold delete_entry.
  apply invariant_bind; [apply invariant_reads, reads_deref|]. intros ee.
  destruct (type ee); [apply deleteFile_wfs | apply deleteFolder_wfs].
Qed.

Lemma deleteFolder_shrinks fuel : ∀ i, shrinking (deleteFolder fuel i).
Proof.
  induction fuel as [|fuel IH]; intros i s Hwf; simpl; [done|].
  unfold bind at 1, gets. destruct (objects s !! i) as [f|]; [|done].
  unfold bind at 1, deref at 1. destruct (heap s !! f) as [e|]; [|done].
  destruct (body e) as [c|es]; [done|].
  change (forM_ es _) with (forM_ es (delete_entry fuel)).
  unfold bind.
  assert (shrinks s (state_of (forM_ es (delete_entry fuel) s))) as H1.
  { apply forM_shrinks; [apply delete_entry_wfs| |done].
    intros c s0 Hwf0. unfold delete_entry, bind, deref.
    destruct (heap s0 !! c) as [ee|]; [|done].
    destruct (type ee); [by apply deleteFile_shrinks | by apply IH]. }
  pose proof (invariant_forM_ wfs es (delete_entry fuel) (delete_entry_wfs fuel) s Hwf)
    as Hwf1.
  destruct (forM_ es (delete_entry fuel) s) as [[] s1|err s1]; simpl in *; [|done].
  etrans; [exact H1 | by apply unregister_shrinks].
Qed.

(** A delete that returns has taken its entry out of [#objects]. *)
Lemma deleteFile_Ok_gone i s s' :
  wfs s → deleteFile i s = Ok tt s' → objects s' !! i = None.
Proof.
  intros Hwf. unfold deleteFile, bind, gets, deref.
  destruct (objects s !! i) as [f|] eqn:Hf; [|done].
  pose proof (registered_id s i f Hwf Hf) as Hi.
  destruct (heap s !! f) as [e|]; [|done].
  destruct (type e); [|done]. intros H.
  destruct (unregister_post s f i Hwf Hi) as (_ & _ & Ho & _).
  rewrite H in Ho. simpl in Ho. rewrite Ho. apply lookup_delete_eq.
Qed.

Lemma deleteFile_linked i s :
  wfs s → linked s → linked (state_of (deleteFile i s)).
Proof.
  intros Hwf Hl. unfold deleteFile, bind, gets, deref.
  destruct (objects s !! i) as [f|] eqn:Hf; [|done].
  destruct (heap s !! f) as [e|] eqn:He; [|done].
  destruct (type e) eqn:Ht; [|done].
  apply unregister_linked; [done..|]. apply file_childless; [done|].
  unfold children. rewrite He. simpl. unfold type in Ht. by destruct (body e).
Qed.

Lemma delete_entry_shrinks fuel c : shrinking (delete_entry fuel c).
Proof.
  intros s Hwf. unfold delete_entry, bind, deref. destruct (heap s !! c) as [ee|]; [|done].
  destruct (type ee); [by apply deleteFile_shrinks | by apply deleteFolder_shrinks].
Qed.

Lemma forM__cons {A} (x : A) l (f : A → M unit) s :
  forM_ (x :: l) f s =
  match f x s with
  | Ok _ s1 => forM_ l f s1
  | Throw e s1 => Throw e s1
  end.
Proof. done. Qed.

(** After a loop of deletions that returns, no child is registered. *)
Lemma delete_loop_linked fuel :
  (∀ i s, wfs s → linked s →
     linked (state_of (deleteFolder fuel i s)) ∧
     ∀ s', deleteFolder fuel i s = Ok tt s' → objects s' !! i = None) →
  ∀ es s, wfs s → linked s →
    linked (state_of (forM_ es (delete_entry fuel) s)) ∧
    ∀ s', forM_ es (delete_entry fuel) s = Ok tt s' →
      ∀ c j, c ∈ es → id_of s c = Some j → objects s' !! j = None.
Proof.
  intros IH es. induction es as [|c es IHes]; intros s Hwf Hl.
  { split; [done|]. intros s' _ c j Hc. by apply elem_of_nil in Hc. }
  rewrite forM__cons.
  assert (linked (state_of (delete_entry fuel c s)) ∧
          ∀ s1, delete_entry fuel c s = Ok tt s1 →
            ∀ j, id_of s c = Some j → objects s1 !! j = None) as [Hl1 Hgone].
  { unfold delete_entry, bind, deref, id_of.
    destruct (heap s !! c) as [ee|]; [|done]. simpl.
    destruct (type ee).
    - split; [by apply deleteFile_linked|].
      intros s1 H1 j [= <-]. by eapply deleteFile_Ok_gone.
    - destruct (IH (id ee) s Hwf Hl) as [H1 H2]. split; [done|].
      intros s1 Hs1 j [= <-]. by apply H2. }
  pose proof (delete_entry_wfs fuel c s Hwf) as Hwf1.
  pose proof (delete_entry_shrinks fuel c s Hwf) as Hsh1.
  destruct (delete_entry fuel c s) as [[] s1|err s1]; simpl in *; [|done].
  destruct (IHes s1 Hwf1 Hl1) as [Hl2 Hgone2]. split; [done|].
  intros s' Hs' c' j [->|Hc']%elem_of_cons Hj.
  - eapply lookup_subseteq_None; [|by eapply Hgone].
    apply sh_objects.
    pose proof (forM_shrinks es (delete_entry fuel) (delete_entry_wfs fuel)
                  (delete_entry_shrinks fuel) s1 Hwf1) as Hloop.
    by rewrite Hs' in Hloop.
  - apply (Hgone2 s' Hs' c' j Hc'). by rewrite (sh_ids _ _ Hsh1).
Qed.

Lemma deleteFolder_S_cases fuel i s :
  (state_of (deleteFolder (S fuel) i s) = s ∧ is_ok (deleteFolder (S fuel) i s) = false) ∨
  ∃ f e es, objects s !! i = Some f ∧ heap s !! f = Some e ∧ body e = Folder es ∧
    deleteFolder (S fuel) i s = (forM_ es (delete_entry fuel) ;;; unregister f) s.
Proof.
  destruct (objects s !! i) as [f|] eqn:Hf.
  2:{ left. simpl. unfold bind, gets. by rewrite Hf. }
  destruct (heap s !! f) as [e|] eqn:He.
  2:{ left. simpl. unfold bind, gets, deref. by rewrite Hf, He. }
  destruct (body e) as [c|es] eqn:Hb.
  { left. simpl. unfold bind, gets, deref. by rewrite Hf, He, Hb. }
  right. exists f, e, es. repeat split; try done.
  simpl. unfold bind at 1, gets. rewrite Hf. unfold bind at 1, deref at 1.
  by rewrite He, Hb.
Qed.

Lemma deleteFolder_linked fuel : ∀ i s,
  wfs s → linked s →
  linked (state_of (deleteFolder fuel i s)) ∧
  ∀ s', deleteFolder fuel i s = Ok tt s' → objects s' !! i = None.
Proof.
  induction fuel as [|fuel IH]; intros i s Hwf Hl; [done|].
  destruct (deleteFolder_S_cases fuel i s) as [[-> Hno]|(f & e & es & Hf & He & Hb & ->)].
  { split; [done|]. intros s' Hs'. by rewrite Hs' in Hno. }
  pose proof (registered_id s i f Hwf Hf) as Hi.
  destruct (delete_loop_linked fuel IH es s Hwf Hl) as [Hl1 Hgone].
  pose proof (invariant_forM_ wfs es (delete_entry fuel) (delete_entry_wfs fuel) s Hwf)
    as Hwf1.
  pose proof (forM_shrinks es (delete_entry fuel) (delete_entry_wfs fuel)
                (delete_entry_shrinks fuel) s Hwf) as Hsh.
  unfold bind.
  destruct (forM_ es (delete_entry fuel) s) as [[] s1|err s1]; simpl in *; [|done].
  assert (id_of s1 f = Some i) as Hi1 by (by rewrite (sh_ids _ _ Hsh)).
  assert (childless s1 f) as Hnone.
  { intros j Hj.
    destruct (wf_par _ Hwf1 j f Hj) as (a & es1 & Ha & _). simpl in Ha.
    pose proof (lookup_weaken _ _ _ _ Ha (sh_objects _ _ Hsh)) as Ha0.
    pose proof (lookup_weaken _ _ _ _ Hj (sh_parents _ _ Hsh)) as Hj0.
    destruct (wf_par _ Hwf j f Hj0) as (a' & es' & Ha' & Hes' & Hin).
    simpl in Ha'. rewrite Ha0 in Ha'. injection Ha' as <-.
    rewrite sk_kids_children in Hes'.
    assert (es' = es) as ->.
    { apply children_Some in Hes' as (e' & He' & Hb'). congruence. }
    pose proof (registered_id s j a Hwf Ha0) as Hja.
    rewrite (Hgone s1 eq_refl a j Hin Hja) in Ha. done. }
  split; [by apply unregister_linked|].
  intros s' Hs'. destruct (unregister_post s1 f i Hwf1 Hi1) as (_ & _ & Ho & _).
  rewrite Hs' in Ho. simpl in Ho. rewrite Ho. apply lookup_delete_eq.
Qed.

Lemma exec_linked op s : wfs s → linked s → linked (exec op s).
Proof.
  intros Hwf Hl. destruct op; simpl.
  - destruct (createFile_cases nm parentId c s)
      as [[_ ->]|(pid & p & s2 & _ & Hp & _ & -> & Hs2)]; [done|].
    rewrite reads_toJSON. unfold linked. rewrite Hs2.
    eapply sk_linked_create; eauto. by apply (wf_obj _ Hwf).
  - by rewrite reads_getFile.
  - by rewrite reads_getFileContent.
  - destruct (updateFile_skel i nm c parentId s _ Hwf eq_refl)
      as [H|(f & j & q & p & (Hj & Hf & _ & jp & Hjp & Hp & _) & H)];
      unfold linked; rewrite H; [done|].
    by eapply sk_linked_move.
  - by apply deleteFile_linked.
  - destruct (createFolder_cases nm parentId s)
      as [[_ ->]|(pid & p & s2 & _ & Hp & _ & -> & Hs2)]; [done|].
    rewrite reads_toJSON. unfold linked. rewrite Hs2.
    eapply sk_linked_create; eauto. by apply (wf_obj _ Hwf).
  - by rewrite reads_getFolder.
  - destruct (updateFolder_skel i nm parentId s _ Hwf eq_refl)
      as [H|(f & j & q & p & (Hj & Hf & _ & jp & Hjp & Hp & _) & H)];
      unfold linked; rewrite H; [done|].
    by eapply sk_linked_move.
  - by apply deleteFolder_linked.
Qed.

Lemma new_ObjectStore_linked clk n0 rootFolderId :
  linked (new_ObjectStore clk n0 rootFolderId).
Proof.
  unfold linked. rewrite new_ObjectStore_skel. intros i q. simpl.
  by intros [_ [=]]%lookup_singleton_Some.
Qed.

Lemma reachable_linked s : reachable no_cycle s → linked s.
Proof.
  induction 1 as [clk n0 rid Hok|s op Hs IH Hop].
  - apply new_ObjectStore_linked.
  - apply exec_linked; [by apply reachable_wfs | done].
Qed.

(** ** Reachable stores are sound *)

Lemma children_type s a e :
  heap s !! a = Some e → (is_Some (children s a) ↔ type e = TFolder).
Proof.
  intros He. unfold children, type. rewrite He. simpl.
  destruct (body e); split; (done || by intros [? ?] || eauto).
Qed.

Lemma stable_type_children s s' a :
  stable type s s' → is_Some (children s a) → is_Some (children s' a).
Proof.
  intros Hst [es (e & He & Hb)%children_Some].
  destruct (Hst a e He) as (e' & He' & Ht).
  apply (children_type s' a e' He'). rewrite Ht. unfold type. by rewrite Hb.
Qed.

Lemma new_ObjectStore_root clk n0 rootFolderId :
  root (new_ObjectStore clk n0 rootFolderId) = 0 ∧
  children (new_ObjectStore clk n0 rootFolderId) 0 = Some [].
Proof.
  unfold new_ObjectStore, ObjectStore_constructor, new_Folder.
  destruct rootFolderId as [r|]; [destruct (truthy_string r) eqn:Htr|];
    unfold bind; simpl; rewrite ?Htr; done.
Qed.

Lemma reachable_sound s : reachable no_cycle s → sound s.
Proof.
  intros Hs. destruct (reachable_tree s Hs) as [Hwf Hrt].
  split; [done | done | by apply reachable_linked|].
  induction Hs as [clk n0 rid Hok|s op Hs IH Hop].
  - destruct (new_ObjectStore_root clk n0 rid) as [-> ->]. eauto.
  - destruct (reachable_tree s Hs) as [Hwf0 Hrt0].
    rewrite (keeps_exec root_same op root_same_name root_same_content s).
    eapply stable_type_children; [|by apply IH].
    apply keeps_exec; [apply _ | apply stable_type_name | apply stable_type_content].
Qed.

(** A registered entry other than the root is registered under a folder,
    which is registered and lists it. *)
Lemma registered_parent s i a :
  sound s → objects s !! i = Some a → a ≠ root s →
  ∃ q jq es, parentOf s a = Some q ∧ parents s !! i = Some (Some q) ∧
    id_of s q = Some jq ∧ objects s !! jq = Some q ∧
    children s q = Some es ∧ a ∈ es.
Proof.
  intros [Hwf (_ & rid & Hr & _ & Hall) Hl _] Ha Hne.
  pose proof (registered_id s i a Hwf Ha) as Hi.
  assert (i ≠ rid) as Hir.
  { intros ->. apply Hne. rewrite <-sk_id_skel in Hi. by eapply (wf_ids _ Hwf). }
  destruct (Hall i a Ha Hir) as (q & Hq). simpl in Hq.
  destruct (Hl i q Hq) as (jq & Hjq & Hoq). rewrite sk_id_skel in Hjq.
  assert (parentOf s a = Some q) as Hpar.
  { apply parentOf_Some. eauto. }
  destruct (parent_registered s a q Hwf Hpar) as (i' & es & _ & _ & _ & Hes & Hin).
  by exists q, jq, es.
Qed.

Lemma file_not_root s f : sound s → children s f = None → f ≠ root s.
Proof. intros Hs Hf ->. destruct (snd_root s Hs) as [es Hes]. congruence. Qed.

(** ** Records *)

Lemma mapM_Forall2 {A B} (f : A → M B) l s ys s' :
  (∀ a, reads (f a)) → mapM f l s = Ok ys s' →
  s' = s ∧ Forall2 (λ a y, f a s = Ok y s) l ys.
Proof.
  intros Hf. revert ys s'. induction l as [|x l IH]; simpl; intros ys s' H.
  - unfold ret in H. injection H as <- <-. by split.
  - apply bind_Ok in H as (y & s1 & Hy & H).
    pose proof (reads_Ok _ _ _ _ (Hf x) Hy) as ->.
    apply bind_Ok in H as (ys' & s2 & Hys & H).
    destruct (IH ys' s2 Hys) as [-> Hall].
    unfold ret in H. injection H as <- <-. split; [done|]. by constructor.
Qed.

(** The [entries] of a folder record are the mini records of the children,
    in the order of the child array. *)
Lemma toJSON_entries s q e es r s' :
  heap s !! q = Some e → body e = Folder es → toJSON q s = Ok r s' →
  ∃ minis, jget "entries" r = Some (JArray (map JObject minis)) ∧
    Forall2 (λ c m, toMiniJSON c s = Ok m s) es minis.
Proof.
  intros He Hb H. unfold toJSON in H.
  apply bind_Ok in H as (e1 & s1 & [He1 ->]%deref_Ok & H).
  rewrite He in He1. injection He1 as <-. rewrite Hb in H.
  unfold Folder_toJSON in H.
  apply bind_Ok in H as (o & s1 & Ho & H).
  pose proof (reads_Ok _ _ _ _ (reads_toMiniJSON q) Ho) as ->.
  apply bind_Ok in H as (es1 & s2 & Hes & H).
  unfold Folder_entries, bind, deref in Hes. rewrite He, Hb in Hes.
  unfold ret in Hes. injection Hes as <- <-.
  apply bind_Ok in H as (minis & s3 & Hm & H).
  destruct (mapM_Forall2 _ _ _ _ _ reads_toMiniJSON Hm) as [-> Hall].
  unfold ret in H. injection H as <- <-.
  exists minis. split; [apply jget_jset_eq | done].
Qed.

Lemma toJSON_file s f e c :
  heap s !! f = Some e → body e = File c → toJSON f s = toMiniJSON f s.
Proof. intros He Hb. unfold toJSON, bind at 1, deref at 1. by rewrite He, Hb. Qed.

Lemma shows_parent s e r q eq :
  shows s e r → lookup_parent s (id e) = Some q → heap s !! q = Some eq →
  jget "parent_id" r = Some (JString (id eq)).
Proof.
  intros (_ & _ & _ & Hp & _) Hq Heq. rewrite Hp. unfold parent_field.
  rewrite Hq. simpl. by rewrite Heq.
Qed.

Lemma getFolder_unfold i s f e :
  objects s !! i = Some f → heap s !! f = Some e → type e = TFolder →
  getFolder i s = toJSON f s.
Proof.
  intros Hf He Ht. unfold getFolder, bind at 1, gets. rewrite Hf.
  unfold bind at 1, deref at 1. by rewrite He, Ht.
Qed.

(** X1: what [getFile] returns.  In a store reached by admissible operations,
    [getFile(i)] throws "File not found." when [i] is not registered and "Not
    a file." when [i] is a folder, each time leaving the store as it is;
    otherwise it returns, without changing the store, a record whose [id] is
    [i] and whose [parent_id] is the id of a registered folder, and
    [getFolder] of that folder lists this very record among its [entries]. *)
Theorem getFile_outcome s i :
  reachable no_cycle s →
  match objects s !! i with
  | None => getFile i s = Throw (TypeError "File not found.") s
  | Some f =>
      match children s f with
      | Some _ => getFile i s = Throw (TypeError "Not a file.") s
      | None =>
          ∃ r pid rp items,
            getFile i s = Ok r s ∧ jget "id" r = Some (JString i) ∧
            jget "parent_id" r = Some (JString pid) ∧
            getFolder pid s = Ok rp s ∧
            jget "entries" rp = Some (JArray items) ∧ JObject r ∈ items
      end
  end.
Proof.
  intros Hreach. pose proof (reachable_sound s Hreach) as Hs.
  pose proof (snd_wfs s Hs) as Hwf.
  destruct (objects s !! i) as [f|] eqn:Hf.
  2:{ unfold getFile, bind, gets. by rewrite Hf. }
  pose proof (registered_id s i f Hwf Hf) as Hi.
  pose proof Hi as (e & He & Hid)%fmap_Some.
  destruct (children s f) as [es|] eqn:Hes.
  { apply children_Some in Hes as (e' & He' & Hb).
    unfold getFile, bind, gets, deref. rewrite Hf, He'. unfold type. by rewrite Hb. }
  assert (∃ c, body e = File c) as [c Hb].
  { unfold children in Hes. rewrite He in Hes. simpl in Hes.
    destruct (body e); [eauto | done]. }
  assert (type e = TFile) as Ht by (unfold type; by rewrite Hb).
  destruct (registered_parent s i f Hs Hf (file_not_root s f Hs Hes))
    as (q & jq & esq & Hpar & Hq & Hjq & Hoq & Hesq & Hin).
  pose proof Hjq as (eq & Heq & Hideq)%fmap_Some.
  pose proof Hesq as (eq' & Heq' & Hbq)%children_Some.
  rewrite Heq in Heq'. injection Heq' as <-.
  destruct (toJSON_Ok s f e Hwf He) as (r & Hr & Hshow & _).
  destruct (toJSON_Ok s q eq Hwf Heq) as (rp & Hrp & _ & _).
  destruct (toJSON_entries s q eq esq rp s Heq Hbq Hrp) as (minis & Hitems & Hall).
  exists r, jq, rp, (map JObject minis).
  split; [by rewrite (getFile_unfold i s f e)|].
  split; [destruct Hshow as (Hidr & _); by rewrite Hidr, <-Hid|].
  split.
  { rewrite (shows_parent s e r q eq Hshow); [by rewrite <-Hideq | | done].
    apply lookup_parent_Some. by rewrite <-Hid. }
  split.
  { rewrite (getFolder_unfold jq s q eq); [done..|]. unfold type. by rewrite Hbq. }
  split; [done|].
  apply list_elem_of_lookup in Hin as [n Hn].
  destruct (Forall2_lookup_l _ _ _ _ _ Hall Hn) as (m & Hm & Hrun).
  rewrite <-(toJSON_file s f e c He Hb), Hr in Hrun. injection Hrun as <-.
  apply list_elem_of_fmap. exists r. split; [done|].
  by eapply list_elem_of_lookup_2.
Qed.

(** X2: what [getFolder] returns.  In a store reached by admissible
    operations, [getFolder(i)] throws "Folder not found." when [i] is not
    registered and "Not a folder." when [i] is a file; otherwise it returns a
    record whose [id] is [i] and whose [entries] has one element for each
    child of the folder, in order: a record whose [id] is registered to that
    child and whose [parent_id] is [i]; no child is listed twice. *)
Theorem getFolder_outcome s i :
  reachable no_cycle s →
  match objects s !! i with
  | None => getFolder i s = Throw (TypeError "Folder not found.") s
  | Some f =>
      match children s f with
      | None => getFolder i s = Throw (TypeError "Not a folder.") s
      | Some es =>
          ∃ r items,
            getFolder i s = Ok r s ∧ jget "id" r = Some (JString i) ∧
            jget "entries" r = Some (JArray items) ∧ NoDup es ∧
            Forall2 (λ c item, ∃ m j, item = JObject m ∧
                       jget "id" m = Some (JString j) ∧ objects s !! j = Some c ∧
                       jget "parent_id" m = Some (JString i)) es items
      end
  end.
Proof.
  intros Hreach. pose proof (reachable_sound s Hreach) as Hs.
  pose proof (snd_wfs s Hs) as Hwf.
  destruct (objects s !! i) as [f|] eqn:Hf.
  2:{ unfold getFolder, bind, gets. by rewrite Hf. }
  pose proof (registered_id s i f Hwf Hf) as Hi.
  pose proof Hi as (e & He & Hid)%fmap_Some.
  destruct (children s f) as [es|] eqn:Hes.
  2:{ unfold getFolder, bind, gets, deref. rewrite Hf, He.
      unfold children in Hes. rewrite He in Hes. simpl in Hes.
      unfold type. by destruct (body e). }
  pose proof Hes as (e' & He' & Hb)%children_Some.
  rewrite He in He'. injection He' as <-.
  assert (type e = TFolder) as Ht by (unfold type; by rewrite Hb).
  destruct (toJSON_Ok s f e Hwf He) as (r & Hr & Hshow & _).
  destruct (toJSON_entries s f e es r s He Hb Hr) as (minis & Hitems & Hall).
  exists r, (map JObject minis).
  split; [by rewrite (getFolder_unfold i s f e)|].
  split; [destruct Hshow as (Hidr & _); by rewrite Hidr, <-Hid|].
  split; [done|].
  split; [rewrite <-sk_kids_children in Hes; by eapply (wf_nodup _ Hwf)|].
  apply Forall2_fmap_r. apply Forall2_same_length_lookup.
  split; [by eapply Forall2_length|].
  intros n c m Hc Hm.
  pose proof (Forall2_lookup_lr _ _ _ _ _ _ Hall Hc Hm) as Hrun.
  assert (c ∈ es) as Hin by (by eapply list_elem_of_lookup_2).
  destruct (child_valid s f es c Hwf Hes Hin) as [ec Hec].
  destruct (toMiniJSON_Ok s c ec Hwf Hec) as (m' & Hm' & Hshowc).
  rewrite Hrun in Hm'. injection Hm' as <-.
  pose proof (child_parent s f es c Hwf Hes Hin) as Hpar.
  destruct (parent_registered s c f Hwf Hpar) as (j & _ & Hj & Hoj & Hpj & _).
  assert (id ec = j) as Hidc.
  { unfold id_of in Hj. rewrite Hec in Hj. by injection Hj. }
  exists m, j. split; [done|].
  split; [destruct Hshowc as (Hidm & _); by rewrite Hidm, Hidc|].
  split; [done|].
  rewrite (shows_parent s ec m f e Hshowc); [by rewrite <-Hid | | done].
  apply lookup_parent_Some. by rewrite Hidc.
Qed.

(** ** Creating entries *)

Lemma toMiniJSON_shows a s r s' e :
  toMiniJSON a s = Ok r s' → heap s !! a = Some e → s' = s ∧ shows s e r.
Proof.
  intros H He.
  pose proof (reads_Ok _ _ _ _ (reads_toMiniJSON a) H) as ->. split; [done|].
  unfold toMiniJSON, bind at 1, deref at 1 in H. rewrite He in H.
  assert (∀ o s1, Entry_toMiniJSON a s = Ok o s1 →
            o = [("id", JString (id e)); ("name", JString (name e));
                 ("type", JString (type_string (type e)));
                 ("parent_id", parent_field s e);
                 ("created_at", JDate (createdAt e));
                 ("modified_at", JDate (modifiedAt e))]) as Hmini.
  { intros o s1. unfold Entry_toMiniJSON, parent_field, getParent, bind, gets, deref.
    rewrite He. destruct (lookup_parent s (id e)) as [q|]; simpl.
    - destruct (heap s !! q) as [eq|]; simpl; [|done]. by intros [= <- _].
    - by intros [= <- _]. }
  destruct (body e) as [c|es] eqn:Hb.
  - unfold File_toMiniJSON in H. apply bind_Ok in H as (o & s1 & Ho & H).
    pose proof (reads_Ok _ _ _ _ (reads_Entry_toMiniJSON a) Ho) as ->.
    apply Hmini in Ho as ->. unfold bind, deref in H. rewrite He, Hb in H.
    unfold ret in H. injection H as <-.
    repeat split; try done. intros c' E. rewrite Hb in E. by injection E as <-.
  - apply Hmini in H as ->. repeat split; try done. intros c E. congruence.
Qed.

Lemma toJSON_shows a s r s' e :
  toJSON a s = Ok r s' → heap s !! a = Some e → s' = s ∧ shows s e r.
Proof.
  intros H He.
  pose proof (reads_Ok _ _ _ _ (reads_toJSON a) H) as ->. split; [done|].
  unfold toJSON, bind at 1, deref at 1 in H. rewrite He in H.
  destruct (body e) as [c|es] eqn:Hb.
  - by destruct (toMiniJSON_shows a s r s e H He).
  - unfold Folder_toJSON, Entry_toJSON in H. apply bind_Ok in H as (o & s1 & Ho & H).
    destruct (toMiniJSON_shows a s o s1 e Ho He) as [-> Hshow].
    apply bind_Ok in H as (es1 & s2 & Hes & H).
    apply bind_Ok in H as (minis & s3 & Hm & H).
    unfold ret in H. injection H as <- _.
    destruct Hshow as (? & ? & ? & ? & ? & ? & ?).
    repeat split; by rewrite ?jget_jset_ne.
Qed.

(** A create that returns has constructed an entry and registered it under
    the folder its [parentId] names. *)
Lemma create_call_Ok call s r s' :
  create_call call s = Ok r s' →
  ∃ pid p ep es,
    default_parent (create_parentId call) s = Ok pid s ∧
    objects s !! pid = Some p ∧ heap s !! p = Some ep ∧ body ep = Folder es ∧
    s' = created (create_name call) (create_body call) p es s ∧
    toJSON (length (heap s)) s' = Ok r s'.
Proof.
  intros H.
  assert (∀ (new : M addr) nm b parentId,
    (∀ s0, new s0 = new_Entry nm b s0) →
    (let* pid := default_parent parentId in
     let* parent := gets (λ s, objects s !! pid) in
     match parent with
     | None => throw (TypeError "Parent not found.")
     | Some p =>
         let* ep := deref p in
         match type ep with
         | TFile => throw (TypeError "Parent is not a folder.")
         | TFolder => let* a := new in register a (Some p) ;;; toJSON a
         end
     end) s = Ok r s' →
    ∃ pid p ep es,
      default_parent parentId s = Ok pid s ∧
      objects s !! pid = Some p ∧ heap s !! p = Some ep ∧ body ep = Folder es ∧
      s' = created nm b p es s ∧ toJSON (length (heap s)) s' = Ok r s') as Hgen.
  { intros new nm b parentId Hnew Hrun.
    apply bind_Ok in Hrun as (pid & s0 & Hpid & Hrun).
    pose proof (reads_Ok _ _ _ _ (reads_default_parent parentId) Hpid) as ->.
    apply bind_Ok in Hrun as (parent & s0 & Hpar & Hrun).
    unfold gets in Hpar. injection Hpar as <- <-.
    destruct (objects s !! pid) as [p|] eqn:Hp; [|done].
    apply bind_Ok in Hrun as (ep & s0 & [Hep ->]%deref_Ok & Hrun).
    destruct (type ep) eqn:Ht; [done|].
    assert (∃ es, body ep = Folder es) as [es Hb].
    { unfold type in Ht. destruct (body ep); [done | eauto]. }
    rewrite (register_created new toJSON nm b p es s ep (Hnew s) Hep Hb) in Hrun.
    pose proof (reads_Ok _ _ _ _ (reads_toJSON _) Hrun) as ->.
    by exists pid, p, ep, es. }
  destruct call as [nm parentId c|nm parentId]; simpl in *.
  - by apply (Hgen (new_File nm c None)).
  - by apply (Hgen (new_Folder nm None)).
Qed.

Lemma create_call_unfold call s pid p ep es :
  default_parent (create_parentId call) s = Ok pid s →
  objects s !! pid = Some p → heap s !! p = Some ep → body ep = Folder es →
  create_call call s =
    toJSON (length (heap s)) (created (create_name call) (create_body call) p es s).
Proof.
  intros Hpid Hp Hep Hb.
  assert (type ep = TFolder) as Ht by (unfold type; by rewrite Hb).
  destruct call as [nm parentId c|nm parentId]; simpl in *.
  - unfold createFile, bind at 1. rewrite Hpid. unfold bind at 1, gets. rewrite Hp.
    unfold bind at 1, deref at 1. rewrite Hep, Ht.
    by apply (register_created (new_File nm c None) toJSON nm (File c) p es s ep).
  - unfold createFolder, bind at 1. rewrite Hpid. unfold bind at 1, gets. rewrite Hp.
    unfold bind at 1, deref at 1. rewrite Hep, Ht.
    by apply (register_created (new_Folder nm None) toJSON nm (Folder []) p es s ep).
Qed.

Lemma created_wfs call s p ep es :
  wfs s → heap s !! p = Some ep → body ep = Folder es →
  wfs (created (create_name call) (create_body call) p es s).
Proof.
  intros Hwf Hep Hb. destruct call as [nm parentId c|nm parentId]; simpl.
  - eapply ext_wfs, (created_extends false (new_File nm c None));
      eauto using new_File_skel.
  - eapply ext_wfs, (created_extends true (new_Folder nm None));
      eauto using new_Folder_skel.
Qed.

(** X3: a file can be read back.  When [createFile] returns a record, its
    [id] is the decimal form of the counter, which the call advances by one;
    the record has the given name, the kind "file" and the size of the given
    content; [getFile] of that id returns the same record right after, and
    [getFileContent] the content given. *)
Theorem createFile_then_get nm parentId c s r s' :
  createFile nm parentId c s = Ok r s' →
  jget "id" r = Some (JString (pretty (nextId s))) ∧ nextId s' = S (nextId s) ∧
  jget "name" r = Some (JString nm) ∧ jget "type" r = Some (JString "file") ∧
  jget "size" r = Some (JNumber (Z.of_nat (File_size c))) ∧
  getFile (pretty (nextId s)) s' = Ok r s' ∧
  getFileContent (pretty (nextId s)) s' = Ok c s'.
Proof.
  intros H.
  destruct (create_call_Ok (NewFile nm parentId c) s r s' H)
    as (pid & p & ep & es & _ & _ & Hep & Hb & -> & Hr).
  simpl in Hr |- *.
  destruct (created_heap nm (File c) p es s ep Hep Hb) as (_ & Hl & _).
  destruct (toJSON_shows _ _ _ _ _ Hr Hl) as [_ (Hid & Hnm & Hty & _ & _ & _ & Hsz)].
  split; [done|]. split; [done|]. split; [done|]. split; [done|].
  split; [by apply Hsz|].
  split.
  - erewrite getFile_unfold; [exact Hr | apply lookup_insert_eq | exact Hl | done].
  - unfold getFileContent, bind, gets, deref.
    change (objects (created nm (File c) p es s))
      with (<[pretty (nextId s) := length (heap s)]> (objects s)).
    by rewrite lookup_insert_eq, Hl.
Qed.

(** X4: a folder can be read back.  When [createFolder] returns a record, its
    [id] is the decimal form of the counter, which the call advances by one;
    the record has the given name, the kind "folder" and no entries, and
    [getFolder] of that id returns the same record right after. *)
Theorem createFolder_then_get nm parentId s r s' :
  createFolder nm parentId s = Ok r s' →
  jget "id" r = Some (JString (pretty (nextId s))) ∧ nextId s' = S (nextId s) ∧
  jget "name" r = Some (JString nm) ∧ jget "type" r = Some (JString "folder") ∧
  jget "entries" r = Some (JArray []) ∧
  getFolder (pretty (nextId s)) s' = Ok r s'.
Proof.
  intros H.
  destruct (create_call_Ok (NewFolder nm parentId) s r s' H)
    as (pid & p & ep & es & _ & _ & Hep & Hb & -> & Hr).
  simpl in Hr |- *.
  destruct (created_heap nm (Folder []) p es s ep Hep Hb) as (_ & Hl & _).
  destruct (toJSON_shows _ _ _ _ _ Hr Hl) as [_ (Hid & Hnm & Hty & _)].
  destruct (toJSON_entries _ _ _ [] _ _ Hl eq_refl Hr) as (minis & Hitems & Hall).
  apply Forall2_nil_inv_l in Hall as ->.
  split; [done|]. split; [done|]. split; [done|]. split; [done|].
  split; [done|].
  erewrite getFolder_unfold; [exact Hr | apply lookup_insert_eq | exact Hl | done].
Qed.

(** X5: a new entry is appended and stamped with its parent.  When
    [createFile] or [createFolder] returns in a store reached by admissible
    operations, the new entry is the last child of the folder named by
    [parentId] (the root when none is given) and [getParent] of the new id is
    that folder; the record's [parent_id] is the folder's id, its
    [created_at] is the first reading of the clock taken by the call, and its
    [modified_at], the third reading, is also the [modifiedAt] of the parent;
    every other entry is left as it was. *)
Theorem create_appends_and_stamps call s r s' :
  reachable no_cycle s →
  create_call call s = Ok r s' →
  ∃ pid p es,
    default_parent (create_parentId call) s = Ok pid s ∧
    objects s !! pid = Some p ∧ children s p = Some es ∧
    children s' p = Some (es ++ [length (heap s)]) ∧
    getParent (pretty (nextId s)) s' = Ok (Some p) s' ∧
    jget "parent_id" r = Some (JString pid) ∧
    jget "created_at" r = Some (JDate (clock s (ticks s))) ∧
    jget "modified_at" r = Some (JDate (clock s (S (S (ticks s))))) ∧
    modifiedAt <$> heap s' !! p = Some (clock s (S (S (ticks s)))) ∧
    ∀ x e, x ≠ p → heap s !! x = Some e → heap s' !! x = Some e.
Proof.
  intros Hreach H. pose proof (reachable_wfs s Hreach) as Hwf.
  destruct (create_call_Ok call s r s' H)
    as (pid & p & ep & es & Hpid & Hp & Hep & Hb & -> & Hr).
  destruct (created_heap (create_name call) (create_body call) p es s ep Hep Hb)
    as (_ & Hl & Hp' & Hold).
  destruct (toJSON_shows _ _ _ _ _ Hr Hl) as [_ Hshow].
  exists pid, p, es.
  split; [done|]. split; [done|].
  split; [apply children_Some; eauto|].
  split; [apply children_Some; eauto|].
  assert (lookup_parent (created (create_name call) (create_body call) p es s)
            (pretty (nextId s)) = Some p) as Hlp.
  { apply lookup_parent_Some. apply lookup_insert_eq. }
  split; [unfold getParent, gets; by rewrite Hlp|].
  split.
  { rewrite (shows_parent _ _ _ p _ Hshow Hlp Hp'). simpl.
    pose proof (registered_id s pid p Hwf Hp) as Hi. unfold id_of in Hi.
    rewrite Hep in Hi. by injection Hi as ->. }
  destruct Hshow as (_ & _ & _ & _ & Hc & Hm & _).
  split; [done|]. split; [done|].
  split; [by rewrite Hp'|]. done.
Qed.

(** X6: how creates end.  In a store reached by admissible operations,
    [createFile] and [createFolder] throw "Parent not found." when
    [parentId] (the id of the root when none is given) is not registered and
    "Parent is not a folder." when it is registered to a file, leaving the
    store, its counter included, as it was; in every other case they
    return. *)
Theorem create_outcome call s :
  reachable no_cycle s →
  ∃ pid, default_parent (create_parentId call) s = Ok pid s ∧
    match objects s !! pid with
    | None => create_call call s = Throw (TypeError "Parent not found.") s
    | Some p =>
        match children s p with
        | None => create_call call s = Throw (TypeError "Parent is not a folder.") s
        | Some _ => is_ok (create_call call s) = true
        end
    end.
Proof.
  intros Hreach. pose proof (reachable_sound s Hreach) as Hs.
  pose proof (snd_wfs s Hs) as Hwf.
  assert (∃ pid, default_parent (create_parentId call) s = Ok pid s) as [pid Hpid].
  { unfold default_parent. destruct (create_parentId call) as [i|]; [by eexists|].
    destruct (snd_root s Hs) as [es (e & He & _)%children_Some].
    unfold bind, gets, deref. rewrite He. by eexists. }
  exists pid. split; [done|].
  destruct (objects s !! pid) as [p|] eqn:Hp.
  2:{ destruct call as [nm parentId c|nm parentId]; simpl in *.
      - unfold createFile, bind at 1. rewrite Hpid. unfold bind, gets. by rewrite Hp.
      - unfold createFolder, bind at 1. rewrite Hpid. unfold bind, gets. by rewrite Hp. }
  pose proof (registered_id s pid p Hwf Hp) as (ep & Hep & _)%fmap_Some.
  destruct (children s p) as [es|] eqn:Hes.
  - apply children_Some in Hes as (ep' & Hep' & Hb).
    rewrite Hep in Hep'. injection Hep' as <-.
    rewrite (create_call_unfold call s pid p ep es Hpid Hp Hep Hb).
    destruct (created_heap (create_name call) (create_body call) p es s ep Hep Hb)
      as (_ & Hl & _).
    destruct (toJSON_Ok _ _ _ (created_wfs call s p ep es Hwf Hep Hb) Hl)
      as (r & -> & _).
    done.
  - assert (type ep = TFile) as Ht.
    { unfold children in Hes. rewrite Hep in Hes. simpl in Hes.
      unfold type. by destruct (body ep). }
    destruct call as [nm parentId c|nm parentId]; simpl in *.
    + unfold createFile, bind at 1. rewrite Hpid. unfold bind, gets, deref.
      by rewrite Hp, Hep, Ht.
    + unfold createFolder, bind at 1. rewrite Hpid. unfold bind, gets, deref.
      by rewrite Hp, Hep, Ht.
Qed.

(** ** Deleting entries *)

(** The child arrays after a successful [#unregister]. *)
Lemma sk_kids_unregister k f i q a :
  wf k → sk_id k f = Some i →
  sk_kids (sk_unregister f i q k) a = detach f q a <$> sk_kids k a.
Proof.
  intros Hwf Hf. unfold sk_unregister.
  apply (sk_kids_remove q f (sk_unbind i k) a i); try done.
  - apply Hwf.
  - intros es c Hes Hin. destruct (wf_kids k Hwf q es c Hes Hin) as (j & Hj & _).
    by exists j.
Qed.

Lemma deleteFile_unregisters s i f :
  sound s →
  objects s !! i = Some f → children s f = None →
  ∃ s' q es,
    deleteFile i s = Ok tt s' ∧
    parentOf s f = Some q ∧ children s q = Some es ∧
    objects s' = delete i (objects s) ∧ parents s' = delete i (parents s) ∧
    children s' q = Some (filter (λ x, x ≠ f) es) ∧
    length (filter (λ x, x ≠ f) es) + 1 = length es ∧
    (∀ a, a ≠ q → children s' a = children s a) ∧
    getFile i s' = Throw (TypeError "File not found.") s' ∧
    deleteFile i s' = Throw (TypeError "File not found.") s' ∧
    getParent i s' = Ok None s' ∧ nextId s' = nextId s.
Proof.
  intros Hs Hf Hfile.
  pose proof (snd_wfs s Hs) as Hwf.
  destruct (registered_parent s i f Hs Hf (file_not_root s f Hs Hfile))
    as (q & jq & es & Hpar & Hq & _ & _ & Hes & Hin).
  pose proof (registered_id s i f Hwf Hf) as Hi.
  pose proof Hi as (e & He & Hid)%fmap_Some.
  assert (type e = TFile) as Ht.
  { unfold children in Hfile. rewrite He in Hfile. simpl in Hfile.
    unfold type. by destruct (body e). }
  assert (deleteFile i s = unregister f s) as Hrun.
  { unfold deleteFile, bind, gets, deref. by rewrite Hf, He, Ht. }
  destruct (unregister_cases f s Hwf) as [[Hnone _]|(i' & Hi' & H)]; [congruence|].
  assert (i' = i) as -> by congruence.
  destruct H as [(Hp & _)|(q' & Hq' & s' & Hun & Hs')].
  { apply lookup_parent_Some in Hq. congruence. }
  assert (q' = q) as -> by congruence.
  assert (objects s' = delete i (objects s)) as Ho.
  { change (sk_objects (skel s') = delete i (objects s)). rewrite Hs'.
    unfold sk_unregister. by rewrite sk_objects_remove. }
  assert (parents s' = delete i (parents s)) as Hp.
  { change (sk_parents (skel s') = delete i (parents s)). rewrite Hs'.
    unfold sk_unregister. by rewrite sk_parents_remove. }
  assert (∀ a, children s' a = detach f q a <$> children s a) as Hkids.
  { intros a. rewrite <-!sk_kids_children, Hs'.
    apply sk_kids_unregister; [done | by rewrite sk_id_skel]. }
  exists s', q, es. rewrite Hrun.
  split; [done|]. split; [done|]. split; [done|]. split; [done|]. split; [done|].
  split; [rewrite Hkids, Hes; simpl; unfold detach; by rewrite decide_True|].
  split.
  { apply length_filter_drop; [|done]. rewrite <-sk_kids_children in Hes.
    by eapply (wf_nodup _ Hwf). }
  split.
  { intros a Ha. rewrite Hkids. destruct (children s a) as [es0|]; [|done].
    simpl. unfold detach. by rewrite decide_False. }
  split; [unfold getFile, bind, gets; by rewrite Ho, lookup_delete_eq|].
  split; [unfold deleteFile, bind, gets; by rewrite Ho, lookup_delete_eq|].
  split; [unfold getParent, gets, lookup_parent; by rewrite Hp, lookup_delete_eq|].
  change (sk_next (skel s') = sk_next (skel s)). rewrite Hs'.
  unfold sk_unregister. by rewrite sk_next_remove.
Qed.

(** X7: [deleteFile] takes one entry out.  In a store reached by admissible
    operations, [deleteFile] of a registered file returns; it deletes the id
    from both maps, so that [getFile] and a second [deleteFile] then throw
    "File not found." and [getParent] returns undefined; the child array of
    the folder that held the file loses that file and nothing else, and every
    other child array, and the counter, are as they were. *)
Theorem deleteFile_removes_one s i f :
  reachable no_cycle s →
  objects s !! i = Some f → children s f = None →
  ∃ s' q es,
    deleteFile i s = Ok tt s' ∧
    parentOf s f = Some q ∧ children s q = Some es ∧
    objects s' = delete i (objects s) ∧ parents s' = delete i (parents s) ∧
    children s' q = Some (filter (λ x, x ≠ f) es) ∧
    length (filter (λ x, x ≠ f) es) + 1 = length es ∧
    (∀ a, a ≠ q → children s' a = children s a) ∧
    getFile i s' = Throw (TypeError "File not found.") s' ∧
    deleteFile i s' = Throw (TypeError "File not found.") s' ∧
    getParent i s' = Ok None s' ∧ nextId s' = nextId s.
Proof. intros Hreach. by apply deleteFile_unregisters, reachable_sound. Qed.

Global Instance stable_createdAt_frame : Frame (stable createdAt).
Proof. by apply stable_frame. Qed.

(** X8: [deleteFolder] leaves the rest of the store alone.  In a store reached
    by admissible operations, after [deleteFolder] of a folder, given call
    stack for more levels than the store has entries, every registered entry
    outside the subtree of that folder is still registered, under the same
    parent, with the name, the kind, the content and the [createdAt] it
    had. *)
Theorem deleteFolder_keeps_the_rest s i a fuel :
  reachable no_cycle s →
  objects s !! i = Some a → is_Some (children s a) →
  length (heap s) < fuel →
  ∀ j x e, objects s !! j = Some x → ¬ below s x a → heap s !! x = Some e →
    objects (state_of (deleteFolder fuel i s)) !! j = Some x ∧
    parents (state_of (deleteFolder fuel i s)) !! j = parents s !! j ∧
    ∃ e', heap (state_of (deleteFolder fuel i s)) !! x = Some e' ∧
      name e' = name e ∧ type e' = type e ∧
      file_content e' = file_content e ∧ createdAt e' = createdAt e.
Proof.
  intros Hreach Ha Hdir Hlen j x e Hx Hout He.
  pose proof (reachable_wfs s Hreach) as Hwf.
  destruct (deleteFolder_deletes fuel s i a [] Hwf Ha Hdir) as [[_ _ Hkeep _] _].
  { apply NoDup_singleton. }
  { intros y Hy. by apply elem_of_nil in Hy. }
  { simpl. lia. }
  destruct (Hkeep j x Hx Hout) as [Hj Hp]. split; [done|]. split; [done|].
  destruct (keeps_deleteFolder (stable name) fuel i s x e He) as (e1 & He1 & Hn).
  destruct (keeps_deleteFolder (stable type) fuel i s x e He) as (e2 & He2 & Ht).
  destruct (keeps_deleteFolder (stable file_content) fuel i s x e He) as (e3 & He3 & Hc).
  destruct (keeps_deleteFolder (stable createdAt) fuel i s x e He) as (e4 & He4 & Hd).
  exists e1. split; [done|]. simplify_eq. done.
Qed.

(** ** Moving entries *)

(** A successful move, on the skeleton. *)
Lemma move_call_skel s m r s' f q p :
  wfs s → move_call m s = Ok r s' →
  truthy_string (target_id m) = true →
  objects s !! moved_id m = Some f → parentOf s f = Some q →
  objects s !! target_id m = Some p →
  skel s' = sk_move f (moved_id m) q p (skel s) ∧ toJSON f s' = Ok r s' ∧
  is_Some (children s p).
Proof.
  intros Hwf Hcall Htr Hf Hq Hp.
  assert (∃ s2, skel s2 = skel s ∧ move_to f (Some (target_id m)) s2 = Ok tt s' ∧
                toJSON f s' = Ok r s') as (s2 & Hk2 & Hmove & Hr).
  { destruct m as [i nm c pid|i nm pid]; simpl in *.
    - apply updateFile_Ok in Hcall as (f' & s2 & Hf' & Hk2 & Hmove & Hr).
      rewrite Hf in Hf'. injection Hf' as <-. eauto.
    - apply updateFolder_Ok in Hcall as (f' & s2 & Hf' & Hk2 & Hmove & Hr).
      rewrite Hf in Hf'. injection Hf' as <-. eauto. }
  assert (wfs s2) as Hwf2 by (by eapply wfs_skel_eq).
  destruct (move_to_cases f (Some (target_id m)) s2 Hwf2)
    as [[_ Hno]|(pid & p' & i & q' & s3 & [= <-] & _ & Hp' & Hcp & Hi & Hq' & Hmv & Hk3)].
  { rewrite Hmove in Hno. specialize (Hno eq_refl). simpl in Hno. congruence. }
  rewrite Hmove in Hmv. injection Hmv as <-.
  assert (objects s2 = objects s) as Ho2.
  { change (sk_objects (skel s2) = sk_objects (skel s)). by rewrite Hk2. }
  rewrite Ho2, Hp in Hp'. injection Hp' as <-.
  rewrite <-sk_id_skel, Hk2, sk_id_skel in Hi.
  assert (i = moved_id m) as ->.
  { pose proof (registered_id s _ f Hwf Hf). congruence. }
  change (sk_parents (skel s2) !! moved_id m = Some (Some q')) in Hq'.
  rewrite Hk2 in Hq'.
  assert (q' = q) as ->.
  { apply parentOf_Some in Hq as (j & Hj & Hpj).
    assert (j = moved_id m) as -> by congruence. simpl in Hq'. congruence. }
  split; [by rewrite Hk3, Hk2|]. split; [done|].
  by rewrite <-sk_kids_children, <-Hk2, sk_kids_children.
Qed.

(** X9: a move touches two child arrays.  After a successful [updateFile] or
    [updateFolder] with a [parentId], in a store reached by admissible
    operations, the entry is the last child of the folder named and
    [getParent] of its id is that folder; the record returned shows that
    folder's id as [parent_id]; the child arrays of all folders other than the
    old and the new parent are as they were; and when the folder named is the
    one the entry is in already, that folder's array keeps its length, with
    the entry moved to the end. *)
Theorem move_rearranges_two_arrays s m r s' f q p :
  reachable no_cycle s →
  move_call m s = Ok r s' →
  truthy_string (target_id m) = true →
  objects s !! moved_id m = Some f → parentOf s f = Some q →
  objects s !! target_id m = Some p →
  ∃ esq esp,
    children s q = Some esq ∧ children s p = Some esp ∧
    children s' p = Some (filter (λ x, x ≠ f) esp ++ [f]) ∧
    (p = q → length (filter (λ x, x ≠ f) esp ++ [f]) = length esp) ∧
    (∀ a, a ≠ q → a ≠ p → children s' a = children s a) ∧
    getParent (moved_id m) s' = Ok (Some p) s' ∧
    jget "parent_id" r = Some (JString (target_id m)).
Proof.
  intros Hreach Hcall Htr Hf Hq Hp.
  pose proof (reachable_wfs s Hreach) as Hwf.
  destruct (move_call_skel s m r s' f q p Hwf Hcall Htr Hf Hq Hp)
    as (Hk & Hr & [esp Hesp]).
  pose proof (registered_id s _ f Hwf Hf) as Hi.
  destruct (parent_registered s f q Hwf Hq) as (i' & esq & Hi' & _ & _ & Hesq & Hin).
  pose proof (wf_nodup _ Hwf q esq) as Hnd. rewrite sk_kids_children in Hnd.
  specialize (Hnd Hesq).
  assert (∀ a, children s' a = attach f p a <$> (detach f q a <$> children s a)) as Hkids.
  { intros a. rewrite <-!sk_kids_children, Hk.
    apply sk_kids_move; [done | by rewrite sk_id_skel]. }
  assert (lookup_parent s' (moved_id m) = Some p) as Hlp.
  { apply lookup_parent_Some. change (sk_parents (skel s') !! moved_id m = Some (Some p)).
    rewrite Hk. unfold sk_move. rewrite sk_parents_add. simpl. apply lookup_insert_eq. }
  assert (∀ x, id_of s' x = id_of s x) as Hids.
  { intros x. rewrite <-!sk_id_skel, Hk. unfold sk_move.
    by rewrite sk_id_add, sk_id_bind, sk_id_remove. }
  exists esq, esp. split; [done|]. split; [done|]. split.
  { rewrite Hkids, Hesp. simpl. unfold attach, detach. rewrite decide_True by done.
    destruct (decide (p = q)) as [->|Hpq]; [done|].
    rewrite filter_keep_all; [done|]. intros x Hx ->.
    pose proof (child_parent s p esp f Hwf Hesp Hx). congruence. }
  split.
  { intros ->. assert (esp = esq) as -> by congruence.
    rewrite length_app. simpl. by apply length_filter_drop. }
  split.
  { intros a Haq Hap. rewrite Hkids. destruct (children s a) as [es|]; [|done].
    simpl. unfold attach, detach. by rewrite !decide_False. }
  split; [unfold getParent, gets; by rewrite Hlp|].
  pose proof (Hids f) as Hf'. rewrite Hi in Hf'.
  apply fmap_Some in Hf' as (e' & He' & Hide').
  pose proof (registered_id s _ p Hwf Hp) as Hip. rewrite <-Hids in Hip.
  apply fmap_Some in Hip as (ep' & Hep' & Hidp').
  destruct (toJSON_shows _ _ _ _ _ Hr He') as [_ Hshow].
  rewrite (shows_parent s' e' r p ep' Hshow); [by rewrite <-Hidp' | | done].
  by rewrite <-Hide'.
Qed.

(** ** Renaming and writing *)

Lemma alter_alter {A} (g h : A → A) a (l : list A) :
  alter g a (alter h a l) = alter (λ x, g (h x)) a l.
Proof.
  apply list_eq. intros n. destruct (decide (a = n)) as [->|Hne].
  - rewrite !list_lookup_alter_eq. by destruct (l !! n).
  - by rewrite !list_lookup_alter_ne.
Qed.

(** X10: a rename changes a name and a date.  In a store reached by
    admissible operations, [updateFile] or [updateFolder] of a registered
    entry of the right kind with a non-empty [name] and nothing else returns a
    record with that name and with the clock's next reading as
    [modified_at]; in the store only that entry has changed, in its name and
    its [modifiedAt]: the parent is not stamped, and the maps, the child
    arrays and the counter are as they were. *)
Theorem rename_changes_name_and_date s i f e nm :
  reachable no_cycle s →
  objects s !! i = Some f → heap s !! f = Some e →
  truthy_string nm = true →
  ∃ r s',
    rename_call (type e) i nm s = Ok r s' ∧
    jget "name" r = Some (JString nm) ∧
    jget "modified_at" r = Some (JDate (clock s (ticks s))) ∧
    heap s' = alter (λ e, set_modifiedAt (clock s (ticks s)) (set_name nm e)) f (heap s) ∧
    objects s' = objects s ∧ parents s' = parents s ∧ nextId s' = nextId s.
Proof.
  intros Hreach Hf He Htr. pose proof (reachable_wfs s Hreach) as Hwf.
  set (s1 := with_heap (alter (set_modifiedAt (clock s (ticks s))) f)
               (with_ticks S (with_heap (alter (set_name nm) f) s))).
  assert (rename_to f (Some nm) s = Ok tt s1) as Hren.
  { unfold rename_to. rewrite Htr. reflexivity. }
  assert (rename_call (type e) i nm s = toJSON f s1) as Hrun.
  { unfold rename_call. destruct (type e) eqn:Ht.
    - unfold updateFile, bind at 1, gets. rewrite Hf.
      unfold bind at 1, deref at 1. rewrite He, Ht.
      unfold bind at 1. rewrite Hren. reflexivity.
    - unfold updateFolder, bind at 1, gets. rewrite Hf.
      unfold bind at 1, deref at 1. rewrite He, Ht.
      unfold bind at 1. rewrite Hren. reflexivity. }
  assert (heap s1 = alter (λ e, set_modifiedAt (clock s (ticks s)) (set_name nm e)) f
                      (heap s)) as Hheap.
  { unfold s1. simpl. apply alter_alter. }
  assert (wfs s1) as Hwf1.
  { eapply wfs_skel_eq; [|exact Hwf].
    pose proof (rename_to_skel f (Some nm) s) as Hk. by rewrite Hren in Hk. }
  assert (heap s1 !! f = Some (set_modifiedAt (clock s (ticks s)) (set_name nm e))) as He1.
  { rewrite Hheap, list_lookup_alter_eq, He. done. }
  destruct (toJSON_Ok s1 f _ Hwf1 He1) as (r & Hr & (_ & Hnm & _ & _ & _ & Hm & _) & _).
  exists r, s1. rewrite Hrun. by repeat split.
Qed.

(** X11: [updateFile] writes content and stamps the parent.  In a store
    reached by admissible operations, [updateFile] of a registered file with
    truthy content (an empty ArrayBuffer included) and nothing else returns a
    record with the size of that content; [getFileContent] then returns that
    content; the file and the folder that holds it get the clock's next
    reading as [modifiedAt]; no other entry, no child array and neither map
    changes. *)
Theorem updateFile_writes_content s i f c :
  reachable no_cycle s →
  objects s !! i = Some f → children s f = None →
  truthy_content c = true →
  ∃ r s' q,
    updateFile i None c None s = Ok r s' ∧ parentOf s f = Some q ∧
    getFileContent i s' = Ok c s' ∧
    jget "size" r = Some (JNumber (Z.of_nat (File_size c))) ∧
    jget "modified_at" r = Some (JDate (clock s (ticks s))) ∧
    modifiedAt <$> heap s' !! q = Some (clock s (ticks s)) ∧
    (∀ x, x ≠ f → x ≠ q → heap s' !! x = heap s !! x) ∧
    (∀ a, children s' a = children s a) ∧
    objects s' = objects s ∧ parents s' = parents s.
Proof.
  intros Hreach Hf Hfile Htr. pose proof (reachable_sound s Hreach) as Hs.
  pose proof (snd_wfs s Hs) as Hwf.
  destruct (registered_parent s i f Hs Hf (file_not_root s f Hs Hfile))
    as (q & jq & es & Hpar & Hq & Hjq & _ & Hes & Hin).
  pose proof (registered_id s i f Hwf Hf) as Hi.
  pose proof Hi as (e & He & Hid)%fmap_Some.
  assert (∃ c0, body e = File c0) as [c0 Hb].
  { unfold children in Hfile. rewrite He in Hfile. simpl in Hfile.
    destruct (body e); [eauto | done]. }
  assert (type e = TFile) as Ht by (unfold type; by rewrite Hb).
  assert (f ≠ q) as Hfq.
  { intros ->. rewrite Hes in Hfile. done. }
  set (t := clock s (ticks s)).
  set (s1 := with_heap (alter (set_modifiedAt t) q)
               (with_heap (alter (set_modifiedAt t) f)
                  (with_ticks S (with_heap (alter (set_body (File c)) f) s)))).
  assert (File_set_content f c s = Ok tt s1) as Hset.
  { unfold File_set_content, update, modify, new_Date, bind, deref, getParent, gets. simpl.
    rewrite !list_lookup_alter_eq, He. simpl.
    rewrite Hid in Hq. unfold lookup_parent. simpl. by rewrite Hq. }
  assert (updateFile i None c None s = toJSON f s1) as Hrun.
  { unfold updateFile, bind at 1, gets. rewrite Hf.
    unfold bind at 1, deref at 1. rewrite He, Ht. simpl.
    unfold bind at 1. simpl. unfold bind at 1. rewrite Htr, Hset. reflexivity. }
  assert (skel s1 = skel s) as Hk.
  { pose proof (File_set_content_skel f c s e c0 He Hb) as Hk. by rewrite Hset in Hk. }
  assert (wfs s1) as Hwf1 by (by eapply wfs_skel_eq).
  assert (heap s1 !! f = Some (set_modifiedAt t (set_body (File c) e))) as He1.
  { unfold s1. simpl. rewrite list_lookup_alter_ne by done.
    by rewrite !list_lookup_alter_eq, He. }
  destruct (toJSON_Ok s1 f _ Hwf1 He1) as (r & Hr & (_ & _ & _ & _ & _ & Hm & Hsz) & _).
  exists r, s1, q. rewrite Hrun.
  split; [done|]. split; [done|]. split.
  { unfold getFileContent, bind, gets, deref.
    change (objects s1) with (objects s). by rewrite Hf, He1. }
  split; [by apply Hsz|]. split; [done|]. split.
  { unfold s1. simpl. rewrite list_lookup_alter_eq.
    rewrite !list_lookup_alter_ne by done.
    apply children_Some in Hes as (eq & Heq & _). by rewrite Heq. }
  split.
  { intros x Hxf Hxq. unfold s1. simpl. by rewrite !list_lookup_alter_ne. }
  split; [|done].
  intros a. by rewrite <-!sk_kids_children, Hk.
Qed.

(** ** What no operation changes *)

Section frame_exec.
Context (R : State → State → Prop) `{!Frame R}.

Lemma keeps_rename_to_if a nm :
(truthy_opt nm = true → frames_name R) → preserves R (rename_to a nm).
Proof.
intros Hn. unfold rename_to. destruct nm as [n|]; [|apply keeps_reads, reads_ret; apply _].
simpl in Hn. destruct (truthy_string n);
  [by apply keeps_Entry_set_name; auto | apply keeps_reads, reads_ret; apply _].
Qed.

Lemma keeps_updateFile_if i nm c parentId :
(truthy_opt nm = true → frames_name R) → (truthy_content c = true → frames_content R) →
preserves R (updateFile i nm c parentId).
Proof.
intros Hn Hc s. unfold updateFile, bind at 1, gets.
destruct (objects s !! i) as [f|]; [|reflexivity].
unfold bind at 1, deref.
destruct (heap s !! f) as [e|] eqn:He; [|reflexivity].
destruct (type e) eqn:Ht; [|reflexivity].
unfold bind at 1.
pose proof (keeps_rename_to_if f nm Hn s) as H1.
destruct (keeps_rename_to (stable type) f nm stable_type_name s f e He)
  as (e1 & He1 & Ht1).
destruct (rename_to f nm s) as [[] s1|]; simpl in *; [|done].
etrans; [exact H1|].
unfold bind at 1.
assert (R s1 (state_of
  ((if truthy_content c then File_set_content f c else ret tt) s1))) as H2.
{ destruct (truthy_content c); [|reflexivity].
  unfold type in Ht1, Ht. destruct (body e1) as [c1|] eqn:Hb1.
  - eapply keeps_File_set_content; eauto.
  - by destruct (body e). }
destruct ((if truthy_content c then File_set_content f c else ret tt) s1)
  as [[] s2|]; simpl in *; [|done].
etrans; [exact H2|].
apply (keeps_bind R); [by apply keeps_move_to|]. intros _.
apply keeps_reads, reads_toJSON. apply _.
Qed.

Lemma keeps_updateFolder_if i nm parentId :
(truthy_opt nm = true → frames_name R) → preserves R (updateFolder i nm parentId).
Proof.
intros Hn. unfold updateFolder.
apply (keeps_bind R); [apply keeps_reads, reads_gets; apply _|].
intros [f|]; [|apply keeps_reads, reads_throw; apply _].
apply (keeps_bind R); [apply keeps_reads, reads_deref; apply _|]. intros e.
destruct (type e); [apply keeps_reads, reads_throw; apply _|].
apply (keeps_bind R); [by apply keeps_rename_to_if|]. intros _.
apply (keeps_bind R); [by apply keeps_move_to|]. intros _.
apply keeps_reads, reads_toJSON. apply _.
Qed.

Lemma keeps_exec_if op :
(renames op = true → frames_name R) → (writes op = true → frames_content R) →
∀ s, R s (exec op s).
Proof.
intros Hn Hc s. destruct op; simpl in *.
- by apply keeps_createFile.
- rewrite reads_getFile. reflexivity.
- rewrite reads_getFileContent. reflexivity.
- by apply keeps_updateFile_if.
- by apply keeps_deleteFile.
- by apply keeps_createFolder.
- rewrite reads_getFolder. reflexivity.
- by apply keeps_updateFolder_if.
- by apply keeps_deleteFolder.
Qed.
End frame_exec.

(** X12: what operations leave alone.  No operation removes an entry object
    or changes its id, its kind or its [createdAt]; the name of an entry
    changes only in an [updateFile] or [updateFolder] that is given a
    non-empty name, and the content of a file only in an [updateFile] that is
    given truthy content. *)
Theorem entries_keep_identity op s a e :
  heap s !! a = Some e →
  ∃ e', heap (exec op s) !! a = Some e' ∧
    id e' = id e ∧ type e' = type e ∧ createdAt e' = createdAt e ∧
    (renames op = false → name e' = name e) ∧
    (writes op = false → file_content e' = file_content e).
Proof.
  intros He.
  destruct (keeps_exec (stable id) op (stable_frames_name id (λ _ _, eq_refl))
              (stable_frames_content id (λ _ _ _ _, eq_refl)) s a e He)
    as (e' & He' & Hid).
  exists e'. split; [done|]. split; [done|].
  destruct (keeps_exec (stable type) op stable_type_name stable_type_content s a e He)
    as (e1 & He1 & Ht).
  destruct (keeps_exec (stable createdAt) op
              (stable_frames_name createdAt (λ _ _, eq_refl))
              (stable_frames_content createdAt (λ _ _ _ _, eq_refl)) s a e He)
    as (e2 & He2 & Hc).
  split; [congruence|]. split; [congruence|]. split.
  - intros Hr.
    destruct (keeps_exec_if (stable name) op) with (s := s) (a := a) (e := e)
      as (e3 & He3 & Hn); try done; [congruence| |congruence].
    intros _. by apply stable_frames_content.
  - intros Hw.
    destruct (keeps_exec_if (stable file_content) op) with (s := s) (a := a) (e := e)
      as (e3 & He3 & Hn); try done; [|congruence|congruence].
    intros _. by apply stable_frames_name.
Qed.

(** ** The root stays *)

Lemma root_unparented s e :
  rooted s → heap s !! root s = Some e → lookup_parent s (id e) = None.
Proof.
  intros (_ & rid & Hr & Hnone & _) He. rewrite sk_id_skel in Hr. unfold id_of in Hr.
  rewrite He in Hr. injection Hr as <-. done.
Qed.

(** X13: the root cannot be moved.  In a store reached by admissible
    operations, [updateFolder] of the root with a non-empty [parentId] always
    throws, and leaves both maps and every child array as they were. *)
Theorem root_cannot_be_moved s i nm pid :
  reachable no_cycle s →
  objects s !! i = Some (root s) → truthy_string pid = true →
  is_ok (updateFolder i nm (Some pid) s) = false ∧
  objects (state_of (updateFolder i nm (Some pid) s)) = objects s ∧
  parents (state_of (updateFolder i nm (Some pid) s)) = parents s ∧
  ∀ a, children (state_of (updateFolder i nm (Some pid) s)) a = children s a.
Proof.
  intros Hreach Hi Htr. pose proof (reachable_sound s Hreach) as [Hwf Hrt Hl Hroot].
  destruct Hroot as [es (e & He & Hb)%children_Some].
  assert (type e = TFolder) as Ht by (unfold type; by rewrite Hb).
  destruct (rename_to_Ok (root s) nm s) as [s1 Hren].
  pose proof (rename_to_skel (root s) nm s) as Hk1. rewrite Hren in Hk1. simpl in Hk1.
  pose proof (keeps_rename_to_if root_same (root s) nm (λ _, root_same_name) s) as Hr1.
  rewrite Hren in Hr1. simpl in Hr1.
  assert (wfs s1) as Hwf1 by (by eapply wfs_skel_eq).
  assert (rooted s1) as Hrt1 by (by eapply rooted_skel).
  assert (updateFolder i nm (Some pid) s
          = (move_to (root s) (Some pid) ;;; toJSON (root s)) s1) as Hrun.
  { unfold updateFolder, bind at 1, gets. rewrite Hi.
    unfold bind at 1, deref at 1. rewrite He, Ht.
    unfold bind at 1. by rewrite Hren. }
  assert (∃ err, move_to (root s) (Some pid) s1 = Throw err s1) as [err Hmove].
  { destruct (move_to_cases (root s) (Some pid) s1 Hwf1)
      as [[Hst Hno]|(pid' & p & j & q & s' & _ & _ & _ & _ & Hj & Hq & _)].
    - destruct (move_to (root s) (Some pid) s1) as [[] s2|err s2]; simpl in *.
      + specialize (Hno eq_refl). congruence.
      + subst s2. by exists err.
    - exfalso. destruct Hrt1 as (_ & rid & Hr & Hnone & _).
      rewrite Hr1, sk_id_skel in Hr. assert (rid = j) as -> by congruence.
      simpl in Hnone. by rewrite Hq in Hnone. }
  rewrite Hrun. unfold bind. rewrite Hmove. simpl.
  split; [done|].
  split; [change (sk_objects (skel s1) = sk_objects (skel s)); by rewrite Hk1|].
  split; [change (sk_parents (skel s1) = sk_parents (skel s)); by rewrite Hk1|].
  intros a. by rewrite <-!sk_kids_children, Hk1.
Qed.

Lemma delete_entry_root fuel c : preserves root_same (delete_entry fuel c).
Proof.
  unfold delete_entry.
  apply (keeps_bind root_same); [apply keeps_reads, reads_deref; apply _|]. intros ee.
  destruct (type ee); [apply keeps_deleteFile | apply keeps_deleteFolder]; apply _.
Qed.

(** X14: the root cannot be deleted.  In a store reached by admissible
    operations, [deleteFolder] of the root never returns: whatever the call
    stack, it ends in an error. *)
Theorem root_cannot_be_deleted s i fuel :
  reachable no_cycle s →
  objects s !! i = Some (root s) →
  is_ok (deleteFolder fuel i s) = false.
Proof.
  intros Hreach Hi. pose proof (reachable_sound s Hreach) as [Hwf Hrt Hl Hroot].
  destruct fuel as [|fuel]; [done|].
  destruct (deleteFolder_S_cases fuel i s) as [[_ Hno]|(f & e & es & Hf & He & Hb & ->)];
    [done|].
  rewrite Hi in Hf. injection Hf as <-.
  assert (invariant tree (forM_ es (delete_entry fuel))) as Hinv.
  { apply invariant_forM_. intros c. unfold delete_entry.
    apply invariant_bind; [apply invariant_reads, reads_deref|]. intros ee.
    destruct (type ee); [apply tree_deleteFile | apply tree_deleteFolder]. }
  specialize (Hinv s (conj Hwf Hrt)).
  pose proof (keeps_forM_ root_same es (delete_entry fuel)
                (delete_entry_root fuel) s) as Hsame.
  pose proof (forM_shrinks es (delete_entry fuel) (delete_entry_wfs fuel)
                (delete_entry_shrinks fuel) s Hwf) as Hsh.
  unfold bind.
  destruct (forM_ es (delete_entry fuel) s) as [[] s1|err s1]; simpl in *; [|done].
  destruct Hinv as [Hwf1 Hrt1].
  assert (is_Some (heap s1 !! root s1)) as [e1 He1].
  { rewrite Hsame. pose proof (sh_ids _ _ Hsh (root s)) as Hid. unfold id_of in Hid.
    rewrite He in Hid. by destruct (heap s1 !! root s). }
  rewrite <-Hsame, (unregister_unfold _ s1 e1 He1). simpl.
  by rewrite (root_unparented s1 e1 Hrt1 He1).
Qed.

(** ** The store is one tree *)

(** X15: child arrays and the parent map agree.  In a store reached by
    admissible operations, a folder is the parent of an entry, as
    [getParent] finds it, exactly when the entry is in the folder's child
    array; no array lists an entry twice, and every id that is registered
    belongs to the entry it is registered to. *)
Theorem arrays_agree_with_parents s :
  reachable no_cycle s →
  (∀ c q, parentOf s c = Some q ↔ ∃ es, children s q = Some es ∧ c ∈ es) ∧
  (∀ q es, children s q = Some es → NoDup es) ∧
  (∀ i a, objects s !! i = Some a → id_of s a = Some i).
Proof.
  intros Hreach. pose proof (reachable_wfs s Hreach) as Hwf.
  split; [|split].
  - intros c q. split.
    + intros Hq. destruct (parent_registered s c q Hwf Hq) as (i & es & _ & _ & _ & H).
      by exists es.
    + intros (es & Hes & Hin). by eapply child_parent.
  - intros q es Hes. rewrite <-sk_kids_children in Hes. by eapply (wf_nodup _ Hwf).
  - intros i a. by apply registered_id.
Qed.

(** Climbing from a registered entry ends at the root; [path] lists
    descendants of the entry already passed. *)
Lemma climbs_to_root s n : ∀ a path,
  sound s → is_Some (heap s !! a) → (a ≠ root s → ∃ i, objects s !! i = Some a) →
  NoDup (a :: path) → (∀ y, y ∈ path → ancestor s a y) →
  length (heap s) < n + length (a :: path) →
  below s a (root s).
Proof.
  induction n as [|n IH]; intros a path Hs Ha Hreg Hnd Hdesc Hlen.
  - exfalso. assert (length (a :: path) ≤ length (heap s))%nat; [|simpl in *; lia].
    apply pigeonhole; [done|]. intros y [->|Hy]%elem_of_cons.
    + destruct Ha as [e He]. by eapply lookup_lt_Some.
    + apply Hdesc in Hy. apply up_first in Hy as [p Hp].
      unfold parentOf in Hp. destruct (heap s !! y) eqn:E; [|done].
      by eapply lookup_lt_Some.
  - destruct (decide (a = root s)) as [->|Hne]; [by left|].
    destruct (Hreg Hne) as [i Hi].
    destruct (registered_parent s i a Hs Hi Hne)
      as (q & jq & es & Hpar & _ & Hjq & Hoq & _).
    pose proof (snd_wfs s Hs) as Hwf.
    eapply below_trans; [by apply below_parent|].
    apply (IH q (a :: path)); try done.
    + apply fmap_Some in Hjq as (eq & Heq & _). eauto.
    + eauto.
    + apply NoDup_cons. split; [|done]. intros Hin.
      apply (wfs_acyclic s Hwf a). apply elem_of_cons in Hin as [->|Hin].
      * by apply up_parent.
      * eapply ancestor_trans; [by apply Hdesc|]. by apply up_parent.
    + intros y [->|Hy]%elem_of_cons.
      * by apply up_parent.
      * eapply ancestor_trans; [|by apply Hdesc]. by apply up_parent.
    + simpl in *. lia.
Qed.

(** X16: the store is one tree.  In a store reached by admissible operations,
    every registered entry is the root or a descendant of the root. *)
Theorem registered_entries_descend_from_root s i a :
  reachable no_cycle s → objects s !! i = Some a →
  a = root s ∨ ancestor s (root s) a.
Proof.
  intros Hreach Ha. pose proof (reachable_sound s Hreach) as Hs.
  apply (climbs_to_root s (S (length (heap s))) a []); try done.
  - pose proof (registered_id s i a (snd_wfs s Hs) Ha) as (e & He & _)%fmap_Some. eauto.
  - eauto.
  - apply NoDup_singleton.
  - intros y Hy. by apply elem_of_nil in Hy.
  - simpl. lia.
Qed.

(** ** Sizes of text *)

Lemma length_utf8_of_scalar c :
  length (utf8_of_scalar c) =
  if (c <? 0x80)%N then 1 else if (c <? 0x800)%N then 2
  else if (c <? 0x10000)%N then 3 else 4.
Proof.
  unfold utf8_of_scalar.
  destruct (c <? 0x80)%N; [done|]. destruct (c <? 0x800)%N; [done|].
  by destruct (c <? 0x10000)%N.
Qed.

Lemma encode_cons u rest :
  TextEncoder_encode (u :: rest) =
  if is_lead u then
    match rest with
    | v :: rest' =>
        if is_trail v
        then utf8_of_scalar (0x10000 + (u - 0xD800) * 0x400 + (v - 0xDC00))%N
               ++ TextEncoder_encode rest'
        else utf8_of_scalar 0xFFFD%N ++ TextEncoder_encode rest
    | [] => utf8_of_scalar 0xFFFD%N
    end
  else if is_trail u then utf8_of_scalar 0xFFFD%N ++ TextEncoder_encode rest
  else utf8_of_scalar u ++ TextEncoder_encode rest.
Proof. done. Qed.

Lemma encode_bounds n : ∀ units,
  (length units ≤ n)%nat → Forall (λ u, (u < 0x10000)%N) units →
  (length units ≤ length (TextEncoder_encode units) ≤ 3 * length units)%nat.
Proof.
  induction n as [|n IH]; intros units Hn Hall.
  { destruct units; simpl in *; lia. }
  destruct units as [|u rest]; [simpl; lia|].
  apply Forall_cons in Hall as [Hu Hrest]. rewrite length_cons in Hn.
  assert (∀ c, (c < 0x10000)%N → (1 ≤ length (utf8_of_scalar c) ≤ 3)%nat) as Hone.
  { intros c Hc. rewrite length_utf8_of_scalar.
    destruct (N.ltb_spec c 0x80); [lia|]. destruct (N.ltb_spec c 0x800); [lia|].
    destruct (N.ltb_spec c 0x10000); lia. }
  pose proof (IH rest ltac:(lia) Hrest) as IHrest.
  pose proof (Hone 0xFFFD%N ltac:(lia)) as Hfffd.
  pose proof (Hone u Hu) as Hu1.
  rewrite encode_cons, length_cons. destruct (is_lead u).
  - destruct rest as [|v rest'].
    + rewrite length_nil. lia.
    + destruct (is_trail v).
      * apply Forall_cons in Hrest as [_ Hrest'].
        rewrite length_cons in Hn.
        pose proof (IH rest' ltac:(lia) Hrest') as IH'.
        rewrite length_app, length_utf8_of_scalar, length_cons.
        replace (0x10000 + (u - 0xD800) * 0x400 + (v - 0xDC00) <? 0x80)%N with false
          by (symmetry; apply N.ltb_ge; lia).
        replace (0x10000 + (u - 0xD800) * 0x400 + (v - 0xDC00) <? 0x800)%N with false
          by (symmetry; apply N.ltb_ge; lia).
        replace (0x10000 + (u - 0xD800) * 0x400 + (v - 0xDC00) <? 0x10000)%N with false
          by (symmetry; apply N.ltb_ge; lia).
        lia.
      * rewrite length_app. lia.
  - destruct (is_trail u); rewrite length_app; lia.
Qed.

Lemma encode_ascii units :
  Forall (λ u, (u < 0x80)%N) units → TextEncoder_encode units = units.
Proof.
  induction 1 as [|u rest Hu _ IH]; [done|]. rewrite encode_cons.
  assert (is_lead u = false) as ->.
  { unfold is_lead. apply andb_false_iff. left. apply N.leb_gt. lia. }
  assert (is_trail u = false) as ->.
  { unfold is_trail. apply andb_false_iff. left. apply N.leb_gt. lia. }
  unfold utf8_of_scalar. apply N.ltb_lt in Hu. rewrite Hu. simpl. by rewrite IH.
Qed.

(** X17: the size of text.  For text content made of 16-bit code units, the
    size of a file is at least the number of code units and at most three
    times that number; it is exactly that number when every unit is ASCII. *)
Theorem text_size_bounds units :
  Forall (λ u, (u < 0x10000)%N) units →
  (length units ≤ File_size (CText units) ≤ 3 * length units)%nat ∧
  (Forall (λ u, (u < 0x80)%N) units → File_size (CText units) = length units).
Proof.
  intros Hall. destruct units as [|u rest]; [by split|].
  unfold File_size. simpl negb. cbv iota. split.
  - by apply (encode_bounds (length (u :: rest))).
  - intros Hascii. by rewrite encode_ascii.
Qed.

(** ** Operations in sequence *)

(** X18: a delete undoes a create in the registry.  When [createFile]
    returns in a store reached by admissible operations, [deleteFile] of the
    id it returned returns as well, and leaves both maps and the child array
    of every folder that was there as they were before the create; the
    counter stays advanced. *)
Theorem delete_undoes_create nm parentId c s r s1 :
  reachable no_cycle s →
  createFile nm parentId c s = Ok r s1 →
  ∃ s2, deleteFile (pretty (nextId s)) s1 = Ok tt s2 ∧
    objects s2 = objects s ∧ parents s2 = parents s ∧
    (∀ a es, children s a = Some es → children s2 a = Some es) ∧
    nextId s2 = S (nextId s).
Proof.
  intros Hreach Hcreate. pose proof (reachable_wfs s Hreach) as Hwf.
  assert (reachable no_cycle s1) as Hreach1.
  { replace s1 with (exec (CreateFile nm parentId c) s) by (simpl; by rewrite Hcreate).
    by apply reach_exec. }
  destruct (create_call_Ok (NewFile nm parentId c) s r s1 Hcreate)
    as (pid & p & ep & es & _ & _ & Hep & Hb & Hs1 & _). simpl in Hs1.
  destruct (created_heap nm (File c) p es s ep Hep Hb) as (_ & Hl & Hp' & Hold).
  rewrite <-Hs1 in Hl, Hp', Hold.
  assert (p < length (heap s)) as Hlt by (by eapply lookup_lt_Some).
  assert (objects s1 !! pretty (nextId s) = Some (length (heap s))) as Ho1.
  { rewrite Hs1. apply lookup_insert_eq. }
  assert (children s1 (length (heap s)) = None) as Hfile.
  { unfold children. by rewrite Hl. }
  destruct (deleteFile_unregisters s1 (pretty (nextId s)) (length (heap s))
              (reachable_sound s1 Hreach1) Ho1 Hfile)
    as (s2 & q & esq & Hdel & Hq & Hesq & Ho2 & Hp2 & Hkq & _ & Hkids & _ & _ & _ & Hn2).
  assert (q = p) as ->.
  { apply parentOf_Some in Hq as (j & Hj & Hpj). unfold id_of in Hj.
    rewrite Hl in Hj. injection Hj as <-. rewrite Hs1 in Hpj. simpl in Hpj.
    rewrite lookup_insert_eq in Hpj. congruence. }
  assert (∀ j a, objects s !! j = Some a → j ≠ pretty (nextId s)) as Hfresh.
  { intros j a Ha ->. apply (wf_fresh _ Hwf a (nextId s)); [simpl; lia|].
    by apply (wf_obj _ Hwf). }
  assert (objects s !! pretty (nextId s) = None) as Hnone.
  { destruct (objects s !! pretty (nextId s)) as [a|] eqn:E; [|done].
    by destruct (Hfresh _ _ E). }
  assert (parents s !! pretty (nextId s) = None) as Hpnone.
  { destruct (snd_rooted s (reachable_sound s Hreach)) as [Hdom _]. simpl in Hdom.
    apply not_elem_of_dom. rewrite Hdom. by apply not_elem_of_dom. }
  exists s2. split; [done|].
  split; [rewrite Ho2, Hs1; simpl; by apply delete_insert_id|].
  split; [rewrite Hp2, Hs1; simpl; by apply delete_insert_id|].
  split; [|by rewrite Hn2, Hs1].
  intros a es0 Ha. destruct (decide (a = p)) as [->|Hap].
  - assert (es0 = es) as ->.
    { apply children_Some in Ha as (e0 & He0 & Hb0). congruence. }
    assert (esq = es ++ [length (heap s)]) as ->.
    { apply children_Some in Hesq as (e1 & He1 & Hb1). rewrite Hp' in He1.
      injection He1 as <-. simpl in Hb1. congruence. }
    rewrite Hkq, filter_app, filter_cons, decide_False, filter_nil, app_nil_r by naive_solver.
    rewrite filter_keep_all; [done|]. intros x Hx ->.
    destruct (child_valid s p es _ Hwf Ha Hx) as [ex Hex%lookup_lt_Some]. lia.
  - rewrite Hkids by done. apply children_Some in Ha as (e0 & He0 & Hb0).
    apply children_Some. exists e0. split; [by apply Hold | done].
Qed.

(** ** A new store *)

(** X19: a new store holds its root and nothing else.  The root is registered
    under the id given as [rootFolderId] when that is a non-empty string and
    under the decimal form of the counter otherwise; the counter is advanced
    by one in both cases.  The root is named "root", has an empty child array
    and no parent, so that its record shows an undefined [parent_id]; its
    dates are the first two readings of the clock, and its id is the default
    [parentId] of the create operations. *)
Theorem new_store_has_only_its_root clk n0 rootFolderId :
  let s := new_ObjectStore clk n0 rootFolderId in
  let rid := match rootFolderId with
             | Some i => if truthy_string i then i else pretty n0
             | None => pretty n0
             end in
  nextId s = S n0 ∧
  dom (objects s) = {[ rid ]} ∧ dom (parents s) = {[ rid ]} ∧
  getParent rid s = Ok None s ∧
  default_parent None s = Ok rid s ∧
  ∃ r, getFolder rid s = Ok r s ∧
    jget "id" r = Some (JString rid) ∧
    jget "name" r = Some (JString "root") ∧
    jget "type" r = Some (JString "folder") ∧
    jget "parent_id" r = Some JUndefined ∧
    jget "created_at" r = Some (JDate (clk 0%nat)) ∧
    jget "modified_at" r = Some (JDate (clk 1%nat)) ∧
    jget "entries" r = Some (JArray []).
Proof.
  cbv zeta.
  assert (∀ i : string,
    let s := mkState (S n0) clk 2 [mkEntry i "root" (clk 0%nat) (clk 1%nat) (Folder [])] 0
               (<[i:=0%nat]> ∅) (<[i:=None]> ∅) in
    nextId s = S n0 ∧
    dom (objects s) = {[ i ]} ∧ dom (parents s) = {[ i ]} ∧
    getParent i s = Ok None s ∧
    default_parent None s = Ok i s ∧
    ∃ r, getFolder i s = Ok r s ∧
      jget "id" r = Some (JString i) ∧
      jget "name" r = Some (JString "root") ∧
      jget "type" r = Some (JString "folder") ∧
      jget "parent_id" r = Some JUndefined ∧
      jget "created_at" r = Some (JDate (clk 0%nat)) ∧
      jget "modified_at" r = Some (JDate (clk 1%nat)) ∧
      jget "entries" r = Some (JArray [])) as H.
  { intros i s. subst s.
    split; [done|].
    split; [simpl; by rewrite dom_insert_L, dom_empty_L, union_empty_r_L|].
    split; [simpl; by rewrite dom_insert_L, dom_empty_L, union_empty_r_L|].
    split; [unfold getParent, gets, lookup_parent; simpl; by rewrite lookup_insert_eq|].
    split; [done|].
    eexists. split.
    - unfold getFolder, bind, gets. simpl. rewrite lookup_insert_eq.
      unfold toJSON, Folder_toJSON, Entry_toJSON, toMiniJSON, Entry_toMiniJSON,
        Folder_entries, getParent, lookup_parent, bind, gets, deref, ret. simpl.
      rewrite !lookup_insert_eq. simpl. reflexivity.
    - repeat split; reflexivity. }
  destruct rootFolderId as [i|]; [destruct (truthy_string i) eqn:Ht|].
  - replace (new_ObjectStore clk n0 (Some i)) with
      (mkState (S n0) clk 2 [mkEntry i "root" (clk 0%nat) (clk 1%nat) (Folder [])] 0
               (<[i:=0%nat]> ∅) (<[i:=None]> ∅)); [apply H|].
    unfold new_ObjectStore, ObjectStore_constructor, new_Folder. rewrite Ht. reflexivity.
  - replace (new_ObjectStore clk n0 (Some i)) with
      (mkState (S n0) clk 2 [mkEntry (pretty n0) "root" (clk 0%nat) (clk 1%nat) (Folder [])] 0
               (<[pretty n0:=0%nat]> ∅) (<[pretty n0:=None]> ∅)); [apply H|].
    unfold new_ObjectStore, ObjectStore_constructor, new_Folder. rewrite Ht. reflexivity.
  - apply H.
Qed.

(** ** The theorems at a concrete store *)

Lemma getFile_outcome_witness :
  ∃ r pid rp items,
    getFile "2" demo_store = Ok r demo_store ∧ jget "id" r = Some (JString "2") ∧
    jget "parent_id" r = Some (JString pid) ∧
    getFolder pid demo_store = Ok rp demo_store ∧
    jget "entries" rp = Some (JArray items) ∧ JObject r ∈ items.
Proof.
  pose proof (getFile_outcome demo_store "2" demo_store_reachable) as H.
  assert (objects demo_store !! "2" = Some 2) as E by (by vm_compute).
  assert (children demo_store 2 = None) as E' by (by vm_compute).
  rewrite E, E' in H. exact H.
Defined.

Lemma getFolder_outcome_witness :
  getFolder "9" demo_store = Throw (TypeError "Folder not found.") demo_store ∧
  ∃ r items,
    getFolder "1" demo_store = Ok r demo_store ∧ jget "id" r = Some (JString "1") ∧
    jget "entries" r = Some (JArray items) ∧ length items = 2.
Proof.
  split.
  - pose proof (getFolder_outcome demo_store "9" demo_store_reachable) as H.
    assert (objects demo_store !! "9" = None) as E by (by vm_compute).
    rewrite E in H. exact H.
  - pose proof (getFolder_outcome demo_store "1" demo_store_reachable) as H.
    assert (objects demo_store !! "1" = Some 1) as E by (by vm_compute).
    assert (children demo_store 1 = Some [2; 3]) as E' by (by vm_compute).
    rewrite E, E' in H. destruct H as (r & items & Hget & Hid & Hes & _ & Hall).
    exists r, items. repeat split; try assumption.
    symmetry. exact (Forall2_length _ _ _ Hall).
Defined.

Lemma createFile_then_get_witness :
  ∃ r s', createFile "c.txt" None (CText (units_of_string "hi")) demo_store = Ok r s' ∧
    jget "id" r = Some (JString "5") ∧
    getFile "5" s' = Ok r s' ∧
    getFileContent "5" s' = Ok (CText (units_of_string "hi")) s'.
Proof.
  destruct (createFile "c.txt" None (CText (units_of_string "hi")) demo_store)
    as [r s'|e s'] eqn:E; [|vm_compute in E; discriminate E].
  exists r, s'. split; [reflexivity|].
  destruct (createFile_then_get _ _ _ _ _ _ E) as (Hid & _ & _ & _ & _ & Hget & Hc).
  assert (pretty (nextId demo_store) = "5") as Hn by (by vm_compute).
  rewrite Hn in Hid, Hget, Hc.
  split; [exact Hid|]. split; [exact Hget | exact Hc].
Defined.

Lemma createFolder_then_get_witness :
  ∃ r s', createFolder "new" (Some "3") demo_store = Ok r s' ∧
    jget "id" r = Some (JString "5") ∧
    jget "entries" r = Some (JArray []) ∧
    getFolder "5" s' = Ok r s'.
Proof.
  destruct (createFolder "new" (Some "3") demo_store)
    as [r s'|e s'] eqn:E; [|vm_compute in E; discriminate E].
  exists r, s'. split; [reflexivity|].
  destruct (createFolder_then_get _ _ _ _ _ E) as (Hid & _ & _ & _ & Hes & Hget).
  assert (pretty (nextId demo_store) = "5") as Hn by (by vm_compute).
  rewrite Hn in Hid, Hget.
  split; [exact Hid|]. split; [exact Hes | exact Hget].
Defined.

Lemma create_appends_and_stamps_witness :
  ∃ r s', create_call (NewFolder "new" (Some "3")) demo_store = Ok r s' ∧
    children demo_store 3 = Some [4] ∧ children s' 3 = Some [4; 5] ∧
    getParent "5" s' = Ok (Some 3) s' ∧
    jget "parent_id" r = Some (JString "3").
Proof.
  destruct (create_call (NewFolder "new" (Some "3")) demo_store)
    as [r s'|e s'] eqn:E; [|vm_compute in E; discriminate E].
  exists r, s'. split; [reflexivity|].
  destruct (create_appends_and_stamps _ _ _ _ demo_store_reachable E)
    as (pid & p & es & Hd & Ho & Hk & Hk' & Hpar & Hpid & _).
  assert (pid = "3") as ->.
  { symmetry.
    exact (f_equal (λ r, match r with Ok a _ => a | Throw _ _ => EmptyString end) Hd). }
  assert (objects demo_store !! "3" = Some 3) as Ho3 by (by vm_compute).
  rewrite Ho3 in Ho. injection Ho as <-.
  assert (children demo_store 3 = Some [4]) as Hk3 by (by vm_compute).
  rewrite Hk3 in Hk. injection Hk as <-.
  assert (pretty (nextId demo_store) = "5") as Hn by (by vm_compute).
  assert (length (heap demo_store) = 5) as Hl by (by vm_compute).
  rewrite Hn in Hpar. rewrite Hl in Hk'.
  split; [exact Hk3|]. split; [exact Hk'|]. split; [exact Hpar | exact Hpid].
Defined.

Lemma create_outcome_witness :
  create_call (NewFile "x" (Some "2") CUndefined) demo_store
    = Throw (TypeError "Parent is not a folder.") demo_store ∧
  create_call (NewFolder "x" (Some "9")) demo_store
    = Throw (TypeError "Parent not found.") demo_store.
Proof.
  split.
  - destruct (create_outcome (NewFile "x" (Some "2") CUndefined) demo_store
                demo_store_reachable) as (pid & Hd & H).
    assert (pid = "2") as ->.
    { symmetry.
      exact (f_equal (λ r, match r with Ok a _ => a | Throw _ _ => EmptyString end)
               Hd). }
    assert (objects demo_store !! "2" = Some 2) as E by (by vm_compute).
    assert (children demo_store 2 = None) as E' by (by vm_compute).
    rewrite E, E' in H. exact H.
  - destruct (create_outcome (NewFolder "x" (Some "9")) demo_store
                demo_store_reachable) as (pid & Hd & H).
    assert (pid = "9") as ->.
    { symmetry.
      exact (f_equal (λ r, match r with Ok a _ => a | Throw _ _ => EmptyString end)
               Hd). }
    assert (objects demo_store !! "9" = None) as E by (by vm_compute).
    rewrite E in H. exact H.
Defined.

Lemma deleteFile_removes_one_witness :
  ∃ s', deleteFile "2" demo_store = Ok tt s' ∧
    children demo_store 1 = Some [2; 3] ∧ children s' 1 = Some [3] ∧
    getFile "2" s' = Throw (TypeError "File not found.") s'.
Proof.
  assert (objects demo_store !! "2" = Some 2) as Hf by (by vm_compute).
  assert (children demo_store 2 = None) as Hfile by (by vm_compute).
  destruct (deleteFile_removes_one demo_store "2" 2 demo_store_reachable Hf Hfile)
    as (s' & q & es & Hdel & Hq & Hes & _ & _ & Hk & _ & _ & Hget & _).
  assert (parentOf demo_store 2 = Some 1) as Hq1 by (by vm_compute).
  rewrite Hq1 in Hq. injection Hq as <-.
  assert (children demo_store 1 = Some [2; 3]) as Hk1 by (by vm_compute).
  rewrite Hk1 in Hes. injection Hes as <-.
  exists s'. split; [exact Hdel|]. split; [exact Hk1|]. split; [exact Hk | exact Hget].
Defined.

Lemma deleteFolder_keeps_the_rest_witness :
  objects (state_of (deleteFolder 6 "3" demo_store)) !! "2" = Some 2 ∧
  ∃ e', heap (state_of (deleteFolder 6 "3" demo_store)) !! 2 = Some e' ∧
    name e' = "a.txt" ∧
    file_content e' = Some (CText (units_of_string "Hello, world!")).
Proof.
  assert (objects demo_store !! "3" = Some 3) as Ha by (by vm_compute).
  assert (is_Some (children demo_store 3)) as Hdir by (by vm_compute; eexists).
  assert (length (heap demo_store) < 6) as Hlen by (vm_compute; lia).
  assert (objects demo_store !! "2" = Some 2) as Hf by (by vm_compute).
  assert (heap demo_store !! 2 =
          Some (mkEntry "2" "a.txt" 0 0 (File (CText (units_of_string "Hello, world!")))))
    as He by (by vm_compute).
  assert (parentOf demo_store 2 = Some 1) as H21 by (by vm_compute).
  assert (parentOf demo_store 1 = Some 0) as H10 by (by vm_compute).
  assert (parentOf demo_store 0 = None) as H0 by (by vm_compute).
  assert (¬ below demo_store 2 3) as Hout.
  { intros [H|H]; [discriminate H|]. unfold ancestor in H.
    inversion H as [? ? H1|? p ? H1 H2]; subst; rewrite H21 in H1; [discriminate H1|].
    injection H1 as <-.
    inversion H2 as [? ? H3|? p ? H3 H4]; subst; rewrite H10 in H3; [discriminate H3|].
    injection H3 as <-.
    inversion H4 as [? ? H5|? p ? H5 H6]; subst; rewrite H0 in H5; discriminate H5. }
  destruct (deleteFolder_keeps_the_rest demo_store "3" 3 6 demo_store_reachable
              Ha Hdir Hlen "2" 2 _ Hf Hout He) as (Ho & _ & e' & He' & Hn & _ & Hc & _).
  split; [exact Ho|]. exists e'. split; [exact He'|]. split; [exact Hn | exact Hc].
Defined.

Lemma move_rearranges_two_arrays_witness :
  ∃ r s', move_call (MoveFile "2" None CUndefined "3") demo_store = Ok r s' ∧
    children demo_store 3 = Some [4] ∧ children s' 3 = Some [4; 2] ∧
    children s' 0 = children demo_store 0 ∧
    getParent "2" s' = Ok (Some 3) s' ∧
    jget "parent_id" r = Some (JString "3").
Proof.
  destruct (move_call (MoveFile "2" None CUndefined "3") demo_store) as [r s'|e s'] eqn:E;
    [|vm_compute in E; discriminate E].
  exists r, s'. split; [reflexivity|].
  assert (objects demo_store !! "2" = Some 2) as Hf by (by vm_compute).
  assert (parentOf demo_store 2 = Some 1) as Hq by (by vm_compute).
  assert (objects demo_store !! "3" = Some 3) as Hp by (by vm_compute).
  destruct (move_rearranges_two_arrays demo_store (MoveFile "2" None CUndefined "3")
              r s' 2 1 3 demo_store_reachable E eq_refl Hf Hq Hp)
    as (esq & esp & _ & Hesp & Hp' & _ & Hrest & Hpar & Hpid).
  assert (children demo_store 3 = Some [4]) as Hk3 by (by vm_compute).
  rewrite Hk3 in Hesp. injection Hesp as <-.
  split; [exact Hk3|]. split; [exact Hp'|].
  split; [apply Hrest; discriminate|]. split; [exact Hpar | exact Hpid].
Defined.

Lemma rename_changes_name_and_date_witness :
  ∃ r s', rename_call TFile "2" "b.txt" demo_store = Ok r s' ∧
    jget "name" r = Some (JString "b.txt") ∧
    objects s' = objects demo_store ∧ parents s' = parents demo_store.
Proof.
  assert (objects demo_store !! "2" = Some 2) as Hf by (by vm_compute).
  assert (heap demo_store !! 2 =
          Some (mkEntry "2" "a.txt" 0 0 (File (CText (units_of_string "Hello, world!")))))
    as He by (by vm_compute).
  destruct (rename_changes_name_and_date demo_store "2" 2 _ "b.txt"
              demo_store_reachable Hf He eq_refl)
    as (r & s' & Hcall & Hnm & _ & _ & Ho & Hp & _).
  exists r, s'. split; [exact Hcall|]. split; [exact Hnm|]. split; [exact Ho | exact Hp].
Defined.

Lemma updateFile_writes_content_witness :
  ∃ r s', updateFile "2" None (CText (units_of_string "new")) None demo_store = Ok r s' ∧
    getFileContent "2" s' = Ok (CText (units_of_string "new")) s' ∧
    jget "size" r = Some (JNumber 3) ∧
    modifiedAt <$> heap s' !! 1 = Some 0%Z.
Proof.
  assert (objects demo_store !! "2" = Some 2) as Hf by (by vm_compute).
  assert (children demo_store 2 = None) as Hfile by (by vm_compute).
  destruct (updateFile_writes_content demo_store "2" 2 (CText (units_of_string "new"))
              demo_store_reachable Hf Hfile eq_refl)
    as (r & s' & q & Hcall & Hq & Hc & Hsz & _ & Hm & _).
  assert (parentOf demo_store 2 = Some 1) as Hq1 by (by vm_compute).
  rewrite Hq1 in Hq. injection Hq as <-.
  exists r, s'. split; [exact Hcall|]. split; [exact Hc|]. split; [exact Hsz | exact Hm].
Defined.

Lemma entries_keep_identity_witness :
  ∃ e', heap (exec (UpdateFolder "3" (Some "moved") (Some "0")) demo_store) !! 4 = Some e' ∧
    id e' = "4" ∧ type e' = TFile ∧ name e' = "b.txt" ∧
    file_content e' = Some CUndefined.
Proof.
  assert (heap demo_store !! 4 = Some (mkEntry "4" "b.txt" 0 0 (File CUndefined)))
    as He by (by vm_compute).
  destruct (entries_keep_identity (UpdateFolder "3" (Some "moved") (Some "0"))
              demo_store 4 _ He) as (e' & He' & Hid & Hty & _ & _ & Hc).
  assert (name e' = "b.txt") as Hnm.
  { assert (name <$> heap (exec (UpdateFolder "3" (Some "moved") (Some "0")) demo_store) !! 4
            = Some "b.txt") as H by (by vm_compute).
    rewrite He' in H. by injection H. }
  exists e'. split; [exact He'|]. split; [exact Hid|]. split; [exact Hty|].
  split; [exact Hnm | exact (Hc eq_refl)].
Defined.

Lemma root_cannot_be_moved_witness :
  is_ok (updateFolder "0" None (Some "1") demo_store) = false ∧
  objects (state_of (updateFolder "0" None (Some "1") demo_store)) = objects demo_store.
Proof.
  assert (objects demo_store !! "0" = Some (root demo_store)) as Hr by (by vm_compute).
  destruct (root_cannot_be_moved demo_store "0" None "1" demo_store_reachable Hr eq_refl)
    as (Hok & Ho & _).
  split; [exact Hok | exact Ho].
Defined.

Lemma root_cannot_be_deleted_witness :
  is_ok (deleteFolder 6 "0" demo_store) = false.
Proof.
  assert (objects demo_store !! "0" = Some (root demo_store)) as Hr by (by vm_compute).
  exact (root_cannot_be_deleted demo_store "0" 6 demo_store_reachable Hr).
Defined.

Lemma arrays_agree_with_parents_witness :
  (∃ es, children demo_store 3 = Some es ∧ 4 ∈ es) ∧ id_of demo_store 4 = Some "4".
Proof.
  destruct (arrays_agree_with_parents demo_store demo_store_reachable) as (Hpar & _ & Hid).
  split.
  - apply Hpar. by vm_compute.
  - apply Hid. by vm_compute.
Defined.

Lemma registered_entries_descend_from_root_witness :
  ancestor demo_store (root demo_store) 4.
Proof.
  assert (objects demo_store !! "4" = Some 4) as Hf by (by vm_compute).
  destruct (registered_entries_descend_from_root demo_store "4" 4 demo_store_reachable Hf)
    as [H|H]; [vm_compute in H; discriminate H | exact H].
Defined.

Lemma text_size_bounds_witness :
  (2 ≤ File_size (CText [0x68%N; 0xE9%N]) ≤ 6)%nat ∧
  File_size (CText (units_of_string "hi")) = 2.
Proof.
  split.
  - apply (text_size_bounds [0x68%N; 0xE9%N]). repeat constructor.
  - apply (text_size_bounds (units_of_string "hi")); repeat constructor.
Defined.

Lemma delete_undoes_create_witness :
  ∃ r s1 s2, createFile "c.txt" (Some "3") CUndefined demo_store = Ok r s1 ∧
    deleteFile "5" s1 = Ok tt s2 ∧
    objects s2 = objects demo_store ∧ parents s2 = parents demo_store ∧
    children s2 3 = Some [4].
Proof.
  destruct (createFile "c.txt" (Some "3") CUndefined demo_store)
    as [r s1|e s1] eqn:E; [|vm_compute in E; discriminate E].
  destruct (delete_undoes_create _ _ _ _ _ _ demo_store_reachable E)
    as (s2 & Hdel & Ho & Hp & Hk & _).
  assert (pretty (nextId demo_store) = "5") as Hn by (by vm_compute).
  rewrite Hn in Hdel.
  exists r, s1, s2. split; [reflexivity|]. split; [exact Hdel|].
  split; [exact Ho|]. split; [exact Hp|]. apply Hk. by vm_compute.
Defined.
